(** * tap-autopilot: pagination, incremental bookmarks and stream dispatch

    A shallow embedding of [tap_autopilot/__init__.py] and the properties of
    its pagination engine, its contacts bookmark and its stream dispatcher.

    Conventions of the embedding.
    - JSON values decoded by [json.loads] are the type [json]; a Python [dict]
      is an association list in insertion order.  Numbers are integers (the
      API's timestamps are integer Unix milliseconds).
    - A Python [str] is the string of its UTF-8 bytes; where Python works on
      characters (iteration, [\w] of [re]) the model works on the code points
      that the bytes encode.
    - A Python exception is a value of [exn]; a computation that can raise
      returns [result] (pure code) or runs in the monad [M] (code that talks
      to the API or writes singer messages).
    - The [while True] loop of [gen_request] is bounded by a fuel argument;
      running out of fuel is the outcome [OutOfFuel], which is not a Python
      exception.
    - Logging ([LOGGER.info]), the metrics timers and counters and the rate
      limiter ([utils.ratelimit]) change neither results nor messages and are
      left out. *)

From Stdlib Require Import ZArith Ascii String List Lia Bool.
From stdpp Require Import base option list gmap strings.

Set Warnings "-register-all".

(** ** JSON values and Python's operations on them *)

Inductive json : Type :=
| JNull
| JBool (b : bool)
| JNum (n : Z)
| JStr (s : string)
| JArr (items : list json)
| JObj (members : list (string * json)).

Inductive exn : Type :=
| KeyError (key : string)
| TypeError
| IndexError
| ValueError (msg : string)
| RequestException (response : option Z)
| Exception (msg : string).

Inductive result (A : Type) : Type :=
| Ok (a : A)
| Err (e : exn).
Arguments Ok {A} a.
Arguments Err {A} e.

Definition rbind {A B} (r : result A) (k : A -> result B) : result B :=
  match r with
  | Ok a => k a
  | Err e => Err e
  end.

Notation "'let?' x ':=' r 'in' k" := (rbind r (fun x => k))
  (at level 10, x name, r at level 100, k at level 200).

Fixpoint rmap {A B} (f : A -> result B) (l : list A) : result (list B) :=
  match l with
  | [] => Ok []
  | x :: l' => let? y := f x in let? ys := rmap f l' in Ok (y :: ys)
  end.

(** [s1 in s2] on two Python strings. *)
Fixpoint starts_with (p s : string) : bool :=
  match p, s with
  | EmptyString, _ => true
  | String a p', String b s' => if Ascii.eqb a b then starts_with p' s' else false
  | String _ _, EmptyString => false
  end.

Fixpoint contains (needle hay : string) : bool :=
  starts_with needle hay ||
  match hay with
  | EmptyString => false
  | String _ hay' => contains needle hay'
  end.

(** Python dictionaries, in insertion order. *)
Fixpoint dict_get (k : string) (d : list (string * json)) : option json :=
  match d with
  | [] => None
  | (k', v) :: d' => if String.eqb k k' then Some v else dict_get k d'
  end.

Definition dict_mem (k : string) (d : list (string * json)) : bool :=
  match dict_get k d with Some _ => true | None => false end.

(** [d[k] = v]: an existing key keeps its position, a new key goes last. *)
Fixpoint dict_set (k : string) (v : json) (d : list (string * json))
  : list (string * json) :=
  match d with
  | [] => [(k, v)]
  | (k', v') :: d' =>
      if String.eqb k k' then (k', v) :: d' else (k', v') :: dict_set k v d'
  end.

Definition is_str (k : string) (j : json) : bool :=
  match j with JStr s => String.eqb k s | _ => false end.

(** [k in c] for a string literal [k]. *)
Definition py_contains (k : string) (c : json) : result bool :=
  match c with
  | JObj d => Ok (dict_mem k d)
  | JArr l => Ok (existsb (is_str k) l)
  | JStr s => Ok (contains k s)
  | _ => Err TypeError
  end.

(** [c[k]] for a string literal [k]. *)
Definition py_getitem (c : json) (k : string) : result json :=
  match c with
  | JObj d => match dict_get k d with Some v => Ok v | None => Err (KeyError k) end
  | _ => Err TypeError
  end.

(** [c[k] = v] for a string literal [k]. *)
Definition py_setitem (c : json) (k : string) (v : json) : result json :=
  match c with
  | JObj d => Ok (JObj (dict_set k v d))
  | _ => Err TypeError
  end.

(** A string is the UTF-8 encoding of a Python [str]: a character of the
    [str] is the code point that one to four bytes encode. *)
Definition byte (a : ascii) : N := N_of_ascii a.

(** A continuation byte, [10xxxxxx]. *)
Definition continuation (a : ascii) : bool :=
  ((128 <=? byte a) && (byte a <? 192))%N.

(** The number of bytes of a character whose first byte is [a]; 0 when no
    character starts with [a]. *)
Definition width (a : ascii) : nat :=
  if (byte a <? 128)%N then 1
  else if (byte a <? 192)%N then 0
  else if (byte a <? 224)%N then 2
  else if (byte a <? 240)%N then 3
  else if (byte a <? 248)%N then 4
  else 0.

(** The characters of [s], each as the string of its bytes.  In a string
    that encodes no [str], a byte that belongs to no character counts as a
    character of its own. *)
Fixpoint characters (s : string) : list string :=
  match s with
  | EmptyString => []
  | String a s1 =>
      let alone := String a EmptyString :: characters s1 in
      match s1 with
      | EmptyString => alone
      | String b s2 =>
          if (width a =? 2) && continuation b
          then String a (String b EmptyString) :: characters s2
          else
            match s2 with
            | EmptyString => alone
            | String c s3 =>
                if (width a =? 3) && continuation b && continuation c
                then String a (String b (String c EmptyString)) :: characters s3
                else
                  match s3 with
                  | EmptyString => alone
                  | String d s4 =>
                      if (width a =? 4) && continuation b && continuation c
                         && continuation d
                      then String a (String b (String c (String d EmptyString)))
                           :: characters s4
                      else alone
                  end
            end
      end
  end.

(** The bytes of one character. *)
Definition character (c : string) : bool :=
  match c with
  | String a EmptyString => width a =? 1
  | String a (String b EmptyString) => (width a =? 2) && continuation b
  | String a (String b (String c EmptyString)) =>
      (width a =? 3) && continuation b && continuation c
  | String a (String b (String c (String d EmptyString))) =>
      (width a =? 4) && continuation b && continuation c && continuation d
  | _ => false
  end.

(** [ord(c)] of a character. *)
Definition code_point (c : string) : N :=
  match c with
  | String a EmptyString => byte a
  | String a (String b EmptyString) => (byte a - 192) * 64 + (byte b - 128)
  | String a (String b (String c EmptyString)) =>
      ((byte a - 224) * 64 + (byte b - 128)) * 64 + (byte c - 128)
  | String a (String b (String c (String d EmptyString))) =>
      (((byte a - 240) * 64 + (byte b - 128)) * 64 + (byte c - 128)) * 64
      + (byte d - 128)
  | _ => 0
  end%N.

Definition chars (s : string) : list json := map JStr (characters s).

(** The values a [for] loop over [c] binds: the keys of a dict, the items of
    a list, the characters of a string. *)
Definition py_iter (c : json) : result (list json) :=
  match c with
  | JObj d => Ok (map (fun kv => JStr (fst kv)) d)
  | JArr l => Ok l
  | JStr s => Ok (chars s)
  | _ => Err TypeError
  end.

(** [c[i]] for a list [c] and an integer [i], negative indices counting from
    the end. *)
Definition list_index (l : list json) (i : Z) : result json :=
  let n := Z.of_nat (length l) in
  let j := (if i <? 0 then i + n else i)%Z in
  if ((0 <=? j) && (j <? n))%Z
  then match nth_error l (Z.to_nat j) with Some v => Ok v | None => Err IndexError end
  else Err IndexError.

(** [c[row]] where [row] was bound by iterating over [c]. *)
Definition py_subscript (c row : json) : result json :=
  match c, row with
  | JObj d, JStr k =>
      match dict_get k d with Some v => Ok v | None => Err (KeyError k) end
  | JArr l, JNum i => list_index l i
  | JArr l, JBool b => list_index l (if b then 1 else 0)
  | _, _ => Err TypeError
  end.

(** ** Endpoints and sources *)

Definition PER_PAGE : nat := 100.
Definition BASE_URL : string := "https://api2.autopilothq.com/v1".

Definition ENDPOINTS : list (string * string) :=
  [ ("contacts", "/contacts");
    ("custom_fields", "/contacts/custom_fields");
    ("lists", "/lists");
    ("smart_segments", "/smart_segments");
    ("smart_segments_contacts", "/smart_segments/{segment_id}/contacts") ].

Fixpoint assoc (k : string) (l : list (string * string)) : option string :=
  match l with
  | [] => None
  | (k', v) :: l' => if String.eqb k k' then Some v else assoc k l'
  end.

Definition newline : ascii := ascii_of_nat 10.

(** A literal prefix of a pattern, in which [.] stands for any character but
    a newline: the rest of [s] after the prefix, when [s] matches. *)
Fixpoint match_literal (pat s : string) : option string :=
  match pat with
  | EmptyString => Some s
  | String p pat' =>
      match s with
      | EmptyString => None
      | String a s' =>
          if Ascii.eqb p "."
          then (if Ascii.eqb a newline then None else match_literal pat' s')
          else (if Ascii.eqb p a then match_literal pat' s' else None)
      end
  end.

Fixpoint take_string (n : nat) (s : string) : string :=
  match n, s with
  | S n', String a s' => String a (take_string n' s')
  | _, _ => EmptyString
  end.

Definition parse_key_from_source (source : string) : string :=
  if contains "contact" source then "contacts"
  else if contains "smart_segments" source then "segments"
  else source.

(** [str.format] by keyword on an endpoint template: every [{name}] is
    replaced by the argument of that name; the templates of [ENDPOINTS] use no
    other format syntax. *)
Fixpoint format_go (kwargs : list (string * string))
    (field : option string) (s : string) : result string :=
  match s with
  | EmptyString =>
      match field with None => Ok EmptyString | Some _ => Err (ValueError "format") end
  | String a s' =>
      match field with
      | None =>
          if Ascii.eqb a "{" then format_go kwargs (Some EmptyString) s'
          else let? r := format_go kwargs None s' in Ok (String a r)
      | Some name =>
          if Ascii.eqb a "}"
          then match assoc name kwargs with
               | Some v => let? r := format_go kwargs None s' in Ok (v +:+ r)
               | None => Err (KeyError name)
               end
          else format_go kwargs (Some (name +:+ String a EmptyString)) s'
      end
  end.

Definition get_url (endpoint : string) (kwargs : list (string * string))
  : result string :=
  match assoc endpoint ENDPOINTS with
  | None => Err (ValueError ("Invalid endpoint " +:+ endpoint))
  | Some template =>
      let? path := format_go kwargs None template in Ok (BASE_URL +:+ path)
  end.

(** ** The environment: the remote API and the singer library *)

(** A response: its status code and the JSON value its body decodes to, if it
    does. *)
Record Response : Type := { status_code : Z; payload : option json }.

(** What [SESSION.send] does: it raises a [RequestException] without a
    response (connection error, timeout) or returns a response. *)
Inductive http_result : Type :=
| ConnectionFailed
| Reply (resp : Response).

(** The global [CONFIG]; [JNull] is Python's [None]. *)
Record config : Type := { api_key : json; start_date : json; user_agent : json }.

(** The parts of a run that the repository does not define.
    - [server n] is what the remote API answers to the [n]-th GET of the run.
    - [datetime] is a timezone-aware [datetime.datetime]; Python orders two
      of them by their instants.
    - [_transform_datetime v] is singer's
      [_transform_datetime(v, UNIX_MILLISECONDS_INTEGER_DATETIME_PARSING)].
    - [strptime_with_tz] and [strftime] are those of [singer.utils].
    - [py_str v] is [str.format]'s rendering of [v].
    - [isalnum n] is [str.isalnum] of the character with the code point [n],
      the Unicode property that [re] decides [\w] by. *)
Class Env : Type := {
  server : nat -> http_result;
  CONFIG : config;
  datetime : Type;
  instant : datetime -> Z;
  _transform_datetime : json -> result json;
  strptime_with_tz : json -> result datetime;
  strftime : datetime -> result string;
  py_str : json -> string;
  isalnum : N -> bool
}.

(** ** Sync state and singer messages *)

(** The state dictionary: [STATE["bookmarks"][stream][key]] and
    [STATE["currently_syncing"]]. *)
Record State : Type := {
  bookmarks : gmap string (gmap string json);
  currently_syncing : option string
}.

(** [singer.get_bookmark(state, tap_stream_id, key)], default [None]. *)
Definition get_bookmark (state : State) (tap_stream_id key : string) : option json :=
  match bookmarks state !! tap_stream_id with
  | Some b => b !! key
  | None => None
  end.

(** [singer.write_bookmark(state, tap_stream_id, key, val)]. *)
Definition write_bookmark (state : State) (tap_stream_id key : string) (val : json)
  : State :=
  {| bookmarks :=
       <[tap_stream_id := <[key := val]> (default ∅ (bookmarks state !! tap_stream_id))]>
         (bookmarks state);
     currently_syncing := currently_syncing state |}.

(** [singer.set_currently_syncing(state, tap_stream_id)]. *)
Definition set_currently_syncing (state : State) (tap_stream_id : option string)
  : State :=
  {| bookmarks := bookmarks state; currently_syncing := tap_stream_id |}.

Inductive message : Type :=
| SchemaMessage (stream : string) (schema : json) (key_properties : json)
| RecordMessage (stream : string) (record : json)
| StateMessage (value : State).

(** A catalog entry.  [key_properties] and [selected] are the entries
    [table-key-properties] and [selected] of its root metadata;
    [key_properties] is [JNull], Python's [None], when the metadata has no
    such entry. *)
Record stream : Type := {
  tap_stream_id : string;
  schema : json;
  key_properties : json;
  selected : bool
}.

(** ** Effects *)

(** What a run has done so far: the calls of [request], the GETs sent, the
    pauses between attempts (the value of [backoff.expo], in seconds, which
    the jitter only shortens) and the messages written. *)
Record st : Type := {
  calls : list (string * gmap string json);
  gets : list (string * list (string * json));
  pauses : list Z;
  out : list message
}.

Inductive outcome (A : Type) : Type :=
| Done (a : A)
| Raise (e : exn)
| OutOfFuel.
Arguments Done {A} a.
Arguments Raise {A} e.
Arguments OutOfFuel {A}.

Definition M (A : Type) : Type := st -> outcome A * st.

Definition ret {A} (a : A) : M A := fun s => (Done a, s).
Definition raise {A} (e : exn) : M A := fun s => (Raise e, s).
Definition out_of_fuel {A} : M A := fun s => (OutOfFuel, s).

Definition bind {A B} (m : M A) (k : A -> M B) : M B :=
  fun s =>
    match m s with
    | (Done a, s') => k a s'
    | (Raise e, s') => (Raise e, s')
    | (OutOfFuel, s') => (OutOfFuel, s')
    end.

Notation "'let*' x ':=' m 'in' k" := (bind m (fun x => k))
  (at level 10, x name, m at level 100, k at level 200).
Notation "'run' m 'in' k" := (bind m (fun _ => k))
  (at level 10, m at level 100, k at level 200).

Definition lift {A} (r : result A) : M A :=
  match r with
  | Ok a => ret a
  | Err e => raise e
  end.

Definition log_call (endpoint : string) (params : gmap string json) : M unit :=
  fun s => (Done tt, {| calls := calls s ++ [(endpoint, params)]; gets := gets s;
                        pauses := pauses s; out := out s |}).

Definition sleep (seconds : Z) : M unit :=
  fun s => (Done tt, {| calls := calls s; gets := gets s;
                        pauses := pauses s ++ [seconds]; out := out s |}).

Definition emit (m : message) : M unit :=
  fun s => (Done tt, {| calls := calls s; gets := gets s;
                        pauses := pauses s; out := out s ++ [m] |}).

(** A [for] loop that threads its local variables [acc] through the body. *)
Fixpoint for_each {R A} (rows : list R) (body : R -> A -> M A) (acc : A) : M A :=
  match rows with
  | [] => ret acc
  | row :: rows' => let* acc' := body row acc in for_each rows' body acc'
  end.

Fixpoint rfold {A} (f : A -> string -> result A) (props : list string) (a : A)
  : result A :=
  match props with
  | [] => Ok a
  | prop :: props' => let? a' := f a prop in rfold f props' a'
  end.

Fixpoint dropwhile {A} (p : A -> bool) (l : list A) : list A :=
  match l with
  | [] => []
  | x :: l' => if p x then dropwhile p l' else l
  end.

Section Tap.
Context {E : Env}.

(** ** Sources *)

(** [\w] of Python's [re] on a [str]: a character that is alphanumeric or
    the underscore; of the ASCII characters these are the digits and the
    letters. *)
Definition is_word (c : string) : bool :=
  character c &&
  (let n := code_point c in
   if n <? 128
   then ((48 <=? n) && (n <=? 57)) || ((65 <=? n) && (n <=? 90)) ||
        ((97 <=? n) && (n <=? 122)) || (n =? 95)
   else isalnum n)%N.

(** The longest run of word characters at the head of a string, from its
    characters. *)
Fixpoint word_run (cs : list string) : string :=
  match cs with
  | c :: cs' => if is_word c then c +:+ word_run cs' else EmptyString
  | [] => EmptyString
  end.

Definition take_word (s : string) : string := word_run (characters s).

(** The greedy match of [.*/(\w+)] at the head of [s]: the number of
    characters matched and group 1.  A later slash is preferred, [.] does not
    cross a newline. *)
Fixpoint match_tail (s : string) : option (nat * string) :=
  match s with
  | EmptyString => None
  | String a s' =>
      if Ascii.eqb a newline then None
      else match match_tail s' with
           | Some (n, g) => Some (S n, g)
           | None =>
               if Ascii.eqb a "/"
               then (let w := take_word s' in
                     match w with
                     | EmptyString => None
                     | String _ _ => Some (S (String.length w), w)
                     end)
               else None
           end
  end.

(** [re.compile(BASE_URL + r'.*/(\w+)').match(url)]: groups 0 and 1. *)
Definition url_regex_match (url : string) : option (string * string) :=
  match match_literal BASE_URL url with
  | None => None
  | Some rest =>
      match match_tail rest with
      | None => None
      | Some (n, g) => Some (take_string (String.length BASE_URL + n) url, g)
      end
  end.

Definition parse_source_from_url (url : string) : result string :=
  match url_regex_match url with
  | Some (group0, group1) =>
      if String.eqb group1 "contacts" && contains "segment" group0
      then Ok "smart_segments_contacts"
      else Ok group1
  | None => Err (ValueError ("Can't determine stream from URL " +:+ url))
  end.


(** ** Bookmarks and errors *)

Definition get_start (STATE : State) (tap_stream_id bookmark_key : string) : json :=
  match get_bookmark STATE tap_stream_id bookmark_key with
  | None | Some JNull => start_date CONFIG
  | Some current_bookmark => current_bookmark
  end.

(** [exc.response] is [None] or carries a status code. *)
Definition client_error (response : option Z) : bool :=
  match response with
  | None => false
  | Some status_code =>
      negb (status_code =? 408)%Z && ((400 <=? status_code)%Z && (status_code <? 500)%Z)
  end.

(** ** The contact transform *)

Definition boolean_props : list string :=
  ["anywhere_page_visits"; "anywhere_form_submits"; "anywhere_utm"].

Definition timestamp_props : list string :=
  ["mail_received"; "mail_opened"; "mail_clicked"; "mail_bounced";
   "mail_complained"; "mail_unsubscribed"; "mail_hardbounced"].

Definition boolean_row (sub row : json) : result json :=
  let? value := py_subscript sub row in
  Ok (JObj [("url", row); ("value", value)]).

Definition timestamp_row (sub row : json) : result json :=
  let? value := py_subscript sub row in
  let? timestamp := _transform_datetime value in
  Ok (JObj [("id", row); ("timestamp", timestamp)]).

(** One round of either loop of [transform_contact]. *)
Definition transform_prop (format_row : json -> json -> result json)
    (contact : json) (prop : string) : result json :=
  let? present := py_contains prop contact in
  if present : bool then
    let? sub := py_getitem contact prop in
    let? rows := py_iter sub in
    let? formatted_array := rmap (format_row sub) rows in
    py_setitem contact prop (JArr formatted_array)
  else Ok contact.

Definition transform_contact (contact : json) : result json :=
  let? contact := rfold (transform_prop boolean_row) boolean_props contact in
  rfold (transform_prop timestamp_row) timestamp_props contact.

(** ** The HTTP fetcher *)

Definition headers : list (string * json) :=
  ("autopilotapikey", api_key CONFIG) ::
  match user_agent CONFIG with
  | JNull => []
  | agent => [("user-agent", agent)]
  end.

Definition send (url : string) : M http_result :=
  fun s => (Done (server (length (gets s))),
            {| calls := calls s; gets := gets s ++ [(url, headers)];
               pauses := pauses s; out := out s |}).

(** The body of [request]: one attempt. *)
Definition request_url (url : string) (params : gmap string json) : result string :=
  match params !! "bookmark" with
  | None => Ok url
  | Some (JStr bookmark) => Ok (url +:+ "/" +:+ bookmark)
  | Some _ => Err TypeError
  end.

Definition request_once (url : string) (params : gmap string json) : M Response :=
  let* url := lift (request_url url params) in
  let* source := lift (parse_source_from_url url) in
  let* reply := send url in
  match reply with
  | ConnectionFailed => raise (RequestException None)
  | Reply resp =>
      if ((400 <=? status_code resp) && (status_code resp <? 600))%Z
      then raise (RequestException (Some (status_code resp)))
      else ret resp
  end.

(** [backoff.expo(base=2, factor)]: the [n]-th value. *)
Definition expo (factor : Z) (n : nat) : Z := (factor * 2 ^ Z.of_nat n)%Z.

(** [backoff.on_exception(backoff.expo, RequestException, max_tries, giveup,
    factor)], with [tries] attempts left and [n] pauses taken: a
    [RequestException] is raised again when [giveup] holds of it or no attempt
    is left, any other exception at once. *)
Fixpoint on_exception {A} (tries n : nat) (giveup : option Z -> bool) (factor : Z)
    (target : M A) : M A :=
  fun s =>
    match target s with
    | (Raise (RequestException response), s') =>
        match tries with
        | S (S _ as tries') =>
            if giveup response then (Raise (RequestException response), s')
            else (run sleep (expo factor n) in
                  on_exception tries' (S n) giveup factor target) s'
        | _ => (Raise (RequestException response), s')
        end
    | other => other
    end.

Definition request (url : string) (params : gmap string json) : M Response :=
  run log_call url params in
  on_exception 5 0 client_error 2 (request_once url params).

(** [resp.json()]. *)
Definition resp_json (resp : Response) : result json :=
  match payload resp with
  | Some data => Ok data
  | None => Err (ValueError "Expecting value")
  end.

(** ** The pagination engine *)

(** The generator [gen_request], driven by the [for] loop that consumes it:
    [body] is the loop's body and [acc] its local variables. *)
Fixpoint gen_request_loop {A} (fuel : nat) (endpoint source source_key : string)
    (params : gmap string json) (body : json -> A -> M A) (acc : A) : M A :=
  match fuel with
  | 0 => out_of_fuel
  | S fuel' =>
      let* resp := request endpoint params in
      let* data := lift (resp_json resp) in
      let* params :=
        (if contains "contact" source then
           let* has_bookmark := lift (py_contains "bookmark" data) in
           if has_bookmark : bool then
             let* bookmark := lift (py_getitem data "bookmark") in
             ret (<["bookmark" := bookmark]> params)
           else ret ∅
         else ret params) in
      let* page := lift (py_getitem data source_key) in
      let* rows := lift (py_iter page) in
      let* acc := for_each rows body acc in
      if length rows <? PER_PAGE then ret acc
      else gen_request_loop fuel' endpoint source source_key params body acc
  end.

Definition gen_request {A} (fuel : nat) (endpoint : string)
    (params : gmap string json) (body : json -> A -> M A) (acc : A) : M A :=
  let* source := lift (parse_source_from_url endpoint) in
  let source_key := parse_key_from_source source in
  gen_request_loop fuel endpoint source source_key params body acc.

(** [list(gen_request(endpoint, params))]. *)
Definition collect (row : json) (rows : list json) : M (list json) :=
  ret (rows ++ [row]).

Definition gen_request_list (fuel : nat) (endpoint : string)
    (params : gmap string json) : M (list json) :=
  gen_request fuel endpoint params collect [].

(** ** The stream syncs *)

Definition write_record (stream_name : string) (record : json) : M unit :=
  emit (RecordMessage stream_name record).

(** The body of the loop of [sync_contacts]: [updated_at_of] is the value it
    gives [updated_at], [max_updated_at] the local variable it updates. *)
Definition updated_at_of (row : json) : result (option datetime) :=
  let? has_updated_at := py_contains "updated_at" row in
  if has_updated_at : bool then
    let? value := py_getitem row "updated_at" in
    let? text := _transform_datetime value in
    let? parsed := strptime_with_tz text in
    Ok (Some parsed)
  else Ok None.

Definition sync_contacts_row (tap_stream_id : string) (start : datetime)
    (row : json) (max_updated_at : datetime) : M datetime :=
  let* updated_at := lift (updated_at_of row) in
  run (match updated_at with
       | Some u =>
           if (instant start <=? instant u)%Z
           then (let* record := lift (transform_contact row) in
                 write_record tap_stream_id record)
           else ret tt
       | None =>
           let* record := lift (transform_contact row) in
           write_record tap_stream_id record
       end) in
  ret (match updated_at with
       | Some u => if (instant max_updated_at <? instant u)%Z then u else max_updated_at
       | None => max_updated_at
       end).

(** [singer.write_schema(stream_name, schema, key_properties)]: a string
    stands for the list that holds it, and what is neither a string nor a
    list is refused before anything is written. *)
Definition write_schema (stream_name : string) (schema key_properties : json)
  : M unit :=
  match key_properties with
  | JStr key => emit (SchemaMessage stream_name schema (JArr [JStr key]))
  | JArr keys => emit (SchemaMessage stream_name schema (JArr keys))
  | _ => raise (Exception "key_properties must be a string or list of strings")
  end.

Definition sync_contacts (fuel : nat) (STATE : State) (stream : stream) : M State :=
  let tap_stream_id := tap_stream_id stream in
  run write_schema tap_stream_id (schema stream) (key_properties stream) in
  let* start := lift (strptime_with_tz (get_start STATE tap_stream_id "updated_at")) in
  let* since := lift (strftime start) in
  let* url := lift (get_url tap_stream_id []) in
  let* max_updated_at :=
    gen_request fuel url ∅ (sync_contacts_row tap_stream_id start) start in
  let* bookmark := lift (strftime max_updated_at) in
  let STATE := write_bookmark STATE tap_stream_id "updated_at" (JStr bookmark) in
  run emit (StateMessage STATE) in
  ret STATE.

Definition sync_lists (fuel : nat) (stream : stream) : M unit :=
  run emit (SchemaMessage "lists" (schema stream) (JArr [JStr "list_id"])) in
  let* url := lift (get_url "lists" []) in
  gen_request fuel url ∅ (fun row _ => write_record "lists" row) tt.

Definition sync_smart_segments (fuel : nat) (stream : stream) : M unit :=
  run emit (SchemaMessage "smart_segments" (schema stream) (JArr [JStr "segment_id"])) in
  let* url := lift (get_url "smart_segments" []) in
  gen_request fuel url ∅ (fun row _ => write_record "smart_segments" row) tt.

Definition sync_smart_segment_contacts (fuel : nat) (stream : stream) : M unit :=
  run emit (SchemaMessage "smart_segments_contacts" (schema stream)
              (JArr [JStr "segment_id"; JStr "contact_id"])) in
  let* url := lift (get_url "smart_segments" []) in
  gen_request fuel url ∅
    (fun row _ =>
       let* segment_id := lift (py_getitem row "segment_id") in
       let* subrow_url :=
         lift (get_url "smart_segments_contacts" [("segment_id", py_str segment_id)]) in
       gen_request fuel subrow_url ∅
         (fun subrow _ =>
            let* segment_id := lift (py_getitem row "segment_id") in
            let* contact_id := lift (py_getitem subrow "contact_id") in
            write_record "smart_segments_contacts"
              (JObj [("segment_id", segment_id); ("contact_id", contact_id)]))
         tt)
    tt.

(** ** The stream dispatcher *)

(** Python's truth value of [STATE["currently_syncing"]]. *)
Definition named (current_stream : option string) : option string :=
  match current_stream with
  | Some EmptyString => None
  | other => other
  end.

Definition unknown_stream (current_stream : option string) : exn :=
  Exception ("Unknown stream " +:+ default "None" current_stream +:+ " in state").

Definition get_streams_to_sync (streams : list stream) (state : State)
  : result (list stream) :=
  let current_stream := currently_syncing state in
  let result :=
    match named current_stream with
    | Some name => dropwhile (fun x => negb (String.eqb (tap_stream_id x) name)) streams
    | None => streams
    end in
  match result with
  | [] => Err (unknown_stream current_stream)
  | _ :: _ => Ok result
  end.

Definition get_selected_streams (remaining_streams : list stream) : list stream :=
  List.filter (fun stream => selected stream) remaining_streams.

Definition sync (fuel : nat) (state : State) (stream : stream) : M State :=
  let return_val := state in
  if String.eqb (tap_stream_id stream) "contacts" then sync_contacts fuel state stream
  else if String.eqb (tap_stream_id stream) "lists"
       then run sync_lists fuel stream in ret return_val
  else if String.eqb (tap_stream_id stream) "smart_segments"
       then run sync_smart_segments fuel stream in ret return_val
  else if String.eqb (tap_stream_id stream) "smart_segments_contacts"
       then run sync_smart_segment_contacts fuel stream in ret return_val
  else ret return_val.

(** [do_sync] returns nothing; the model returns the state it leaves. *)
Definition do_sync (fuel : nat) (STATE : State) (catalog : list stream) : M State :=
  let* remaining_streams := lift (get_streams_to_sync catalog STATE) in
  let selected_streams := get_selected_streams remaining_streams in
  if length selected_streams <? 1 then ret STATE
  else
    let* STATE :=
      for_each selected_streams
        (fun stream STATE =>
           let STATE := set_currently_syncing STATE (Some (tap_stream_id stream)) in
           run emit (StateMessage STATE) in
           sync fuel STATE stream)
        STATE in
    let STATE := set_currently_syncing STATE None in
    run emit (StateMessage STATE) in
    ret STATE.

End Tap.

(** ** A reference environment

    An instance of [Env] on which the model can be run: datetimes are UTC
    instants in microseconds since the epoch, written and read in the format
    [%Y-%m-%dT%H:%M:%S.%fZ] of [singer.utils.strftime]. *)

Module Iso8601.

Local Open Scope Z_scope.

(** The civil date of a day number (days since 1970-01-01). *)
Definition civil_from_days (days : Z) : Z * Z * Z :=
  let z := days + 719468 in
  let era := z / 146097 in
  let doe := z mod 146097 in
  let yoe := (doe - doe / 1460 + doe / 36524 - doe / 146096) / 365 in
  let doy := doe - (365 * yoe + yoe / 4 - yoe / 100) in
  let mp := (5 * doy + 2) / 153 in
  let d := doy - (153 * mp + 2) / 5 + 1 in
  let m := if mp <? 10 then mp + 3 else mp - 9 in
  let y := yoe + era * 400 + (if m <=? 2 then 1 else 0) in
  (y, m, d).

Definition days_from_civil (y m d : Z) : Z :=
  let y := y - (if m <=? 2 then 1 else 0) in
  let era := y / 400 in
  let yoe := y mod 400 in
  let doy := (153 * (if 2 <? m then m - 3 else m + 9) + 2) / 5 + d - 1 in
  let doe := yoe * 365 + yoe / 4 - yoe / 100 + doy in
  era * 146097 + doe - 719468.

Definition digit (n : Z) : ascii := ascii_of_nat (48 + Z.to_nat (n mod 10)).

(** [n] in [width] decimal digits, zero-padded. *)
Fixpoint digits (width : nat) (n : Z) (tail : string) : string :=
  match width with
  | O => tail
  | S width' => digits width' (n / 10) (String (digit n) tail)
  end.

Definition format (micros : Z) : string :=
  let days := micros / 86400000000 in
  let rest := micros mod 86400000000 in
  let '(y, m, d) := civil_from_days days in
  let secs := rest / 1000000 in
  digits 4 y (String "-" (digits 2 m (String "-" (digits 2 d (String "T"
    (digits 2 (secs / 3600) (String ":" (digits 2 (secs / 60 mod 60) (String ":"
      (digits 2 (secs mod 60) (String "."
        (digits 6 (rest mod 1000000) (String "Z" EmptyString))))))))))))).

(** The number written by the first [width] characters of [s], and the rest. *)
Fixpoint number (width : nat) (acc : Z) (s : string) : option (Z * string) :=
  match width with
  | O => Some (acc, s)
  | S width' =>
      match s with
      | String a s' =>
          let n := nat_of_ascii a in
          if ((48 <=? n) && (n <=? 57))%nat
          then number width' (10 * acc + Z.of_nat (n - 48)) s'
          else None
      | EmptyString => None
      end
  end.

Definition sep (a : ascii) (s : string) : option string :=
  match s with
  | String b s' => if Ascii.eqb a b then Some s' else None
  | EmptyString => None
  end.

Definition parse (s : string) : option Z :=
  '(y, s) ← number 4 0 s; s ← sep "-" s;
  '(m, s) ← number 2 0 s; s ← sep "-" s;
  '(d, s) ← number 2 0 s; s ← sep "T" s;
  '(hh, s) ← number 2 0 s; s ← sep ":" s;
  '(mm, s) ← number 2 0 s; s ← sep ":" s;
  '(ss, s) ← number 2 0 s; s ← sep "." s;
  '(us, s) ← number 6 0 s; s ← sep "Z" s;
  match s with
  | EmptyString =>
      Some ((days_from_civil y m d * 86400 + hh * 3600 + mm * 60 + ss) * 1000000 + us)
  | String _ _ => None
  end.

End Iso8601.

(** The alphanumeric characters up to U+024F (Latin-1 Supplement, Latin
    Extended-A and Latin Extended-B); no character beyond is taken for one. *)
Module Latin.

Local Open Scope N_scope.

Definition isalnum (n : N) : bool :=
  ((48 <=? n) && (n <=? 57)) || ((65 <=? n) && (n <=? 90)) ||
  ((97 <=? n) && (n <=? 122)) ||
  (n =? 170) || (n =? 178) || (n =? 179) || (n =? 181) || (n =? 185) ||
  (n =? 186) || ((188 <=? n) && (n <=? 190)) ||
  ((192 <=? n) && (n <=? 214)) || ((216 <=? n) && (n <=? 246)) ||
  ((248 <=? n) && (n <=? 591)).

End Latin.

Definition reference_env (srv : nat -> http_result) (cfg : config) : Env := {|
  server := srv;
  CONFIG := cfg;
  datetime := Z;
  instant := fun d => d;
  _transform_datetime := fun value =>
    match value with
    | JNull | JStr EmptyString => Ok JNull
    | JNum ms => Ok (JStr (Iso8601.format (1000 * ms)))
    | _ => Err TypeError
    end;
  strptime_with_tz := fun text =>
    match text with
    | JStr s =>
        match Iso8601.parse s with
        | Some d => Ok d
        | None => Err (ValueError "Unknown string format")
        end
    | _ => Err TypeError
    end;
  strftime := fun d => Ok (Iso8601.format d);
  py_str := fun value => match value with JStr s => s | _ => "None" end;
  isalnum := Latin.isalnum
|}.

(** The server that answers the [n]-th GET with status 200 and the [n]-th
    page of [pages], and fails to connect after the last. *)
Definition replay (pages : list json) : nat -> http_result :=
  fun n =>
    match pages !! n with
    | Some page => Reply {| status_code := 200; payload := Some page |}
    | None => ConnectionFailed
    end.

(** The state of a run that has not started. *)
Definition s0 : st := {| calls := []; gets := []; pauses := []; out := [] |}.

(** ** Sample data *)

Module Sample.

Definition config0 : config :=
  {| api_key := JStr "secret";
     start_date := JStr "2020-09-13T12:26:40.000000Z";
     user_agent := JNull |}.

Definition state0 : State := {| bookmarks := ∅; currently_syncing := None |}.

Definition contacts : stream :=
  {| tap_stream_id := "contacts"; schema := JObj [];
     key_properties := JArr [JStr "contact_id"]; selected := true |}.

Definition lists : stream :=
  {| tap_stream_id := "lists"; schema := JObj [];
     key_properties := JArr [JStr "list_id"]; selected := true |}.

Definition contacts_url : string := "https://api2.autopilothq.com/v1/contacts".

(** A URL whose last segment is not ASCII. *)
Definition summer_url : string := "https://api2.autopilothq.com/v1/lists/été".
Definition lists_url : string := "https://api2.autopilothq.com/v1/lists".

(** A contact updated at [ms] Unix milliseconds. *)
Definition contact (ms : Z) : json :=
  JObj [("contact_id", JStr "person_1"); ("updated_at", JNum ms)].

(** The watermark of [config0] is 1600000000000 ms; four contacts updated
    1 ms before it, at it, 5 ms and 2 ms after it. *)
Definition four_contacts : list json :=
  [contact 1599999999999; contact 1600000000000;
   contact 1600000000005; contact 1600000000002].

Definition four_updated : list Z :=
  [1599999999999000; 1600000000000000; 1600000000005000; 1600000000002000]%Z.

Definition contacts_page (rows : list json) (bookmark : option string) : json :=
  JObj (("contacts", JArr rows) ::
        match bookmark with
        | Some token => [("bookmark", JStr token)]
        | None => []
        end).

Definition full_rows : list json := repeat (contact 1600000000000) 100.

Definition short_rows : list json := [contact 1600000000001; contact 1600000000002].

(** A full page with a token, a full page without one, a short page with
    one. *)
Definition three_pages : list json :=
  [contacts_page full_rows (Some "person_100");
   contacts_page full_rows None;
   contacts_page short_rows (Some "person_202")].

Definition lists_page : json :=
  JObj [("lists", JArr (repeat (JObj [("list_id", JStr "contactlist_1")]) 100))].

(** An API that answers every GET with the same hundred lists. *)
Definition endless : Env :=
  reference_env (fun _ => Reply {| status_code := 200; payload := Some lists_page |})
                config0.

(** An API that fails to connect, then is unavailable, then times out, then
    does not find the resource. *)
Definition failing : Env :=
  reference_env
    (fun n =>
       match n with
       | 0 => ConnectionFailed
       | 1 => Reply {| status_code := 503; payload := None |}
       | 2 => Reply {| status_code := 408; payload := None |}
       | _ => Reply {| status_code := 404; payload := None |}
       end)
    config0.

(** An API that serves [three_pages], and one that serves the four contacts
    in a single page. *)
Definition paging : Env := reference_env (replay three_pages) config0.

Definition incremental : Env :=
  reference_env (replay [contacts_page four_contacts None]) config0.

(** An API with two lists, and a state that holds a contacts bookmark. *)
Definition listing : Env :=
  reference_env
    (replay [JObj [("lists", JArr [JObj [("list_id", JStr "contactlist_1")];
                                   JObj [("list_id", JStr "contactlist_2")]])]])
    config0.

Definition state1 : State :=
  write_bookmark state0 "contacts" "updated_at" (JStr "2020-09-13T12:26:40.005000Z").

(** A state whose contacts bookmark lies between the updates of
    [four_contacts]. *)
Definition state2 : State :=
  write_bookmark state0 "contacts" "updated_at" (JStr "2020-09-13T12:26:40.002000Z").

Definition smart_segments : stream :=
  {| tap_stream_id := "smart_segments"; schema := JObj [];
     key_properties := JArr [JStr "segment_id"]; selected := true |}.

Definition smart_segments_contacts : stream :=
  {| tap_stream_id := "smart_segments_contacts"; schema := JObj [];
     key_properties := JArr [JStr "segment_id"; JStr "contact_id"]; selected := true |}.

Definition catalog : list stream :=
  [contacts; lists; smart_segments; smart_segments_contacts].

(** A state left by a sync that was interrupted in the lists. *)
Definition interrupted : State :=
  {| bookmarks := ∅; currently_syncing := Some "lists" |}.

(** A contact with a page-visit map, a mail-event map and a plain property. *)
Definition visited : list (string * json) :=
  [("Email", JStr "a@x.com");
   ("anywhere_page_visits", JObj [("http://x.com", JBool true)]);
   ("mail_opened", JObj [("msg1", JNum 1600000000000)])].

(** An API that cannot be reached. *)
Definition unreachable : Env := reference_env (replay []) config0.

Definition two_lists : json :=
  JObj [("lists", JArr [JObj [("list_id", JStr "contactlist_1")];
                        JObj [("list_id", JStr "contactlist_2")]])].

(** An API that fails to connect once and then serves two lists. *)
Definition flaky : Env :=
  reference_env
    (fun n =>
       match n with
       | 0 => ConnectionFailed
       | _ => Reply {| status_code := 200; payload := Some two_lists |}
       end)
    config0.

(** An API that serves a hundred lists and then does not find the resource. *)
Definition breaking : Env :=
  reference_env
    (fun n =>
       match n with
       | 0 => Reply {| status_code := 200; payload := Some lists_page |}
       | _ => Reply {| status_code := 404; payload := None |}
       end)
    config0.

(** Two smart segments, the two contacts of the first and the contact of the
    second. *)
Definition segment (segment_id : string) : json :=
  JObj [("segment_id", JStr segment_id); ("title", JStr "Segment")].

Definition member (contact_id : string) : json :=
  JObj [("contact_id", JStr contact_id); ("Email", JStr "a@x.com")].

Definition segments_page : json :=
  JObj [("segments", JArr [segment "contactlist_a"; segment "contactlist_b"])].

Definition members_a : json :=
  JObj [("contacts", JArr [member "person_1"; member "person_2"])].

Definition members_b : json := JObj [("contacts", JArr [member "person_3"])].

Definition memberships : Env :=
  reference_env (replay [segments_page; members_a; members_b]) config0.

(** A catalog entry of the lists that is not selected. *)
Definition archived : stream :=
  {| tap_stream_id := "lists"; schema := JObj [];
     key_properties := JArr [JStr "list_id"]; selected := false |}.

(** A run that has sent three GETs. *)
Definition s3 : st :=
  {| calls := []; gets := repeat (lists_url, []) 3; pauses := []; out := [] |}.

(** A hundred lists with a continuation token, which the API does not send
    for lists, and then two lists. *)
Definition lists_with_token : json :=
  JObj [("lists", JArr (repeat (JObj [("list_id", JStr "contactlist_1")]) 100));
        ("bookmark", JStr "contactlist_100")].

Definition tokened : Env :=
  reference_env (replay [lists_with_token; two_lists]) config0.

End Sample.

(** ** Vocabulary of the statements *)

Section Vocabulary.
Context {E : Env}.

(** The [exc.response] of the [RequestException] that an attempt answered by
    [reply] raises, when it raises one: [SESSION.send] failed, or
    [raise_for_status] found a status in [400, 600). *)
Definition failure (reply : http_result) : option (option Z) :=
  match reply with
  | ConnectionFailed => Some None
  | Reply resp =>
      if ((400 <=? status_code resp) && (status_code resp <? 600))%Z
      then Some (Some (status_code resp))
      else None
  end.

(** The state after one more GET of [url]. *)
Definition sent (url : string) (s : st) : st :=
  {| calls := calls s; gets := gets s ++ [(url, headers)];
     pauses := pauses s; out := out s |}.

(** The state after [request(endpoint, params)] got its answer at the first
    attempt, a GET of [url]. *)
Definition fetched (endpoint : string) (params : gmap string json) (url : string)
    (s : st) : st :=
  {| calls := calls s ++ [(endpoint, params)]; gets := gets s ++ [(url, headers)];
     pauses := pauses s; out := out s |}.

(** [reply] is a response that passes [raise_for_status] and whose body
    decodes to [page]. *)
Definition delivers (reply : http_result) (page : json) : Prop :=
  exists status, reply = Reply {| status_code := status; payload := Some page |} /\
                 failure reply = None.

(** From the [n0]-th GET on, the API answers with [pages], in this order. *)
Definition serves (n0 : nat) (pages : list json) : Prop :=
  forall i page, pages !! i = Some page -> delivers (server (n0 + i)) page.

(** The records of a page: the array under the accessor key. *)
Definition page_rows (source_key : string) (page : json) : option (list json) :=
  match page with
  | JObj data =>
      match dict_get source_key data with
      | Some (JArr rows) => Some rows
      | _ => None
      end
  | _ => None
  end.

(** The continuation token of a page. *)
Definition page_bookmark (page : json) : option json :=
  match page with
  | JObj data => dict_get "bookmark" data
  | _ => None
  end.

Definition records (source_key : string) (pages : list json) : list json :=
  concat (map (fun page => match page_rows source_key page with
                           | Some rows => rows
                           | None => []
                           end) pages).

(** Continuation tokens are strings, as is a bookmark parameter given by the
    caller. *)
Definition token_ok (page : json) : Prop :=
  match page_bookmark page with
  | Some (JStr _) | None => True
  | Some _ => False
  end.

Definition params_ok (params : gmap string json) : Prop :=
  match params !! "bookmark" with
  | Some (JStr _) | None => True
  | Some _ => False
  end.

(** A sequence of pages that ends the pagination exactly at its last page:
    every page but the last holds [PER_PAGE] records or more, the last holds
    fewer; [rows] is the concatenation of their records. *)
Inductive paged (source_key : string) : list json -> list json -> Prop :=
| paged_last page rows :
    page_rows source_key page = Some rows ->
    length rows < PER_PAGE ->
    paged source_key [page] rows
| paged_more page rows pages rest :
    page_rows source_key page = Some rows ->
    PER_PAGE <= length rows ->
    paged source_key pages rest ->
    paged source_key (page :: pages) (rows ++ rest).

(** The parameters that the loop of [gen_request] holds after a page. *)
Definition next_params (source : string) (page : json) (params : gmap string json)
  : gmap string json :=
  if contains "contact" source then
    match page_bookmark page with
    | Some bookmark => <["bookmark" := bookmark]> params
    | None => ∅
    end
  else params.

(** The parameters of the successive fetches of a paged run. *)
Fixpoint params_trace (source : string) (params : gmap string json)
    (pages : list json) : list (gmap string json) :=
  match pages with
  | [] => []
  | page :: pages' => params :: params_trace source (next_params source page params) pages'
  end.

Definition url_for (endpoint : string) (params : gmap string json) : string :=
  match request_url endpoint params with
  | Ok url => url
  | Err _ => endpoint
  end.

(** Whether the loop of [sync_contacts] writes a record whose [updated_at]
    is [updated_at], and the [max_updated_at] it keeps. *)
Definition emits (start : datetime) (updated_at : option datetime) : bool :=
  match updated_at with
  | Some u => (instant start <=? instant u)%Z
  | None => true
  end.

Definition newer (max_updated_at : datetime) (updated_at : option datetime)
  : datetime :=
  match updated_at with
  | Some u => if (instant max_updated_at <? instant u)%Z then u else max_updated_at
  | None => max_updated_at
  end.

(** The rows that are written, given the [updated_at] of each row. *)
Fixpoint emitted (start : datetime) (rows : list json)
    (updated : list (option datetime)) : list json :=
  match rows, updated with
  | row :: rows', updated_at :: updated' =>
      if emits start updated_at then row :: emitted start rows' updated'
      else emitted start rows' updated'
  | _, _ => []
  end.

(** The rows whose [updated_at] is not before [start]. *)
Fixpoint since (start : datetime) (rows : list json) (updated : list datetime)
  : list json :=
  match rows, updated with
  | row :: rows', u :: updated' =>
      if (instant start <=? instant u)%Z then row :: since start rows' updated'
      else since start rows' updated'
  | _, _ => []
  end.

(** The latest of [start] and the datetimes [updated], the first of them on a
    tie. *)
Definition latest (start : datetime) (updated : list datetime) : datetime :=
  fold_left (fun m u => if (instant m <? instant u)%Z then u else m) updated start.

(** The greatest instant among [start] and [updated]. *)
Definition max_instant (start : datetime) (updated : list datetime) : Z :=
  fold_right Z.max (instant start) (map instant updated).

(** The items that [transform_contact] makes of the entry [key] of a
    boolean-keyed and of a timestamp-keyed sub-object [sub]. *)
Definition url_value (sub : list (string * json)) (key : string) (item : json) : Prop :=
  exists value,
    dict_get key sub = Some value /\
    item = JObj [("url", JStr key); ("value", value)].

Definition id_timestamp (sub : list (string * json)) (key : string) (item : json)
  : Prop :=
  exists value timestamp,
    dict_get key sub = Some value /\
    _transform_datetime value = Ok timestamp /\
    item = JObj [("id", JStr key); ("timestamp", timestamp)].

(** [s] with the messages of [t]. *)
Definition with_out (s t : st) : st :=
  {| calls := calls s; gets := gets s; pauses := pauses s; out := out t |}.

(** A computation that only reads and writes the messages. *)
Definition framed {A} (m : M A) : Prop :=
  forall s n, m (with_out n s) = (fst (m s), with_out n (snd (m s))).

(** A string without a newline. *)
Fixpoint no_newline (s : string) : bool :=
  match s with
  | EmptyString => true
  | String a s' => negb (Ascii.eqb a newline) && no_newline s'
  end.

(** A string all of whose characters are word characters. *)
Definition all_word (s : string) : bool := forallb is_word (characters s).

(** An ASCII letter, digit or underscore, and a string of such. *)
Definition plain (a : ascii) : bool :=
  (let n := byte a in
   ((48 <=? n) && (n <=? 57)) || ((65 <=? n) && (n <=? 90)) ||
   ((97 <=? n) && (n <=? 122)) || (n =? 95))%N.

Fixpoint plain_word (s : string) : bool :=
  match s with
  | EmptyString => true
  | String a s' => plain a && plain_word s'
  end.

(** Two states that differ in the calls only. *)
Definition same_wire (s1 s2 : st) : Prop :=
  gets s1 = gets s2 /\ pauses s1 = pauses s2 /\ out s1 = out s2.

(** A sequence of pages none of which ends the pagination: each holds
    [PER_PAGE] records or more; [rows] is the concatenation of their
    records. *)
Inductive full_pages (source_key : string) : list json -> list json -> Prop :=
| full_pages_nil : full_pages source_key [] []
| full_pages_cons page rows pages rest :
    page_rows source_key page = Some rows ->
    PER_PAGE <= length rows ->
    full_pages source_key pages rest ->
    full_pages source_key (page :: pages) (rows ++ rest).

(** The state after [messages] were written. *)
Definition wrote (messages : list message) (s : st) : st :=
  {| calls := calls s; gets := gets s; pauses := pauses s;
     out := out s ++ messages |}.

(** The record that [sync_smart_segment_contacts] writes for a contact of a
    segment. *)
Definition membership (segment_id contact_id : json) : message :=
  RecordMessage "smart_segments_contacts"
    (JObj [("segment_id", segment_id); ("contact_id", contact_id)]).

(** From the [n]-th GET on, the API serves, segment after segment, the pages
    of the contacts of the segments [rows], each sequence ending at its first
    short page and fitting in [fuel] rounds; [records] are the memberships
    of these contacts, and [requests] the requests that fetch the pages: for
    each segment, at the URL of the contacts of that segment, with the
    parameters that the tokens of its pages give. *)
Inductive segments_served (fuel : nat) :
  nat -> list json -> list message -> list (string * gmap string json) -> Prop :=
| segments_served_nil n : segments_served fuel n [] [] []
| segments_served_cons n row segment_id pages subrows contact_ids rows records requests :
    py_getitem row "segment_id" = Ok segment_id ->
    no_newline (py_str segment_id) = true ->
    paged "contacts" pages subrows ->
    Forall token_ok pages ->
    serves n pages ->
    length pages <= fuel ->
    Forall2 (fun subrow contact_id => py_getitem subrow "contact_id" = Ok contact_id)
            subrows contact_ids ->
    segments_served fuel (n + length pages) rows records requests ->
    segments_served fuel n (row :: rows)
      (map (membership segment_id) contact_ids ++ records)
      (map (pair (BASE_URL +:+ "/smart_segments/" +:+ py_str segment_id +:+ "/contacts"))
           (params_trace "smart_segments_contacts" ∅ pages) ++ requests).

(** The GET that a request sends when its first attempt succeeds. *)
Definition get_of (request : string * gmap string json)
  : string * list (string * json) :=
  (url_for (fst request) (snd request), headers).

(** A computation that, however it ends, only adds messages that satisfy [Q]
    to those written. *)
Definition writes {A} (Q : message -> Prop) (m : M A) : Prop :=
  forall s o s', m s = (o, s') ->
    exists added, out s' = out s ++ added /\ Forall Q added.

(** A STATE message carries the marker [current]; other messages are free. *)
Definition marked (current : option string) (m : message) : Prop :=
  match m with
  | StateMessage value => currently_syncing value = current
  | _ => True
  end.

Definition no_state (m : message) : Prop :=
  match m with
  | StateMessage _ => False
  | _ => True
  end.

(** The state a target has received last. *)
Fixpoint last_state (messages : list message) : option State :=
  match messages with
  | [] => None
  | m :: rest =>
      match last_state rest, m with
      | Some value, _ => Some value
      | None, StateMessage value => Some value
      | None, _ => None
      end
  end.

(** The bookmarks of [STATE'] are those of [STATE], but for [updated_at] of
    the contacts. *)
Definition same_bookmarks_but_contacts (STATE STATE' : State) : Prop :=
  forall tap_stream_id key,
    tap_stream_id <> "contacts" \/ key <> "updated_at" ->
    get_bookmark STATE' tap_stream_id key = get_bookmark STATE tap_stream_id key.

(** A STATE message carries the marker of one of the [streams]. *)
Definition marked_among (streams : list stream) (m : message) : Prop :=
  match m with
  | StateMessage value =>
      exists stream,
        In stream streams /\ currently_syncing value = Some (tap_stream_id stream)
  | _ => True
  end.

(** A RECORD message of the stream [name]. *)
Definition record_of (name : string) (m : message) : Prop :=
  match m with
  | RecordMessage stream_name _ => stream_name = name
  | _ => False
  end.

(** A JSON value that is [null], a boolean or a number. *)
Definition scalar (value : json) : bool :=
  match value with
  | JNull | JBool _ | JNum _ => true
  | _ => false
  end.

(** The key properties that a SCHEMA message carries: those that
    [write_schema] is given, a string standing for the list that holds it;
    [None] when [write_schema] refuses what it is given. *)
Definition schema_keys (key_properties : json) : option json :=
  match key_properties with
  | JStr key => Some (JArr [JStr key])
  | JArr keys => Some (JArr keys)
  | _ => None
  end.

(** The syncs of [streams], run one after the other as [do_sync] runs them,
    all return: each is given the state that the one before it returned,
    marked with its own stream, after a STATE message with that state was
    written; from the state [STATE] and the run [s] they lead to [STATE'] and
    [s']. *)
Inductive completed (fuel : nat) : State -> st -> list stream -> State -> st -> Prop :=
| completed_nil STATE s : completed fuel STATE s [] STATE s
| completed_cons STATE s current streams STATE1 s1 STATE' s' :
    sync fuel (set_currently_syncing STATE (Some (tap_stream_id current))) current
      (wrote [StateMessage (set_currently_syncing STATE (Some (tap_stream_id current)))] s)
    = (Done STATE1, s1) ->
    completed fuel STATE1 s1 streams STATE' s' ->
    completed fuel STATE s (current :: streams) STATE' s'.

End Vocabulary.

(** * Properties *)

Section Fetcher.
Context {E : Env}.

Lemma request_once_eq url params u source s :
  request_url url params = Ok u ->
  parse_source_from_url u = Ok source ->
  request_once url params s =
    (match failure (server (length (gets s))) with
     | Some response => Raise (RequestException response)
     | None => match server (length (gets s)) with
               | Reply resp => Done resp
               | ConnectionFailed => Raise (RequestException None)
               end
     end, sent u s).
Proof.
  intros Hu Hsrc. unfold request_once, bind, lift. rewrite Hu. cbn.
  rewrite Hsrc. cbn. unfold failure, sent.
  destruct (server (length (gets s))) as [|resp]; [reflexivity|].
  destruct ((400 <=? status_code resp)%Z && (status_code resp <? 600)%Z); reflexivity.
Qed.

Lemma on_exception_request url params u source tries n s :
  request_url url params = Ok u ->
  parse_source_from_url u = Ok source ->
  1 <= tries ->
  exists k o s',
    on_exception tries n client_error 2 (request_once url params) s = (o, s') /\
    1 <= k <= tries /\
    calls s' = calls s /\ out s' = out s /\
    gets s' = gets s ++ repeat (u, headers) k /\
    pauses s' = pauses s ++ map (expo 2) (seq n (k - 1)) /\
    (forall i, i < k - 1 ->
       exists response, failure (server (length (gets s) + i)) = Some response /\
                        client_error response = false) /\
    match failure (server (length (gets s) + (k - 1))) with
    | Some response =>
        o = Raise (RequestException response) /\
        (client_error response = true \/ k = tries)
    | None => exists resp, server (length (gets s) + (k - 1)) = Reply resp /\ o = Done resp
    end.
Proof.
  intros Hu Hsrc. revert n s.
  induction tries as [|tries IH]; intros n s Htries; [lia|].
  cbn [on_exception]. rewrite (request_once_eq _ _ _ _ _ Hu Hsrc).
  destruct (failure (server (length (gets s)))) as [response|] eqn:Hfail.
  - destruct tries as [|tries'].
    + exists 1, (Raise (RequestException response)), (sent u s).
      cbn. rewrite Nat.add_0_r, Hfail, app_nil_r.
      repeat split; auto; try lia; try (intros; lia).
    + destruct (client_error response) eqn:Hce.
      * exists 1, (Raise (RequestException response)), (sent u s).
        cbn. rewrite Nat.add_0_r, Hfail, app_nil_r.
        repeat split; auto; try lia; try (intros; lia).
      * unfold bind at 1. cbn [sleep].
        set (s1 := {| calls := calls (sent u s); gets := gets (sent u s);
                      pauses := pauses (sent u s) ++ [expo 2 n]; out := out (sent u s) |}).
        destruct (IH (S n) s1) as (k & o & s' & Hrun & Hk & Hc & Ho & Hg & Hp & Hbefore & Hlast);
          [lia|].
        exists (S k), o, s'. split; [exact Hrun|].
        assert (Hlen : length (gets s1) = S (length (gets s))).
        { subst s1. cbn. rewrite length_app. cbn. lia. }
        rewrite Hlen in Hbefore, Hlast.
        split; [lia|]. split; [rewrite Hc; reflexivity|].
        split; [rewrite Ho; reflexivity|].
        split.
        { rewrite Hg. subst s1. cbn [gets sent repeat]. rewrite <- app_assoc.
          reflexivity. }
        split.
        { rewrite Hp. replace (S k - 1) with (S (k - 1)) by lia.
          cbn [seq map]. subst s1. cbn [pauses sent]. rewrite <- app_assoc.
          reflexivity. }
        split.
        { intros i Hi. destruct i as [|i].
          - rewrite Nat.add_0_r. eauto.
          - replace (length (gets s) + S i) with (S (length (gets s)) + i) by lia.
            apply Hbefore. lia. }
        replace (length (gets s) + (S k - 1)) with (S (length (gets s)) + (k - 1)) by lia.
        destruct (failure (server (S (length (gets s)) + (k - 1)))); [|exact Hlast].
        destruct Hlast as [? [?|?]]; split; auto; right; lia.
  - exists 1. unfold failure in Hfail.
    destruct (server (length (gets s))) as [|resp] eqn:Hsrv; [discriminate|].
    exists (Done resp), (sent u s). cbn. rewrite Nat.add_0_r, Hsrv, app_nil_r.
    unfold failure.
    destruct ((400 <=? status_code resp)%Z && (status_code resp <? 600)%Z); [discriminate|].
    repeat split; eauto; try lia; try (intros; lia).
Qed.

Lemma on_exception_passes {A} tries n giveup factor (target : M A) s o s' :
  target s = (o, s') ->
  (forall response, o <> Raise (RequestException response)) ->
  on_exception tries n giveup factor target s = (o, s').
Proof.
  intros Hrun Hne.
  destruct tries; cbn [on_exception]; rewrite Hrun;
    destruct o as [a|[]|]; try reflexivity; exfalso; eapply Hne; reflexivity.
Qed.

Lemma parse_source_err u e :
  parse_source_from_url u = Err e -> exists msg, e = ValueError msg.
Proof.
  unfold parse_source_from_url.
  destruct (url_regex_match u) as [[group0 group1]|].
  - destruct (String.eqb group1 "contacts" && contains "segment" group0); discriminate.
  - intros [= <-]. eauto.
Qed.

Lemma request_url_err url params e :
  request_url url params = Err e -> e = TypeError.
Proof.
  unfold request_url.
  destruct (params !! "bookmark") as [[| | | | |]|]; congruence.
Qed.

(** An attempt that cannot name its URL or its source raises before any GET,
    and not a [RequestException]. *)
Lemma request_once_aborts url params s :
  (exists e, request_url url params = Err e) \/
  (exists u e, request_url url params = Ok u /\ parse_source_from_url u = Err e) ->
  exists e, request_once url params s = (Raise e, s) /\
            (forall response, e <> RequestException response).
Proof.
  unfold request_once, bind.
  intros [(e & Hu) | (u & e & Hu & Hsrc)]; rewrite Hu; cbn [lift ret raise].
  - apply request_url_err in Hu as ->. exists TypeError.
    split; [reflexivity | intros r; discriminate].
  - rewrite Hsrc. cbn [lift raise]. apply parse_source_err in Hsrc as [msg ->].
    eexists. split; [reflexivity | intros r; discriminate].
Qed.

End Fetcher.

Section Urls.
Context {E : Env}.

Lemma append_cons a s x : String a s +:+ x = String a (s +:+ x).
Proof. reflexivity. Qed.

Lemma append_append (s t u : string) : (s +:+ t) +:+ u = s +:+ (t +:+ u).
Proof.
  induction s as [|a s IH]; [reflexivity|]. rewrite !append_cons, IH. reflexivity.
Qed.

(** The characters of a string that starts with a character. *)
Lemma characters_character c r :
  character c = true -> characters (c +:+ r) = c :: characters r.
Proof.
  destruct c as [|a [|b [|c [|d [|e c']]]]]; try discriminate; cbn [character].
  - intros Hw. apply Nat.eqb_eq in Hw. change (String a "" +:+ r) with (String a r).
    destruct r as [|b [|c [|d r]]]; cbn [characters]; rewrite ?Hw; reflexivity.
  - intros Hw. change (String a (String b "") +:+ r) with (String a (String b r)).
    cbn [characters]. rewrite Hw. reflexivity.
  - intros Hw. apply andb_true_iff in Hw as [Hw Hc].
    apply andb_true_iff in Hw as [Hw Hb]. apply Nat.eqb_eq in Hw.
    change (String a (String b (String c "")) +:+ r)
      with (String a (String b (String c r))).
    cbn [characters]. rewrite Hw, Hb, Hc. reflexivity.
  - intros Hw. apply andb_true_iff in Hw as [Hw Hd].
    apply andb_true_iff in Hw as [Hw Hc].
    apply andb_true_iff in Hw as [Hw Hb]. apply Nat.eqb_eq in Hw.
    change (String a (String b (String c (String d ""))) +:+ r)
      with (String a (String b (String c (String d r)))).
    cbn [characters]. rewrite Hw, Hb, Hc, Hd. reflexivity.
Qed.

(** The first of the characters of a string is a prefix of the string. *)
Lemma characters_head s c l :
  characters s = c :: l -> exists r, s = c +:+ r /\ l = characters r.
Proof.
  destruct s as [|a [|b [|c0 [|d s]]]]; cbn [characters]; [discriminate| | | |].
  - intros [= <- <-]. exists EmptyString. split; reflexivity.
  - destruct ((width a =? 2) && continuation b);
      intros [= <- <-]; eexists; split; reflexivity.
  - destruct ((width a =? 2) && continuation b);
      [intros [= <- <-]; eexists; split; reflexivity|].
    destruct ((width a =? 3) && continuation b && continuation c0);
      intros [= <- <-]; eexists; split; reflexivity.
  - destruct ((width a =? 2) && continuation b);
      [intros [= <- <-]; eexists; split; reflexivity|].
    destruct ((width a =? 3) && continuation b && continuation c0);
      [intros [= <- <-]; eexists; split; reflexivity|].
    destruct ((width a =? 4) && continuation b && continuation c0 && continuation d);
      intros [= <- <-]; eexists; split; reflexivity.
Qed.

Lemma is_word_character c : is_word c = true -> character c = true.
Proof. unfold is_word. intros H. apply andb_true_iff in H. tauto. Qed.

(** A run of word characters at the head of a string stays one, however the
    string goes on. *)
Lemma take_word_append s x :
  take_word s <> EmptyString -> take_word (s +:+ x) <> EmptyString.
Proof.
  unfold take_word. destruct (characters s) as [|c l] eqn:Hc; [cbn; congruence|].
  cbn [word_run]. destruct (is_word c) eqn:Hw; [|congruence]. intros _.
  destruct (characters_head _ _ _ Hc) as (r & -> & _).
  rewrite append_append, (characters_character _ _ (is_word_character _ Hw)).
  cbn [word_run]. rewrite Hw.
  destruct c as [|a c]; [discriminate | discriminate].
Qed.

Lemma match_literal_append pat s rest x :
  match_literal pat s = Some rest ->
  match_literal pat (s +:+ x) = Some (rest +:+ x).
Proof.
  revert s. induction pat as [|p pat IH]; intros s; cbn [match_literal].
  - intros [= ->]. reflexivity.
  - destruct s as [|a s]; [discriminate|]. rewrite append_cons.
    destruct (Ascii.eqb p "."); [destruct (Ascii.eqb a newline); [discriminate|]|
                                 destruct (Ascii.eqb p a); [|discriminate]];
      apply IH.
Qed.

Lemma match_tail_append s x r :
  match_tail s = Some r -> exists r', match_tail (s +:+ x) = Some r'.
Proof.
  revert r. induction s as [|a s IH]; intros r; cbn [match_tail]; [discriminate|].
  rewrite append_cons. cbn [match_tail].
  destruct (Ascii.eqb a newline); [discriminate|].
  destruct (match_tail s) as [[n g]|].
  - intros _. destruct (IH _ eq_refl) as [[n' g'] ->]. eauto.
  - destruct (match_tail (s +:+ x)) as [[n' g']|]; [eauto|].
    destruct (Ascii.eqb a "/"); [|discriminate].
    cbn zeta. pose proof (take_word_append s x) as Hw.
    destruct (take_word s); [discriminate|]. intros _.
    destruct (take_word (s +:+ x)); [destruct Hw; [discriminate | reflexivity] | eauto].
Qed.

(** A URL of a known source is still one with a path segment appended. *)
Lemma parse_source_append url x source :
  parse_source_from_url url = Ok source ->
  exists source', parse_source_from_url (url +:+ x) = Ok source'.
Proof.
  unfold parse_source_from_url, url_regex_match.
  destruct (match_literal BASE_URL url) as [rest|] eqn:Hlit; [|discriminate].
  rewrite (match_literal_append _ _ _ x Hlit).
  destruct (match_tail rest) as [[n g]|] eqn:Htail; [|discriminate].
  destruct (match_tail_append _ x _ Htail) as [[n' g'] ->]. intros _.
  match goal with |- context [if ?c then _ else _] => destruct c end; eauto.
Qed.

End Urls.

Section Pagination.
Context {E : Env}.

Lemma params_ok_fetchable endpoint source params :
  parse_source_from_url endpoint = Ok source ->
  params_ok params ->
  exists source', parse_source_from_url (url_for endpoint params) = Ok source' /\
                  request_url endpoint params = Ok (url_for endpoint params).
Proof.
  intros Hsrc Hok. unfold params_ok in Hok. unfold url_for, request_url.
  destruct (params !! "bookmark") as [[| | |token| |]|]; try contradiction.
  - destruct (parse_source_append endpoint ("/" +:+ token) _ Hsrc) as [source' H].
    eauto.
  - eauto.
Qed.

Lemma next_params_ok source page params :
  token_ok page -> params_ok params -> params_ok (next_params source page params).
Proof.
  unfold token_ok, params_ok, next_params. intros Htok Hok.
  destruct (contains "contact" source); [|exact Hok].
  destruct (page_bookmark page) as [[| | |token| |]|]; try contradiction.
  - rewrite lookup_insert_eq. exact I.
  - rewrite lookup_empty. exact I.
Qed.

Lemma request_first_try endpoint params u source resp s :
  request_url endpoint params = Ok u ->
  parse_source_from_url u = Ok source ->
  server (length (gets s)) = Reply resp ->
  failure (Reply resp) = None ->
  request endpoint params s = (Done resp, fetched endpoint params u s).
Proof.
  intros Hu Hsrc Hsrv Hfail. unfold request, bind. cbn [log_call].
  cbn [on_exception]. rewrite (request_once_eq _ _ _ _ _ Hu Hsrc).
  cbn [gets]. rewrite Hsrv, Hfail. reflexivity.
Qed.

(** One round of the loop on a page that arrives at the first attempt. *)
Lemma gen_request_loop_page {A} fuel endpoint source params (body : json -> A -> M A)
    acc s source0 page rows :
  parse_source_from_url endpoint = Ok source0 ->
  params_ok params ->
  delivers (server (length (gets s))) page ->
  page_rows (parse_key_from_source source) page = Some rows ->
  gen_request_loop (S fuel) endpoint source (parse_key_from_source source) params body acc s
  = bind (for_each rows body acc)
      (fun acc' =>
         if length rows <? PER_PAGE then ret acc'
         else gen_request_loop fuel endpoint source (parse_key_from_source source)
                (next_params source page params) body acc')
      (fetched endpoint params (url_for endpoint params) s).
Proof.
  intros Hsrc Hok (status & Hsrv & Hfail) Hrows.
  destruct (params_ok_fetchable _ _ _ Hsrc Hok) as (source' & Hparse & Hurl).
  rewrite Hsrv in Hfail.
  cbn [gen_request_loop]. unfold bind at 1.
  rewrite (request_first_try _ _ _ _ _ _ Hurl Hparse Hsrv Hfail).
  unfold page_rows in Hrows. destruct page as [| | | | |data]; try discriminate.
  destruct (dict_get (parse_key_from_source source) data) as [[| | | |items|]|] eqn:Hget;
    try discriminate.
  injection Hrows as ->.
  unfold bind at 1. cbn [resp_json payload lift ret].
  unfold next_params, page_bookmark.
  destruct (contains "contact" source).
  - unfold bind at 1. unfold bind at 1. cbn [py_contains lift ret]. unfold dict_mem.
    destruct (dict_get "bookmark" data) as [bookmark|] eqn:Hb.
    + unfold bind at 1. cbn [py_getitem lift]. rewrite Hb. cbn [lift ret].
      unfold bind at 1. cbn [py_getitem lift]. rewrite Hget. cbn [lift ret].
      unfold bind at 1. cbn [py_iter lift ret]. reflexivity.
    + cbn [ret]. unfold bind at 1. cbn [py_getitem lift]. rewrite Hget. cbn [lift ret].
      unfold bind at 1. cbn [py_iter lift ret]. reflexivity.
  - unfold bind at 1. cbn [ret]. unfold bind at 1. cbn [py_getitem lift].
    rewrite Hget. cbn [lift ret].
    unfold bind at 1. cbn [py_iter lift ret]. reflexivity.
Qed.

Lemma with_out_self s : with_out s s = s.
Proof. destruct s; reflexivity. Qed.

Lemma framed_ret {A} (a : A) : framed (ret a).
Proof. intros s n. reflexivity. Qed.

Lemma framed_raise {A} e : framed (@raise A e).
Proof. intros s n. reflexivity. Qed.

Lemma framed_lift {A} (r : result A) : framed (lift r).
Proof. destruct r; [apply framed_ret | apply framed_raise]. Qed.

Lemma framed_emit m : framed (emit m).
Proof. intros s n. reflexivity. Qed.

Lemma framed_bind {A B} (m : M A) (k : A -> M B) :
  framed m -> (forall a, framed (k a)) -> framed (bind m k).
Proof.
  intros Hm Hk s n. unfold bind. rewrite Hm.
  destruct (m s) as [[a|e|] s1]; cbn [fst snd]; try reflexivity.
  apply Hk.
Qed.

Lemma framed_for_each {R A} (rows : list R) (body : R -> A -> M A) acc :
  (forall row a, framed (body row a)) -> framed (for_each rows body acc).
Proof.
  intros Hbody. revert acc.
  induction rows as [|row rows IH]; intros acc; cbn [for_each].
  - apply framed_ret.
  - apply framed_bind; [apply Hbody | intros a; apply IH].
Qed.

(** A framed computation run on another state with the same messages. *)
Lemma framed_run {A} (m : M A) s o t n :
  framed m -> m s = (o, t) -> m (with_out n s) = (o, with_out n t).
Proof. intros Hm Hrun. rewrite Hm, Hrun. reflexivity. Qed.

Lemma for_each_app {R A} (rows rest : list R) (body : R -> A -> M A) acc s :
  for_each (rows ++ rest) body acc s =
  bind (for_each rows body acc) (fun a => for_each rest body a) s.
Proof.
  revert acc s. induction rows as [|row rows IH]; intros acc s; cbn [for_each app].
  - reflexivity.
  - unfold bind. destruct (body row acc s) as [[a|e|] s1]; try reflexivity.
    rewrite IH. reflexivity.
Qed.

Lemma for_each_collect (rows acc : list json) s :
  for_each rows collect acc s = (Done (acc ++ rows), s).
Proof.
  revert acc. induction rows as [|row rows IH]; intros acc; cbn [for_each].
  - rewrite app_nil_r. reflexivity.
  - unfold bind, collect, ret at 1. fold collect. rewrite IH, <- app_assoc. reflexivity.
Qed.

Lemma fetched_with_out endpoint params u s :
  fetched endpoint params u s = with_out (fetched endpoint params u s) s.
Proof. reflexivity. Qed.

Lemma serves_head n0 page pages :
  serves n0 (page :: pages) -> delivers (server n0) page.
Proof. intros H. specialize (H 0 page eq_refl). rewrite Nat.add_0_r in H. exact H. Qed.

Lemma serves_tail n0 page pages :
  serves n0 (page :: pages) -> serves (S n0) pages.
Proof.
  intros H i p Hp. specialize (H (S i) p Hp).
  replace (S n0 + i) with (n0 + S i) by lia. exact H.
Qed.

(** A paged run of the loop under a body that only writes messages: the body
    sees the concatenation of the pages, one fetch is made per page. *)
Lemma gen_request_loop_paged {A} endpoint source source0 (body : json -> A -> M A)
    pages rows :
  parse_source_from_url endpoint = Ok source0 ->
  (forall row a, framed (body row a)) ->
  paged (parse_key_from_source source) pages rows ->
  forall fuel params acc s a t,
    params_ok params ->
    Forall token_ok pages ->
    serves (length (gets s)) pages ->
    length pages <= fuel ->
    for_each rows body acc s = (Done a, t) ->
    gen_request_loop fuel endpoint source (parse_key_from_source source) params body acc s =
    (Done a,
     {| calls := calls s ++ map (pair endpoint) (params_trace source params pages);
        gets := gets s ++ map (fun p => (url_for endpoint p, headers))
                            (params_trace source params pages);
        pauses := pauses s;
        out := out t |}).
Proof.
  intros Hsrc Hbody Hpaged.
  induction Hpaged as [page rows Hrows Hshort | page rows pages rest Hrows Hfull Hpaged IH];
    intros fuel params acc s a t Hok Htok Hserves Hfuel Hrun.
  - destruct fuel as [|fuel]; [cbn in Hfuel; lia|].
    rewrite (gen_request_loop_page _ _ _ _ _ _ _ _ _ _ Hsrc Hok (serves_head _ _ _ Hserves) Hrows).
    unfold bind. rewrite fetched_with_out.
    rewrite (framed_run _ _ _ _ _ (framed_for_each _ _ _ Hbody) Hrun).
    apply Nat.ltb_lt in Hshort. rewrite Hshort. reflexivity.
  - destruct fuel as [|fuel]; [cbn in Hfuel; lia|].
    rewrite (gen_request_loop_page _ _ _ _ _ _ _ _ _ _ Hsrc Hok (serves_head _ _ _ Hserves) Hrows).
    rewrite for_each_app in Hrun. unfold bind in Hrun.
    destruct (for_each rows body acc s) as [[a1|e|] t1] eqn:Hrun1; try discriminate.
    unfold bind. rewrite fetched_with_out.
    rewrite (framed_run _ _ _ _ _ (framed_for_each _ _ _ Hbody) Hrun1).
    apply Nat.ltb_ge in Hfull. rewrite Hfull.
    inversion Htok as [|? ? Htok1 Htok']; subst.
    rewrite (IH fuel (next_params source page params) a1 _ a
               (with_out (fetched endpoint params (url_for endpoint params) s) t)).
    + cbn [calls gets pauses out with_out fetched params_trace map].
      rewrite <- !app_assoc. reflexivity.
    + apply next_params_ok; assumption.
    + assumption.
    + cbn [gets with_out fetched]. rewrite length_app, Nat.add_1_r.
      eapply serves_tail; eassumption.
    + cbn in Hfuel. lia.
    + apply (framed_run _ _ _ _ _ (framed_for_each _ _ _ Hbody) Hrun).
Qed.

Lemma records_cons key page pages :
  records key (page :: pages) =
  match page_rows key page with Some rows => rows | None => [] end ++ records key pages.
Proof. reflexivity. Qed.

Lemma paged_of_fulls key fulls last rows_last :
  Forall (fun page => exists rows, page_rows key page = Some rows /\
                                   length rows = PER_PAGE) fulls ->
  page_rows key last = Some rows_last ->
  length rows_last < PER_PAGE ->
  paged key (fulls ++ [last]) (records key (fulls ++ [last])).
Proof.
  intros Hfulls Hlast Hshort.
  induction Hfulls as [|page fulls (rows & Hrows & Hlen) _ IH]; cbn [app].
  - unfold records. cbn [map concat]. rewrite Hlast, app_nil_r.
    apply paged_last; assumption.
  - rewrite records_cons, Hrows.
    apply paged_more; [assumption | lia | exact IH].
Qed.

Lemma records_length key fulls last rows_last :
  Forall (fun page => exists rows, page_rows key page = Some rows /\
                                   length rows = PER_PAGE) fulls ->
  page_rows key last = Some rows_last ->
  length (records key (fulls ++ [last])) = PER_PAGE * length fulls + length rows_last.
Proof.
  intros Hfulls Hlast.
  induction Hfulls as [|page fulls (rows & Hrows & Hlen) _ IH]; cbn [app].
  - unfold records. cbn [map concat]. rewrite Hlast, app_nil_r. cbn [length]. lia.
  - rewrite records_cons, Hrows. rewrite length_app, IH, Hlen. unfold PER_PAGE.
    cbn [length]. lia.
Qed.

Lemma params_trace_length source params pages :
  length (params_trace source params pages) = length pages.
Proof.
  revert params. induction pages as [|page pages IH]; intros params; cbn; [reflexivity|].
  rewrite IH. reflexivity.
Qed.

Lemma params_trace_step source pages :
  forall params i page next,
    pages !! i = Some page ->
    params_trace source params pages !! S i = Some next ->
    exists current, params_trace source params pages !! i = Some current /\
                    next = next_params source page current.
Proof.
  induction pages as [|page0 pages IH]; intros params i page next Hpage Hnext;
    [discriminate|].
  destruct i as [|i].
  - injection Hpage as ->. exists params. split; [reflexivity|].
    destruct pages as [|page1 pages]; [discriminate|].
    cbn in Hnext. congruence.
  - cbn in Hpage. cbn [params_trace] in Hnext |- *.
    change ((?x :: ?l) !! S ?n) with (l !! n) in Hnext |- *.
    eapply IH; eassumption.
Qed.

Lemma paged_full key pages rows :
  paged key pages rows ->
  forall i page, pages !! i = Some page -> S i < length pages ->
    exists rows_i, page_rows key page = Some rows_i /\ PER_PAGE <= length rows_i.
Proof.
  induction 1 as [page rows Hrows Hshort | page rows pages rest Hrows Hfull Hpaged IH];
    intros i p Hp Hi.
  - cbn in Hi. lia.
  - destruct i as [|i].
    + injection Hp as <-. eauto.
    + cbn in Hp, Hi. apply (IH i p Hp). lia.
Qed.

(** C2. A page sequence whose pages hold exactly 100 records each, but for the
    last, which holds fewer: the pagination engine yields the concatenation
    of the records of all pages, [100 * length fulls + length rows_last] of
    them, and makes one fetch per page, none after the short page, whether
    or not that page carries a continuation token.  (Tokens are strings, as
    the API has them: [request] cannot append another value to the URL.) *)
Theorem gen_request_yields_all_pages fuel endpoint source params s fulls last rows_last :
  parse_source_from_url endpoint = Ok source ->
  params_ok params ->
  Forall token_ok (fulls ++ [last]) ->
  Forall (fun page => exists rows,
            page_rows (parse_key_from_source source) page = Some rows /\
            length rows = 100) fulls ->
  page_rows (parse_key_from_source source) last = Some rows_last ->
  length rows_last < 100 ->
  serves (length (gets s)) (fulls ++ [last]) ->
  length fulls < fuel ->
  exists s',
    gen_request_list fuel endpoint params s =
      (Done (records (parse_key_from_source source) (fulls ++ [last])), s') /\
    length (records (parse_key_from_source source) (fulls ++ [last])) =
      100 * length fulls + length rows_last /\
    length (gets s') = length (gets s) + (length fulls + 1) /\
    length (calls s') = length (calls s) + (length fulls + 1) /\
    pauses s' = pauses s /\ out s' = out s.
Proof.
  intros Hsrc Hok Htok Hfulls Hlast Hshort Hserves Hfuel.
  pose proof (paged_of_fulls _ _ _ _ Hfulls Hlast Hshort) as Hpaged.
  eexists. split.
  - unfold gen_request_list, gen_request, bind. rewrite Hsrc. cbn [lift ret].
    eapply (gen_request_loop_paged endpoint source source _ _ _ Hsrc); try eassumption.
    + intros row a. apply framed_ret.
    + rewrite length_app. cbn. lia.
    + apply for_each_collect.
  - cbn [gets calls pauses out].
    rewrite !length_app, !length_map, params_trace_length, length_app. cbn [length].
    split; [apply records_length; assumption|]. auto.
Qed.

(** C3. On a resource whose identity contains "contact", each fetch after the
    first follows a full page; when that page carried a continuation token,
    the fetch has the parameters of the fetch before it with the token as
    their [bookmark] (and appends the token to the URL), and when the page
    carried none, the fetch has no parameters at all. *)
Theorem contact_pages_pass_the_token fuel endpoint source params s pages rows :
  parse_source_from_url endpoint = Ok source ->
  contains "contact" source = true ->
  params_ok params ->
  Forall token_ok pages ->
  paged (parse_key_from_source source) pages rows ->
  serves (length (gets s)) pages ->
  length pages <= fuel ->
  exists s' trace,
    gen_request_list fuel endpoint params s = (Done rows, s') /\
    calls s' = calls s ++ map (pair endpoint) trace /\
    gets s' = gets s ++ map (fun p => (url_for endpoint p, headers)) trace /\
    length trace = length pages /\
    trace !! 0 = Some params /\
    forall i page current next,
      pages !! i = Some page -> trace !! i = Some current -> trace !! S i = Some next ->
      (exists rows_i, page_rows (parse_key_from_source source) page = Some rows_i /\
                      100 <= length rows_i) /\
      match page_bookmark page with
      | Some token =>
          next = <["bookmark" := token]> current /\
          next !! "bookmark" = Some token /\
          forall t, token = JStr t -> url_for endpoint next = endpoint +:+ "/" +:+ t
      | None => next = ∅
      end.
Proof.
  intros Hsrc Hcontact Hok Htok Hpaged Hserves Hfuel.
  exists {| calls := calls s ++ map (pair endpoint) (params_trace source params pages);
            gets := gets s ++ map (fun p => (url_for endpoint p, headers))
                                (params_trace source params pages);
            pauses := pauses s; out := out s |},
         (params_trace source params pages).
  split.
  { unfold gen_request_list, gen_request, bind. rewrite Hsrc. cbn [lift ret].
    eapply (gen_request_loop_paged endpoint source source _ _ _ Hsrc); try eassumption.
    - intros row a. apply framed_ret.
    - apply for_each_collect. }
  split; [reflexivity|]. split; [reflexivity|].
  split; [apply params_trace_length|].
  split.
  { destruct Hpaged; reflexivity. }
  intros i page current next Hpage Hcurrent Hnext.
  split.
  { apply (paged_full _ _ _ Hpaged i page Hpage).
    rewrite <- (params_trace_length source params pages).
    apply lookup_lt_Some in Hnext. exact Hnext. }
  destruct (params_trace_step _ _ _ _ _ _ Hpage Hnext) as (current' & Hcurrent' & ->).
  rewrite Hcurrent in Hcurrent'. injection Hcurrent' as <-.
  unfold next_params. rewrite Hcontact.
  destruct (page_bookmark page) as [token|]; [|reflexivity].
  split; [reflexivity|]. split; [apply lookup_insert_eq|].
  intros t ->. unfold url_for, request_url. rewrite lookup_insert_eq. reflexivity.
Qed.

(** What a call of [request] can do: raise, or return the response to its
    last GET, every GET before it having failed. *)
Lemma request_outcome endpoint params s o s' :
  request endpoint params s = (o, s') ->
  (exists e, o = Raise e) \/
  (exists resp k,
     o = Done resp /\ 1 <= k /\
     length (gets s') = length (gets s) + k /\
     server (length (gets s) + (k - 1)) = Reply resp /\
     failure (Reply resp) = None /\
     (forall i, i < k - 1 -> failure (server (length (gets s) + i)) <> None) /\
     out s' = out s).
Proof.
  unfold request, bind. cbn [log_call].
  set (s1 := {| calls := calls s ++ [(endpoint, params)]; gets := gets s;
                pauses := pauses s; out := out s |}).
  destruct (request_url endpoint params) as [u|e] eqn:Hu.
  - destruct (parse_source_from_url u) as [source|e] eqn:Hsrc.
    + destruct (on_exception_request endpoint params u source 5 0 s1 Hu Hsrc)
        as (k & o' & s2 & Hrun & Hk & _ & Hout & Hgets & _ & Hbefore & Hlast); [lia|].
      rewrite Hrun. intros [= <- <-]. cbn [gets s1] in Hbefore, Hlast.
      destruct (failure (server (length (gets s) + (k - 1)))) as [response|] eqn:Hf.
      * left. destruct Hlast as [-> _]. eauto.
      * right. destruct Hlast as (resp & Hsrv & ->). exists resp, k.
        rewrite Hsrv in Hf.
        repeat split; auto; try lia.
        -- rewrite Hgets, length_app, repeat_length. reflexivity.
        -- intros i Hi. destruct (Hbefore i Hi) as (response & -> & _). discriminate.
    + destruct (request_once_aborts endpoint params s1) as (e' & Hones & Hne);
        [right; eauto|].
      rewrite (on_exception_passes _ _ _ _ _ _ _ _ Hones); [|congruence].
      intros [= <- _]. eauto.
  - destruct (request_once_aborts endpoint params s1) as (e' & Hones & Hne);
      [left; eauto|].
    rewrite (on_exception_passes _ _ _ _ _ _ _ _ Hones); [|congruence].
    intros [= <- _]. eauto.
Qed.

(** One round of the loop under [collect]: it raises, or ends, or goes on
    after a response whose page, if it is one, is not short. *)
Lemma gen_request_loop_round fuel endpoint source key params acc s r :
  gen_request_loop (S fuel) endpoint source key params collect acc s = r ->
  (exists e, fst r = Raise e) \/
  (exists a, fst r = Done a) \/
  (exists resp s1 params' acc',
     request endpoint params s = (Done resp, s1) /\
     (forall page rows, payload resp = Some page -> page_rows key page = Some rows ->
                        PER_PAGE <= length rows) /\
     r = gen_request_loop fuel endpoint source key params' collect acc' s1).
Proof.
  cbn [gen_request_loop]. unfold bind at 1.
  destruct (request endpoint params s) as [o s1] eqn:Hreq.
  destruct (request_outcome _ _ _ _ _ Hreq) as [[e ->] | (resp & k & -> & _)];
    [intros <-; left; eauto|].
  unfold resp_json.
  destruct (payload resp) as [data|] eqn:Hpay; [|intros <-; left; cbn; eauto].
  destruct (contains "contact" source);
    destruct data as [| | | | |d];
    unfold bind, lift, ret, raise; cbn [py_contains py_getitem py_iter];
    try (intros <-; left; cbn; eauto; fail).
  all: repeat first
    [ rewrite for_each_collect
    | progress cbn beta iota
    | match goal with
      | |- context [match ?x with _ => _ end] =>
          lazymatch x with
          | context [match _ with _ => _ end] => fail
          | _ => destruct x eqn:?
          end
      end ].
  all: intros <-.
  all: try (left; cbn; eauto; fail).
  all: try (right; left; cbn; eauto; fail).
  all: right; right; eexists _, _, _, _; (split; [reflexivity|]); (split; [|reflexivity]).
  all: intros page rows Hpage Hrows; rewrite Hpay in Hpage; injection Hpage as <-.
  all: unfold page_rows in Hrows;
    match type of Hrows with
    | context [dict_get ?k ?dd] =>
        match goal with H : dict_get k dd = Some _ |- _ => rewrite H in Hrows end
    end.
  all: match goal with H : py_iter ?j = Ok _ |- _ =>
         destruct j; try discriminate; injection Hrows as <-; injection H as <- end.
  all: apply Nat.ltb_ge; assumption.
Qed.

(** The loop ends once the API serves a short page: if the [n]-th GET of the
    run, not yet sent, is answered by a page of fewer than [PER_PAGE] records,
    the loop has ended by then, with a result or an exception. *)
Lemma gen_request_loop_ends endpoint source n page rows :
  delivers (server n) page ->
  page_rows (parse_key_from_source source) page = Some rows ->
  length rows < PER_PAGE ->
  forall fuel params acc s,
    length (gets s) <= n ->
    n - length (gets s) < fuel ->
    fst (gen_request_loop fuel endpoint source (parse_key_from_source source)
           params collect acc s) <> OutOfFuel.
Proof.
  intros (status & Hsrv & Hfail) Hrows Hshort.
  induction fuel as [|fuel IH]; intros params acc s Hn Hfuel; [lia|].
  destruct (gen_request_loop_round fuel endpoint source (parse_key_from_source source)
              params acc s _ eq_refl)
    as [(e & ->) | [(a & ->) | (resp & s1 & params' & acc' & Hreq & Hfull & ->)]];
    try discriminate.
  destruct (request_outcome _ _ _ _ _ Hreq)
    as [(e & [=]) | (resp' & k & [= <-] & Hk & Hlen & Hlast & _ & Hbefore & _)].
  assert (Hle : length (gets s1) <= n).
  { destruct (Nat.le_gt_cases (length (gets s1)) n) as [|Hgt]; [assumption|exfalso].
    destruct (Nat.eq_dec n (length (gets s) + (k - 1))) as [->|Hne].
    - rewrite Hlast in Hsrv. injection Hsrv as Hresp.
      specialize (Hfull page rows). rewrite Hresp in Hfull. cbn in Hfull.
      specialize (Hfull eq_refl Hrows). lia.
    - apply (Hbefore (n - length (gets s))); [lia|].
      replace (length (gets s) + (n - length (gets s))) with n by lia.
      rewrite Hsrv in *. exact Hfail. }
  apply IH; lia.
Qed.

(** More fuel does not change a run that ended. *)
Lemma gen_request_loop_fuel {A} endpoint source key (body : json -> A -> M A) fuel :
  forall fuel' params acc s,
    fuel <= fuel' ->
    fst (gen_request_loop fuel endpoint source key params body acc s) <> OutOfFuel ->
    gen_request_loop fuel' endpoint source key params body acc s =
    gen_request_loop fuel endpoint source key params body acc s.
Proof.
  induction fuel as [|fuel IH]; intros fuel' params acc s Hle Hends;
    [exfalso; apply Hends; reflexivity|].
  destruct fuel' as [|fuel']; [lia|].
  revert Hends. cbn [gen_request_loop]. unfold bind.
  repeat match goal with
         | |- context [match ?x with _ => _ end] =>
             lazymatch x with
             | context [match _ with _ => _ end] => fail
             | _ => destruct x eqn:?
             end
         end.
  all: intros Hends;
    first [reflexivity | apply IH; [lia | exact Hends] | exfalso; apply Hends; reflexivity].
Qed.

(** The loop does not end while the API serves full pages. *)
Lemma gen_request_loop_never_ends endpoint source source0 :
  parse_source_from_url endpoint = Ok source0 ->
  forall fuel params acc s,
    params_ok params ->
    (forall n, length (gets s) <= n ->
       exists page rows,
         delivers (server n) page /\
         page_rows (parse_key_from_source source) page = Some rows /\
         PER_PAGE <= length rows /\ token_ok page) ->
    fst (gen_request_loop fuel endpoint source (parse_key_from_source source)
           params collect acc s) = OutOfFuel.
Proof.
  intros Hsrc. induction fuel as [|fuel IH]; intros params acc s Hok Hfull;
    [reflexivity|].
  destruct (Hfull _ (Nat.le_refl _)) as (page & rows & Hpage & Hrows & Hlen & Htok).
  rewrite (gen_request_loop_page _ _ _ _ _ _ _ _ _ _ Hsrc Hok Hpage Hrows).
  unfold bind. rewrite for_each_collect.
  apply Nat.ltb_ge in Hlen. rewrite Hlen.
  apply IH; [apply next_params_ok; assumption|].
  intros n Hn. apply Hfull. cbn [gets fetched] in Hn. rewrite length_app in Hn. lia.
Qed.

Lemma gen_request_list_ends endpoint source params s n page rows :
  parse_source_from_url endpoint = Ok source ->
  length (gets s) <= n ->
  delivers (server n) page ->
  page_rows (parse_key_from_source source) page = Some rows ->
  length rows < PER_PAGE ->
  forall fuel0 fuel,
    n - length (gets s) < fuel0 -> fuel0 <= fuel ->
    fst (gen_request_list fuel0 endpoint params s) <> OutOfFuel /\
    gen_request_list fuel endpoint params s = gen_request_list fuel0 endpoint params s.
Proof.
  intros Hsrc Hn Hpage Hrows Hshort fuel0 fuel Hfuel0 Hfuel.
  unfold gen_request_list, gen_request, bind. rewrite Hsrc. cbn [lift ret].
  assert (Hends : fst (gen_request_loop fuel0 endpoint source
                         (parse_key_from_source source) params collect [] s)
                  <> OutOfFuel).
  { eapply gen_request_loop_ends; eassumption. }
  split; [exact Hends|].
  apply gen_request_loop_fuel; assumption.
Qed.

(** C4, as amended. The record sequence of the pagination engine ends once
    the API has served a page of fewer than 100 records: if the [n]-th GET is
    answered by such a page, every run with more than [n - length (gets s)]
    rounds of fuel ends, and all of them with the same outcome. *)
Theorem gen_request_ends_at_short_page endpoint source params s n page rows :
  parse_source_from_url endpoint = Ok source ->
  length (gets s) <= n ->
  delivers (server n) page ->
  page_rows (parse_key_from_source source) page = Some rows ->
  length rows < 100 ->
  exists outcome,
    fst outcome <> OutOfFuel /\
    forall fuel, n - length (gets s) < fuel ->
      gen_request_list fuel endpoint params s = outcome.
Proof.
  intros Hsrc Hn Hpage Hrows Hshort.
  exists (gen_request_list (S (n - length (gets s))) endpoint params s).
  split.
  - apply (gen_request_list_ends _ _ params _ _ _ _ Hsrc Hn Hpage Hrows Hshort
             (S (n - length (gets s))) (S (n - length (gets s)))); lia.
  - intros fuel Hfuel.
    apply (gen_request_list_ends _ _ params _ _ _ _ Hsrc Hn Hpage Hrows Hshort
             (S (n - length (gets s))) fuel); lia.
Qed.

End Pagination.

Section Retries.
Context {E : Env}.

Lemma client_error_iff response :
  client_error response = true <->
  exists status_code, response = Some status_code /\
                      (400 <= status_code < 500)%Z /\ status_code <> 408%Z.
Proof.
  unfold client_error. split.
  - destruct response as [status_code|]; [|discriminate].
    intros H. exists status_code. split; [reflexivity|]. lia.
  - intros (status_code & -> & Hrange & Hne).
    apply andb_true_iff. split; [apply negb_true_iff; lia | lia].
Qed.

Lemma expo_pauses k :
  k <= 5 -> map (expo 2) (seq 0 (k - 1)) = take (k - 1) [2; 4; 8; 16]%Z.
Proof.
  intros Hk. do 5 (destruct k as [|k]; [reflexivity|]).
  destruct k; [reflexivity | lia].
Qed.

(** C6. A call of [request] makes [k] attempts, between one and five, all on
    the same URL, pausing for at most 2, 4, 8 and 16 seconds between them.
    Every attempt but the last failed with a [RequestException] that is not
    a client error.  The last attempt either succeeded, and its response is
    returned, or failed, and its exception is raised: this happens only if
    it is a client error or the fifth attempt.  So a failed attempt is
    followed by another exactly when it is not a client error and fewer than
    five attempts were made; a client error is a response with a status in
    [400, 500) other than 408. *)
Theorem request_retries_unless_client_error url params u source s :
  request_url url params = Ok u ->
  parse_source_from_url u = Ok source ->
  exists k o s',
    request url params s = (o, s') /\
    1 <= k <= 5 /\
    gets s' = gets s ++ repeat (u, headers) k /\
    pauses s' = pauses s ++ take (k - 1) [2; 4; 8; 16]%Z /\
    (forall i, i < k - 1 ->
       exists response, failure (server (length (gets s) + i)) = Some response /\
                        client_error response = false) /\
    match failure (server (length (gets s) + (k - 1))) with
    | Some response =>
        o = Raise (RequestException response) /\
        (client_error response = true \/ k = 5)
    | None =>
        exists resp, server (length (gets s) + (k - 1)) = Reply resp /\ o = Done resp
    end /\
    (forall response,
       client_error response = true <->
       exists status_code, response = Some status_code /\
                           (400 <= status_code < 500)%Z /\ status_code <> 408%Z).
Proof.
  intros Hu Hsrc. unfold request, bind. cbn [log_call].
  set (s1 := {| calls := calls s ++ [(url, params)]; gets := gets s;
                pauses := pauses s; out := out s |}).
  destruct (on_exception_request url params u source 5 0 s1 Hu Hsrc)
    as (k & o & s' & Hrun & Hk & _ & _ & Hgets & Hpauses & Hbefore & Hlast); [lia|].
  exists k, o, s'. rewrite Hrun. rewrite expo_pauses in Hpauses by lia.
  repeat split; try assumption; try lia.
  - apply client_error_iff.
  - apply client_error_iff.
Qed.

End Retries.

Section Contacts.
Context {E : Env}.

Lemma framed_sync_contacts_row tap_stream_id start row max_updated_at :
  framed (sync_contacts_row tap_stream_id start row max_updated_at).
Proof.
  unfold sync_contacts_row, write_record.
  apply framed_bind; [apply framed_lift|]. intros updated_at.
  apply framed_bind; [|intros; apply framed_ret].
  destruct updated_at as [u|]; [destruct (instant start <=? instant u)%Z|];
    try apply framed_ret;
    (apply framed_bind; [apply framed_lift | intros; apply framed_emit]).
Qed.

(** One round of the loop of [sync_contacts]. *)
Lemma sync_contacts_row_eq tap_stream_id start row max_updated_at updated_at s :
  updated_at_of row = Ok updated_at ->
  sync_contacts_row tap_stream_id start row max_updated_at s =
  if emits start updated_at then
    match transform_contact row with
    | Ok record =>
        (Done (newer max_updated_at updated_at),
         {| calls := calls s; gets := gets s; pauses := pauses s;
            out := out s ++ [RecordMessage tap_stream_id record] |})
    | Err e => (Raise e, s)
    end
  else (Done (newer max_updated_at updated_at), s).
Proof.
  intros Hup. unfold sync_contacts_row, bind, write_record. rewrite Hup.
  cbn [lift ret]. unfold emits, newer.
  destruct updated_at as [u|]; [destruct (instant start <=? instant u)%Z|];
    try reflexivity;
    destruct (transform_contact row); reflexivity.
Qed.

Lemma for_each_contacts tap_stream_id start rows :
  forall updated records max_updated_at s,
    Forall2 (fun row updated_at => updated_at_of row = Ok updated_at) rows updated ->
    Forall2 (fun row record => transform_contact row = Ok record)
            (emitted start rows updated) records ->
    for_each rows (sync_contacts_row tap_stream_id start) max_updated_at s =
    (Done (fold_left newer updated max_updated_at),
     {| calls := calls s; gets := gets s; pauses := pauses s;
        out := out s ++ map (RecordMessage tap_stream_id) records |}).
Proof.
  induction rows as [|row rows IH]; intros updated records m s Hup Hrec.
  - inversion Hup; subst. inversion Hrec; subst. cbn. rewrite app_nil_r.
    destruct s; reflexivity.
  - inversion Hup as [|? updated_at ? updated' Hrow Hup']; subst.
    cbn [for_each]. unfold bind.
    rewrite (sync_contacts_row_eq _ _ _ _ _ _ Hrow).
    cbn [emitted] in Hrec. destruct (emits start updated_at).
    + inversion Hrec as [|? record ? records' Htr Hrec']; subst. rewrite Htr.
      rewrite (IH _ _ _ _ Hup' Hrec'). cbn [calls gets pauses out map fold_left].
      rewrite <- app_assoc. reflexivity.
    + rewrite (IH _ _ _ _ Hup' Hrec). reflexivity.
Qed.

Lemma emitted_since start rows updated :
  emitted start rows (map Some updated) = since start rows updated.
Proof.
  revert updated. induction rows as [|row rows IH]; intros [|u updated]; cbn;
    try reflexivity.
  rewrite IH. reflexivity.
Qed.

Lemma newer_latest start updated :
  fold_left newer (map Some updated) start = latest start updated.
Proof.
  unfold latest. revert start.
  induction updated as [|u updated IH]; intros start; cbn; [reflexivity|].
  apply IH.
Qed.

Lemma latest_instant start updated :
  instant (latest start updated) = max_instant start updated.
Proof.
  unfold latest, max_instant. revert start.
  induction updated as [|u updated IH]; intros start; cbn; [reflexivity|].
  rewrite IH. clear IH.
  destruct (instant start <? instant u)%Z eqn:Hlt.
  - apply Z.ltb_lt in Hlt.
    induction updated as [|v updated IH]; cbn; lia.
  - apply Z.ltb_ge in Hlt.
    induction updated as [|v updated IH]; cbn; lia.
Qed.

Lemma contacts_url :
  get_url "contacts" [] = Ok "https://api2.autopilothq.com/v1/contacts" /\
  parse_source_from_url "https://api2.autopilothq.com/v1/contacts" = Ok "contacts" /\
  parse_key_from_source "contacts" = "contacts".
Proof. repeat split; vm_compute; reflexivity. Qed.

(** What [write_schema] does with the key properties it is given. *)
Lemma write_schema_accepts stream_name schema key_properties keys s :
  schema_keys key_properties = Some keys ->
  write_schema stream_name schema key_properties s
  = (Done tt, wrote [SchemaMessage stream_name schema keys] s).
Proof. destruct key_properties; intros [= <-]; reflexivity. Qed.

Lemma write_schema_refuses stream_name schema key_properties s :
  schema_keys key_properties = None ->
  write_schema stream_name schema key_properties s
  = (Raise (Exception "key_properties must be a string or list of strings"), s).
Proof. destruct key_properties; intros [=]; reflexivity. Qed.

(** C1. A contacts sync with watermark [start] over a paged stream of records
    that all carry an [updated_at], for a catalog entry whose key properties
    [write_schema] accepts: the records written are exactly those
    whose [updated_at] is not before [start], in their order and after the
    transform, and the bookmark that is persisted is the rendering of the
    latest of [start] and all the [updated_at] values, suppressed records
    included: its instant is their maximum. *)
Theorem sync_contacts_emits_since_start fuel STATE stream s pages rows updated
    records start since_text bookmark keys :
  tap_stream_id stream = "contacts" ->
  schema_keys (key_properties stream) = Some keys ->
  strptime_with_tz (get_start STATE "contacts" "updated_at") = Ok start ->
  strftime start = Ok since_text ->
  paged "contacts" pages rows ->
  Forall token_ok pages ->
  serves (length (gets s)) pages ->
  length pages <= fuel ->
  Forall2 (fun row u => updated_at_of row = Ok (Some u)) rows updated ->
  Forall2 (fun row record => transform_contact row = Ok record)
          (since start rows updated) records ->
  strftime (latest start updated) = Ok bookmark ->
  exists s',
    sync_contacts fuel STATE stream s =
      (Done (write_bookmark STATE "contacts" "updated_at" (JStr bookmark)), s') /\
    out s' =
      out s ++ [SchemaMessage "contacts" (schema stream) keys]
            ++ map (RecordMessage "contacts") records
            ++ [StateMessage (write_bookmark STATE "contacts" "updated_at" (JStr bookmark))] /\
    instant (latest start updated) = max_instant start updated.
Proof.
  intros Hid Hkeys Hstart Hsince Hpaged Htok Hserves Hfuel Hup Hrec Hbook.
  destruct contacts_url as (Hurl & Hsrc & Hkey).
  assert (Hup' : Forall2 (fun row updated_at => updated_at_of row = Ok updated_at)
                         rows (map Some updated)).
  { clear -Hup. induction Hup; cbn; constructor; assumption. }
  rewrite <- emitted_since in Hrec.
  set (s1 := wrote [SchemaMessage "contacts" (schema stream) keys] s).
  pose proof (for_each_contacts "contacts" start rows _ _ start s1 Hup' Hrec) as Hloop.
  rewrite newer_latest in Hloop.
  rewrite <- Hkey in Hpaged.
  pose proof (gen_request_loop_paged "https://api2.autopilothq.com/v1/contacts"
                "contacts" "contacts" (sync_contacts_row "contacts" start) pages rows
                Hsrc (framed_sync_contacts_row "contacts" start) Hpaged
                fuel ∅ start s1 _ _ I Htok Hserves Hfuel Hloop) as Hrun.
  eexists. split.
  - unfold sync_contacts, bind. rewrite Hid.
    rewrite (write_schema_accepts _ _ _ _ s Hkeys). fold s1.
    rewrite Hstart. cbn [lift ret]. rewrite Hsince. cbn [lift ret].
    rewrite Hurl. cbn [lift ret]. unfold gen_request, bind. rewrite Hsrc.
    cbn [lift ret]. rewrite Hrun. rewrite Hbook. cbn [lift ret emit]. reflexivity.
  - split; [|apply latest_instant].
    cbn [out s1 wrote]. rewrite <- !app_assoc. reflexivity.
Qed.

Lemma for_each_invariant {R A} (P : A -> Prop) (body : R -> A -> M A) :
  (forall row acc s acc' s', P acc -> body row acc s = (Done acc', s') -> P acc') ->
  forall rows acc s acc' s',
    P acc -> for_each rows body acc s = (Done acc', s') -> P acc'.
Proof.
  intros Hbody. induction rows as [|row rows IH]; intros acc s acc' s' Hacc; cbn [for_each].
  - intros [= <- _]. exact Hacc.
  - unfold bind. destruct (body row acc s) as [[a|e|] s1] eqn:Hrow; try discriminate.
    apply IH. eapply Hbody; eassumption.
Qed.

(** What holds of the local variables of the consuming loop before the first
    record and is kept by its body holds when the generator is exhausted. *)
Lemma gen_request_loop_invariant {A} (P : A -> Prop) endpoint source key
    (body : json -> A -> M A) :
  (forall row acc s acc' s', P acc -> body row acc s = (Done acc', s') -> P acc') ->
  forall fuel params acc s acc' s',
    P acc ->
    gen_request_loop fuel endpoint source key params body acc s = (Done acc', s') ->
    P acc'.
Proof.
  intros Hbody. induction fuel as [|fuel IH]; intros params acc s acc' s' Hacc;
    [discriminate|].
  cbn [gen_request_loop]. unfold bind.
  repeat match goal with
         | |- context [match ?x with _ => _ end] =>
             lazymatch x with
             | context [match _ with _ => _ end] => fail
             | _ => destruct x eqn:?
             end
         end; try discriminate.
  all: match goal with
       | H : for_each _ _ _ _ = (Done _, _) |- _ =>
           pose proof (for_each_invariant P _ Hbody _ _ _ _ _ Hacc H)
       end.
  all: first [intros [= <- _]; assumption | apply IH; assumption].
Qed.

Lemma sync_contacts_row_newer tap_stream_id start row max_updated_at s m s' :
  sync_contacts_row tap_stream_id start row max_updated_at s = (Done m, s') ->
  exists updated_at, m = newer max_updated_at updated_at.
Proof.
  destruct (updated_at_of row) as [updated_at|e] eqn:Hup.
  - rewrite (sync_contacts_row_eq _ _ _ _ _ _ Hup).
    destruct (emits start updated_at); [destruct (transform_contact row)|];
      intros [= <- _]; eauto.
  - unfold sync_contacts_row, bind. rewrite Hup. discriminate.
Qed.

Lemma newer_ge max_updated_at updated_at :
  (instant max_updated_at <= instant (newer max_updated_at updated_at))%Z.
Proof.
  unfold newer. destruct updated_at as [u|]; [|lia].
  destruct (instant max_updated_at <? instant u)%Z eqn:Hlt; [|lia].
  apply Z.ltb_lt in Hlt. lia.
Qed.

(** C7. A contacts sync that succeeds persists, under the stream's
    [updated_at] key, the rendering of a datetime that is not before the
    datetime it started from; the datetime it started from is read from the
    prior bookmark of the stream when the state holds one, and from the
    configured start date when it holds none (or [null]); nothing else of the
    state changes. *)
Theorem sync_contacts_bookmark_moves_forward fuel STATE stream s STATE' s' :
  sync_contacts fuel STATE stream s = (Done STATE', s') ->
  exists start max_updated_at bookmark,
    strptime_with_tz (get_start STATE (tap_stream_id stream) "updated_at") = Ok start /\
    (forall prior,
       get_bookmark STATE (tap_stream_id stream) "updated_at" = Some prior ->
       prior <> JNull -> strptime_with_tz prior = Ok start) /\
    (get_bookmark STATE (tap_stream_id stream) "updated_at" = None \/
     get_bookmark STATE (tap_stream_id stream) "updated_at" = Some JNull ->
     strptime_with_tz (start_date CONFIG) = Ok start) /\
    strftime max_updated_at = Ok bookmark /\
    STATE' = write_bookmark STATE (tap_stream_id stream) "updated_at" (JStr bookmark) /\
    get_bookmark STATE' (tap_stream_id stream) "updated_at" = Some (JStr bookmark) /\
    (instant start <= instant max_updated_at)%Z.
Proof.
  unfold sync_contacts. unfold bind at 1.
  destruct (write_schema (tap_stream_id stream) (schema stream) (key_properties stream) s)
    as [[[]|e|] s1]; [|discriminate|discriminate].
  unfold bind.
  destruct (strptime_with_tz (get_start STATE (tap_stream_id stream) "updated_at"))
    as [start|e] eqn:Hstart; [|discriminate].
  cbn [lift ret].
  destruct (strftime start) as [since_text|e]; [|discriminate]. cbn [lift ret].
  destruct (get_url (tap_stream_id stream) []) as [url|e]; [|discriminate].
  cbn [lift ret]. unfold gen_request, bind.
  destruct (parse_source_from_url url) as [source|e]; [|discriminate].
  cbn [lift ret].
  match goal with
  | |- context [gen_request_loop ?f ?e ?so ?k ?p ?b ?a ?st] =>
      destruct (gen_request_loop f e so k p b a st) as [[m|e'|] s2] eqn:Hloop
  end; try discriminate.
  destruct (strftime m) as [bookmark|e] eqn:Hbook; [|discriminate].
  cbn [lift ret]. intros [= <- _].
  exists start, m, bookmark. split; [reflexivity|].
  split; [|split; [|split; [exact Hbook|split; [reflexivity|split]]]].
  - intros prior Hprior Hnull. unfold get_start in Hstart. rewrite Hprior in Hstart.
    destruct prior; try exact Hstart. destruct (Hnull eq_refl).
  - intros Hnone. unfold get_start in Hstart.
    destruct Hnone as [Hnone | Hnone]; rewrite Hnone in Hstart; exact Hstart.
  - unfold get_bookmark, write_bookmark. cbn [bookmarks].
    rewrite lookup_insert_eq, lookup_insert_eq. reflexivity.
  - apply (gen_request_loop_invariant
             (fun m => (instant start <= instant m)%Z) _ _ _ _) in Hloop;
      [exact Hloop | | lia].
    intros row acc t acc' t' Hacc Hrow.
    apply sync_contacts_row_newer in Hrow as [updated_at ->].
    pose proof (newer_ge acc updated_at). lia.
Qed.


End Contacts.

Section Transform.
Context {E : Env}.

Lemma dict_get_set_eq k v d : dict_get k (dict_set k v d) = Some v.
Proof.
  induction d as [|[k' v'] d IH]; cbn.
  - rewrite String.eqb_refl. reflexivity.
  - destruct (String.eqb k k') eqn:Hk; cbn; rewrite Hk; [reflexivity | exact IH].
Qed.

Lemma dict_get_set_ne k k' v d :
  k <> k' -> dict_get k' (dict_set k v d) = dict_get k' d.
Proof.
  intros Hne. induction d as [|[k0 v0] d IH]; cbn.
  - apply not_eq_sym in Hne. apply String.eqb_neq in Hne. rewrite Hne. reflexivity.
  - destruct (String.eqb k k0) eqn:Hk; cbn.
    + apply String.eqb_eq in Hk. subst k0.
      apply not_eq_sym in Hne. apply String.eqb_neq in Hne. rewrite Hne. reflexivity.
    + rewrite IH. reflexivity.
Qed.

Lemma dict_set_keys k v v0 d :
  dict_get k d = Some v0 -> map fst (dict_set k v d) = map fst d.
Proof.
  induction d as [|[k' v'] d IH]; cbn; [discriminate|].
  destruct (String.eqb k k') eqn:Hk; cbn; [reflexivity|].
  intros H. rewrite (IH H). reflexivity.
Qed.

Lemma dict_get_in k d : In k (map fst d) -> exists v, dict_get k d = Some v.
Proof.
  induction d as [|[k' v'] d IH]; cbn; [contradiction|].
  destruct (String.eqb k k') eqn:Hk; [eauto|].
  intros [->|Hin]; [|exact (IH Hin)].
  rewrite String.eqb_refl in Hk. discriminate.
Qed.

Lemma dict_get_keys k d d' :
  map fst d' = map fst d -> dict_get k d = None -> dict_get k d' = None.
Proof.
  intros Hkeys Hnone. destruct (dict_get k d') as [v|] eqn:Hget; [|reflexivity].
  assert (Hin : In k (map fst d)).
  { rewrite <- Hkeys. clear -Hget. induction d' as [|[k' v'] d' IH]; [discriminate|].
    cbn in Hget |- *. destruct (String.eqb k k') eqn:Hk.
    - left. apply String.eqb_eq in Hk. auto.
    - right. auto. }
  destruct (dict_get_in _ _ Hin) as [v' Hv']. congruence.
Qed.

Lemma rmap_Forall2 {A B} (f : A -> result B) (R : A -> B -> Prop) l :
  (forall x, In x l -> exists y, f x = Ok y /\ R x y) ->
  exists ys, rmap f l = Ok ys /\ Forall2 R l ys.
Proof.
  induction l as [|x l IH]; intros H; cbn.
  - exists []. split; [reflexivity | constructor].
  - destruct (H x (or_introl eq_refl)) as (y & Hy & Hxy).
    destruct IH as (ys & Hys & Hall); [intros x' Hx'; apply H; right; exact Hx'|].
    exists (y :: ys). rewrite Hy. cbn. rewrite Hys. cbn.
    split; [reflexivity | constructor; assumption].
Qed.

Lemma Forall2_keys {B} (R : string -> B -> Prop) (sub : list (string * json)) items :
  Forall2 (fun row item => exists key, row = JStr key /\ R key item)
          (map (fun kv => JStr (fst kv)) sub) items ->
  Forall2 R (map fst sub) items.
Proof.
  revert items. induction sub as [|[k v] sub IH]; intros items H; inversion H; subst.
  - constructor.
  - cbn. constructor; [|apply IH; assumption].
    match goal with Hx : exists key, _ |- _ => destruct Hx as (key & [= <-] & HR) end.
    exact HR.
Qed.

Lemma boolean_rows sub :
  exists items,
    rmap (boolean_row (JObj sub)) (map (fun kv => JStr (fst kv)) sub) = Ok items /\
    Forall2 (url_value sub) (map fst sub) items.
Proof.
  destruct (rmap_Forall2 (boolean_row (JObj sub))
              (fun row item => exists key, row = JStr key /\ url_value sub key item)
              (map (fun kv => JStr (fst kv)) sub)) as (items & Hitems & Hall).
  - intros row Hrow. apply in_map_iff in Hrow as ([k v] & <- & Hin).
    destruct (dict_get_in k sub) as [value Hvalue].
    { apply in_map_iff. exists (k, v). auto. }
    exists (JObj [("url", JStr k); ("value", value)]). cbn [fst].
    split.
    + unfold boolean_row. cbn [py_subscript]. rewrite Hvalue. reflexivity.
    + exists k. split; [reflexivity|]. exists value. auto.
  - exists items. split; [exact Hitems | apply Forall2_keys; exact Hall].
Qed.

Lemma timestamp_rows sub :
  (forall key value, dict_get key sub = Some value ->
                     exists timestamp, _transform_datetime value = Ok timestamp) ->
  exists items,
    rmap (timestamp_row (JObj sub)) (map (fun kv => JStr (fst kv)) sub) = Ok items /\
    Forall2 (id_timestamp sub) (map fst sub) items.
Proof.
  intros Hconv.
  destruct (rmap_Forall2 (timestamp_row (JObj sub))
              (fun row item => exists key, row = JStr key /\ id_timestamp sub key item)
              (map (fun kv => JStr (fst kv)) sub)) as (items & Hitems & Hall).
  - intros row Hrow. apply in_map_iff in Hrow as ([k v] & <- & Hin).
    destruct (dict_get_in k sub) as [value Hvalue].
    { apply in_map_iff. exists (k, v). auto. }
    destruct (Hconv _ _ Hvalue) as [timestamp Htime].
    exists (JObj [("id", JStr k); ("timestamp", timestamp)]). cbn [fst].
    split.
    + unfold timestamp_row. cbn [py_subscript]. rewrite Hvalue. cbn [rbind].
      rewrite Htime. reflexivity.
    + exists k. split; [reflexivity|]. exists value, timestamp. auto.
  - exists items. split; [exact Hitems | apply Forall2_keys; exact Hall].
Qed.

(** Either loop of [transform_contact]: [format_row] makes the items [R] of
    every sub-object that satisfies [pre]. *)
Lemma rfold_transform_prop (format_row : json -> json -> result json)
    (pre : list (string * json) -> Prop)
    (R : list (string * json) -> string -> json -> Prop) :
  (forall sub, pre sub ->
     exists items,
       rmap (format_row (JObj sub)) (map (fun kv => JStr (fst kv)) sub) = Ok items /\
       Forall2 (R sub) (map fst sub) items) ->
  forall props fields,
    List.NoDup props ->
    (forall prop value, In prop props -> dict_get prop fields = Some value ->
                        exists sub, value = JObj sub /\ pre sub) ->
    exists fields',
      rfold (transform_prop format_row) props (JObj fields) = Ok (JObj fields') /\
      map fst fields' = map fst fields /\
      forall prop value, dict_get prop fields = Some value ->
        (In prop props ->
         exists sub items, value = JObj sub /\
                           dict_get prop fields' = Some (JArr items) /\
                           Forall2 (R sub) (map fst sub) items) /\
        (~ In prop props -> dict_get prop fields' = Some value).
Proof.
  intros Hrows. induction props as [|p props IH]; intros fields Hnodup Hsub.
  - exists fields. split; [reflexivity|]. split; [reflexivity|].
    intros prop value Hget. split; [contradiction | auto].
  - apply List.NoDup_cons_iff in Hnodup as [Hp Hnodup].
    cbn [rfold]. unfold transform_prop at 1. cbn [py_contains rbind]. unfold dict_mem.
    destruct (dict_get p fields) as [value0|] eqn:Hp0.
    + destruct (Hsub p value0 (or_introl eq_refl) Hp0) as (sub & -> & Hpre).
      destruct (Hrows sub Hpre) as (items & Hitems & Hall).
      cbn [py_getitem rbind]. rewrite Hp0. cbn [rbind py_iter]. rewrite Hitems.
      cbn [rbind py_setitem].
      destruct (IH (dict_set p (JArr items) fields) Hnodup) as (fields' & Hrun & Hkeys & Hspec).
      { intros prop value Hin Hget. apply (Hsub prop value); [right; exact Hin|].
        rewrite dict_get_set_ne in Hget; [exact Hget|].
        intros ->. contradiction. }
      exists fields'. split; [exact Hrun|].
      split; [rewrite Hkeys; eapply dict_set_keys; eassumption|].
      intros prop value Hget.
      destruct (string_dec p prop) as [<-|Hne].
      * rewrite Hp0 in Hget. injection Hget as <-.
        split; [|intros Hnot; exfalso; apply Hnot; left; reflexivity].
        intros _. exists sub, items. split; [reflexivity|]. split; [|exact Hall].
        apply (Hspec p (JArr items) (dict_get_set_eq _ _ _)). exact Hp.
      * rewrite <- (dict_get_set_ne p prop (JArr items) fields Hne) in Hget.
        destruct (Hspec prop value Hget) as [Hin Hout]. split.
        -- intros [->|Hin']; [contradiction | auto].
        -- intros Hnot. apply Hout. intros Hin'. apply Hnot. right. exact Hin'.
    + cbn [rbind].
      destruct (IH fields Hnodup) as (fields' & Hrun & Hkeys & Hspec).
      { intros prop value Hin Hget. apply (Hsub prop value); [right; exact Hin | exact Hget]. }
      exists fields'. split; [exact Hrun|]. split; [exact Hkeys|].
      intros prop value Hget. destruct (Hspec prop value Hget) as [Hin Hout]. split.
      * intros [->|Hin']; [congruence | auto].
      * intros Hnot. apply Hout. intros Hin'. apply Hnot. right. exact Hin'.
Qed.

Lemma props_distinct :
  List.NoDup boolean_props /\ List.NoDup timestamp_props /\
  forall prop, In prop boolean_props -> ~ In prop timestamp_props.
Proof.
  split; [|split].
  - unfold boolean_props. repeat constructor; cbn; intuition discriminate.
  - unfold timestamp_props. repeat constructor; cbn; intuition discriminate.
  - unfold boolean_props, timestamp_props. cbn. intros prop Hb Ht.
    repeat (destruct Hb as [<-|Hb]; [intuition discriminate|]). exact Hb.
Qed.

(** C9. On a contact whose boolean-keyed and timestamp-keyed properties, where
    present, are sub-objects, the timestamps being values that singer can
    convert: the transform keeps the keys of the contact and their order;
    each boolean-keyed property becomes the array of the pairs
    [{url: key, value: value}] of its entries, each timestamp-keyed property
    the array of the pairs [{id: key, timestamp: t}], [t] being the entry's
    value converted from Unix milliseconds, one item per key and in the order
    of the keys; every other property is left as it was. *)
Theorem transform_contact_converts fields :
  (forall prop value,
     In prop boolean_props -> dict_get prop fields = Some value ->
     exists sub, value = JObj sub) ->
  (forall prop value,
     In prop timestamp_props -> dict_get prop fields = Some value ->
     exists sub, value = JObj sub /\
                 forall key v, dict_get key sub = Some v ->
                               exists timestamp, _transform_datetime v = Ok timestamp) ->
  exists fields',
    transform_contact (JObj fields) = Ok (JObj fields') /\
    map fst fields' = map fst fields /\
    forall prop value, dict_get prop fields = Some value ->
      (In prop boolean_props ->
       exists sub items, value = JObj sub /\
                         dict_get prop fields' = Some (JArr items) /\
                         Forall2 (url_value sub) (map fst sub) items) /\
      (In prop timestamp_props ->
       exists sub items, value = JObj sub /\
                         dict_get prop fields' = Some (JArr items) /\
                         Forall2 (id_timestamp sub) (map fst sub) items) /\
      (~ In prop boolean_props -> ~ In prop timestamp_props ->
       dict_get prop fields' = Some value).
Proof.
  intros Hbool Htime.
  destruct props_distinct as (Hnb & Hnt & Hdisj).
  destruct (rfold_transform_prop boolean_row (fun _ => True) url_value
              (fun sub _ => boolean_rows sub) boolean_props fields Hnb)
    as (fields1 & Hrun1 & Hkeys1 & Hspec1).
  { intros prop value Hin Hget. destruct (Hbool prop value Hin Hget) as [sub ->]. eauto. }
  assert (Hback : forall prop value,
            dict_get prop fields1 = Some value -> ~ In prop boolean_props ->
            dict_get prop fields = Some value).
  { intros prop value Hget Hnot.
    destruct (dict_get prop fields) as [value0|] eqn:Hget0.
    - destruct (Hspec1 prop value0 Hget0) as [_ Hout]. rewrite (Hout Hnot) in Hget.
      exact Hget.
    - rewrite (dict_get_keys _ _ _ Hkeys1 Hget0) in Hget. discriminate. }
  destruct (rfold_transform_prop timestamp_row
              (fun sub => forall key v, dict_get key sub = Some v ->
                                        exists timestamp, _transform_datetime v = Ok timestamp)
              id_timestamp timestamp_rows timestamp_props fields1 Hnt)
    as (fields2 & Hrun2 & Hkeys2 & Hspec2).
  { intros prop value Hin Hget. apply (Htime prop value Hin).
    apply Hback; [exact Hget|]. intros Hb. exact (Hdisj prop Hb Hin). }
  exists fields2. split.
  { unfold transform_contact. rewrite Hrun1. cbn [rbind]. exact Hrun2. }
  split; [congruence|].
  intros prop value Hget. destruct (Hspec1 prop value Hget) as [Hin1 Hout1].
  split; [|split].
  - intros Hb. destruct (Hin1 Hb) as (sub & items & -> & Hget1 & Hall).
    exists sub, items. split; [reflexivity|]. split; [|exact Hall].
    apply (Hspec2 prop (JArr items) Hget1). exact (Hdisj prop Hb).
  - intros Ht.
    assert (Hnb' : ~ In prop boolean_props) by (intros Hb; exact (Hdisj prop Hb Ht)).
    apply (Hspec2 prop value (Hout1 Hnb')). exact Ht.
  - intros Hnb' Hnt'. apply (Hspec2 prop value (Hout1 Hnb')). exact Hnt'.
Qed.

End Transform.

Section Dispatcher.
Context {E : Env}.

Lemma dropwhile_first {A} (p : A -> bool) before x after :
  Forall (fun y => p y = true) before -> p x = false ->
  dropwhile p (before ++ x :: after) = x :: after.
Proof.
  intros Hbefore Hx. induction Hbefore as [|y before Hy _ IH]; cbn.
  - rewrite Hx. reflexivity.
  - rewrite Hy. exact IH.
Qed.

Lemma dropwhile_all {A} (p : A -> bool) l :
  Forall (fun y => p y = true) l -> dropwhile p l = [].
Proof.
  intros H. induction H as [|y l Hy _ IH]; cbn; [reflexivity|].
  rewrite Hy. exact IH.
Qed.

(** Resuming: the catalog from the first stream of the marked name on. *)
Lemma get_streams_to_sync_resumes streams state name before stream after :
  named (currently_syncing state) = Some name ->
  streams = before ++ stream :: after ->
  tap_stream_id stream = name ->
  Forall (fun x => tap_stream_id x <> name) before ->
  get_streams_to_sync streams state = Ok (stream :: after).
Proof.
  intros Hnamed -> Hid Hbefore. unfold get_streams_to_sync. rewrite Hnamed.
  rewrite dropwhile_first; [reflexivity | |].
  - eapply Forall_impl; [exact Hbefore|]. intros x Hx. cbn beta.
    apply negb_true_iff, String.eqb_neq. exact Hx.
  - apply negb_false_iff, String.eqb_eq. exact Hid.
Qed.

(** No marker: the whole catalog, when there is one. *)
Lemma get_streams_to_sync_from_start streams state :
  named (currently_syncing state) = None ->
  streams <> [] ->
  get_streams_to_sync streams state = Ok streams.
Proof.
  intros Hnamed Hne. unfold get_streams_to_sync. rewrite Hnamed.
  destruct streams; [contradiction | reflexivity].
Qed.

(** A marker that names no stream of the catalog: the error, and a sync that
    stops before it writes or fetches anything. *)
Lemma get_streams_to_sync_unknown fuel streams state name s :
  named (currently_syncing state) = Some name ->
  Forall (fun x => tap_stream_id x <> name) streams ->
  get_streams_to_sync streams state = Err (unknown_stream (currently_syncing state)) /\
  do_sync fuel state streams s = (Raise (unknown_stream (currently_syncing state)), s).
Proof.
  intros Hnamed Habsent.
  assert (Hget : get_streams_to_sync streams state
                 = Err (unknown_stream (currently_syncing state))).
  { unfold get_streams_to_sync. rewrite Hnamed. rewrite dropwhile_all; [reflexivity|].
    eapply Forall_impl; [exact Habsent|]. intros x Hx. cbn beta.
    apply negb_true_iff, String.eqb_neq. exact Hx. }
  split; [exact Hget|]. unfold do_sync, bind. rewrite Hget. reflexivity.
Qed.

(** X23. On a catalog that is not empty: when the state marks a
    stream as currently syncing and the catalog has a stream of that name,
    the dispatcher goes on with the catalog from the first such stream, the
    streams before it being dropped; when the state marks none (no marker, or
    one that Python takes for false), with the whole catalog; when the
    catalog has no stream of the marked name, the sync raises the
    unknown-stream error before it writes or fetches anything. *)
Theorem get_streams_to_sync_resumes_or_starts fuel streams state s :
  streams <> [] ->
  match named (currently_syncing state) with
  | None => get_streams_to_sync streams state = Ok streams
  | Some name =>
      (forall before stream after,
         streams = before ++ stream :: after ->
         tap_stream_id stream = name ->
         Forall (fun x => tap_stream_id x <> name) before ->
         get_streams_to_sync streams state = Ok (stream :: after)) /\
      (Forall (fun x => tap_stream_id x <> name) streams ->
       get_streams_to_sync streams state = Err (unknown_stream (currently_syncing state)) /\
       do_sync fuel state streams s = (Raise (unknown_stream (currently_syncing state)), s))
  end.
Proof.
  intros Hne. destruct (named (currently_syncing state)) as [name|] eqn:Hnamed.
  - split.
    + intros before stream after Hsplit Hid Hbefore.
      eapply get_streams_to_sync_resumes; eassumption.
    + intros Habsent. apply get_streams_to_sync_unknown with (name := name); assumption.
  - apply get_streams_to_sync_from_start; assumption.
Qed.

(** C10. The sync of a stream other than [contacts] runs a routine that is not
    given the state (that of lists, of smart segments or of their contacts, or
    nothing for any other stream) and then returns the state that it was
    passed: when it returns, it returns that very state. *)
Theorem sync_returns_the_state_unless_contacts fuel stream :
  tap_stream_id stream <> "contacts" ->
  exists routine : M unit,
    In routine [sync_lists fuel stream; sync_smart_segments fuel stream;
                sync_smart_segment_contacts fuel stream; ret tt] /\
    (forall state, sync fuel state stream = (run routine in ret state)) /\
    (forall state s state' s',
       sync fuel state stream s = (Done state', s') -> state' = state).
Proof.
  intros Hid. apply String.eqb_neq in Hid.
  assert (Hsync : exists routine : M unit,
            In routine [sync_lists fuel stream; sync_smart_segments fuel stream;
                        sync_smart_segment_contacts fuel stream; ret tt] /\
            forall state, sync fuel state stream = (run routine in ret state)).
  { unfold sync. rewrite Hid.
    destruct (String.eqb (tap_stream_id stream) "lists");
      [eexists; split; [left; reflexivity | reflexivity]|].
    destruct (String.eqb (tap_stream_id stream) "smart_segments");
      [eexists; split; [right; left; reflexivity | reflexivity]|].
    destruct (String.eqb (tap_stream_id stream) "smart_segments_contacts");
      [eexists; split; [right; right; left; reflexivity | reflexivity]|].
    exists (ret tt). split; [right; right; right; left; reflexivity | reflexivity]. }
  destruct Hsync as (routine & Hin & Heq). exists routine.
  split; [exact Hin|]. split; [exact Heq|].
  intros state s state' s'. rewrite Heq. unfold bind.
  destruct (routine s) as [[[]|e|] s1]; [|discriminate|discriminate].
  intros [= <- _]. reflexivity.
Qed.

End Dispatcher.

(** * Further properties *)

Section UrlProperties.
Context {E : Env}.

Lemma take_string_append s x : take_string (String.length s) (s +:+ x) = s.
Proof.
  induction s as [|a s IH]; cbn [String.length take_string].
  - destruct x; reflexivity.
  - rewrite append_cons. cbn [take_string]. rewrite IH. reflexivity.
Qed.

Lemma length_append s x : String.length (s +:+ x) = String.length s + String.length x.
Proof.
  induction s as [|a s IH]; [reflexivity|].
  rewrite append_cons. cbn [String.length]. rewrite IH. reflexivity.
Qed.

Lemma append_empty s : s +:+ EmptyString = s.
Proof.
  induction s as [|a s IH]; [reflexivity|]. rewrite append_cons, IH. reflexivity.
Qed.

Lemma starts_with_append p s x : starts_with p s = true -> starts_with p (s +:+ x) = true.
Proof.
  revert s. induction p as [|a p IH]; intros s; [reflexivity|].
  destruct s as [|b s]; [discriminate|]. rewrite append_cons. cbn [starts_with].
  destruct (Ascii.eqb a b); [apply IH | discriminate].
Qed.

Lemma contains_append p s x : contains p s = true -> contains p (s +:+ x) = true.
Proof.
  induction s as [|b s IH].
  - cbn [contains]. rewrite orb_false_r. intros H.
    destruct p; [destruct x; reflexivity | discriminate].
  - rewrite append_cons. cbn [contains]. intros H.
    apply orb_true_iff in H as [H|H]; apply orb_true_iff.
    + left. apply (starts_with_append _ (String b s)). exact H.
    + right. apply IH. exact H.
Qed.

Lemma no_newline_append s x :
  no_newline s = true -> no_newline x = true -> no_newline (s +:+ x) = true.
Proof.
  intros Hs Hx. induction s as [|a s IH]; [exact Hx|].
  rewrite append_cons. cbn [no_newline] in Hs |- *.
  apply andb_true_iff in Hs as [Ha Hs]. rewrite Ha. apply IH. exact Hs.
Qed.

(** An ASCII letter, digit or underscore is a character of one byte and a
    word character. *)
Lemma plain_is_word a :
  plain a = true -> character (String a EmptyString) = true /\
                    is_word (String a EmptyString) = true.
Proof.
  destruct a as [[] [] [] [] [] [] [] []]; try discriminate; intros _;
    split; reflexivity.
Qed.

Lemma take_word_plain word : plain_word word = true -> take_word word = word.
Proof.
  induction word as [|a w IH]; [reflexivity|]. cbn [plain_word]. intros Hword.
  apply andb_true_iff in Hword as [Ha Hw].
  destruct (plain_is_word _ Ha) as [Hchar Hisword].
  unfold take_word. change (String a w) with (String a EmptyString +:+ w) at 1.
  rewrite (characters_character _ _ Hchar). cbn [word_run]. rewrite Hisword.
  fold (take_word w). rewrite (IH Hw). reflexivity.
Qed.

(** The greedy match takes the last path segment when nothing before it
    breaks the line. *)
Lemma match_tail_last t word :
  no_newline t = true ->
  word <> EmptyString -> plain_word word = true ->
  match_tail (t +:+ "/" +:+ word)
  = Some (String.length t + S (String.length word), word).
Proof.
  intros Ht Hne Hword.
  assert (Htake : take_word word = word) by (apply take_word_plain, Hword).
  assert (Hnone : match_tail word = None).
  { clear Hne Htake. induction word as [|a w IH]; [reflexivity|].
    cbn [plain_word] in Hword. apply andb_true_iff in Hword as [Ha Hw].
    cbn [match_tail]. rewrite (IH Hw).
    destruct (Ascii.eqb a newline); [reflexivity|].
    destruct (Ascii.eqb a "/") eqn:Hslash; [|reflexivity].
    apply Ascii.eqb_eq in Hslash. subst a. discriminate. }
  induction t as [|a t IH].
  - change (EmptyString +:+ "/" +:+ word) with (String "/" word).
    cbn [match_tail]. rewrite Hnone, Htake.
    destruct word; [contradiction | reflexivity].
  - rewrite append_cons. cbn [no_newline] in Ht.
    apply andb_true_iff in Ht as [Ha Ht]. apply negb_true_iff in Ha.
    cbn [match_tail]. rewrite Ha, (IH Ht). reflexivity.
Qed.

Lemma format_segment kwargs :
  format_go kwargs None "/smart_segments/{segment_id}/contacts" =
  match assoc "segment_id" kwargs with
  | Some segment_id => Ok ("/smart_segments/" +:+ segment_id +:+ "/contacts")
  | None => Err (KeyError "segment_id")
  end.
Proof. cbv - [assoc]. destruct (assoc "segment_id" kwargs); reflexivity. Qed.

End UrlProperties.

Section UrlRoundTrip.
Context {E : Env}.

Lemma match_literal_base rest : match_literal BASE_URL (BASE_URL +:+ rest) = Some rest.
Proof. reflexivity. Qed.

Lemma take_string_all s : take_string (String.length s) s = s.
Proof.
  rewrite <- (append_empty s) at 2. apply take_string_append.
Qed.

Lemma segment_contacts_source segment_id :
  no_newline segment_id = true ->
  parse_source_from_url (BASE_URL +:+ "/smart_segments/" +:+ segment_id +:+ "/contacts")
  = Ok "smart_segments_contacts".
Proof.
  intros Hid. unfold parse_source_from_url, url_regex_match.
  rewrite match_literal_base.
  change ("/smart_segments/" +:+ segment_id +:+ "/contacts")
    with (("/smart_segments/" +:+ segment_id) +:+ "/" +:+ "contacts").
  rewrite match_tail_last;
    [| apply (no_newline_append "/smart_segments/"); [reflexivity | exact Hid]
     | discriminate | reflexivity].
  replace (String.length BASE_URL +
           (String.length ("/smart_segments/" +:+ segment_id) + S (String.length "contacts")))
    with (String.length (BASE_URL +:+ ("/smart_segments/" +:+ segment_id) +:+ "/" +:+ "contacts")).
  2:{ rewrite !length_append. reflexivity. }
  rewrite take_string_all.
  change (BASE_URL +:+ ("/smart_segments/" +:+ segment_id) +:+ "/" +:+ "contacts")
    with ((BASE_URL +:+ "/smart_segments/") +:+ segment_id +:+ "/contacts").
  rewrite contains_append; reflexivity.
Qed.

(** X1. The URL that [get_url] builds for an endpoint names that endpoint
    again: [parse_source_from_url] returns the endpoint's own name, for the
    five endpoints and every segment id that holds no newline. *)
Theorem get_url_names_its_source endpoint kwargs url :
  get_url endpoint kwargs = Ok url ->
  (forall segment_id,
     assoc "segment_id" kwargs = Some segment_id -> no_newline segment_id = true) ->
  parse_source_from_url url = Ok endpoint.
Proof.
  unfold get_url. cbn [assoc ENDPOINTS]. intros Hurl Hid.
  repeat match type of Hurl with
         | context [String.eqb endpoint ?name] =>
             destruct (String.eqb endpoint name) eqn:Hname;
               [apply String.eqb_eq in Hname; subst endpoint | clear Hname]
         end;
    try discriminate.
  1-4: injection Hurl as <-; reflexivity.
  rewrite format_segment in Hurl.
  destruct (assoc "segment_id" kwargs) as [segment_id|] eqn:Hseg; [|discriminate].
  injection Hurl as <-. apply segment_contacts_source. apply Hid. reflexivity.
Qed.

(** X2. [get_url] fails in two cases only: on an endpoint that is not one of
    the five, with a [ValueError], and on the contacts of a smart segment
    without a segment id, with the [KeyError] of that argument. *)
Theorem get_url_errors endpoint kwargs e :
  get_url endpoint kwargs = Err e <->
  (assoc endpoint ENDPOINTS = None /\ e = ValueError ("Invalid endpoint " +:+ endpoint)) \/
  (endpoint = "smart_segments_contacts" /\ assoc "segment_id" kwargs = None /\
   e = KeyError "segment_id").
Proof.
  unfold get_url. cbn [assoc ENDPOINTS].
  destruct (String.eqb endpoint "contacts") eqn:H1;
    [apply String.eqb_eq in H1; subst; split; [discriminate | intros [[[=] _]|[[=] _]]]|].
  destruct (String.eqb endpoint "custom_fields") eqn:H2;
    [apply String.eqb_eq in H2; subst; split; [discriminate | intros [[[=] _]|[[=] _]]]|].
  destruct (String.eqb endpoint "lists") eqn:H3;
    [apply String.eqb_eq in H3; subst; split; [discriminate | intros [[[=] _]|[[=] _]]]|].
  destruct (String.eqb endpoint "smart_segments") eqn:H4;
    [apply String.eqb_eq in H4; subst; split; [discriminate | intros [[[=] _]|[[=] _]]]|].
  destruct (String.eqb endpoint "smart_segments_contacts") eqn:H5.
  - apply String.eqb_eq in H5. subst. rewrite format_segment.
    destruct (assoc "segment_id" kwargs) as [segment_id|]; cbn [rbind]; split.
    + discriminate.
    + intros [[[=] _]|(_ & [=] & _)].
    + intros [= <-]. right. auto.
    + intros [[[=] _]|(_ & _ & ->)]. reflexivity.
  - split.
    + intros [= <-]. left. auto.
    + intros [[_ ->]|(-> & _)]; [reflexivity|]. discriminate.
Qed.

(** A run of word characters is a string of word characters. *)
Lemma word_run_all_word cs : all_word (word_run cs) = true.
Proof.
  unfold all_word. induction cs as [|c cs IH]; cbn [word_run]; [reflexivity|].
  destruct (is_word c) eqn:Hc; [|reflexivity].
  rewrite (characters_character _ _ (is_word_character _ Hc)).
  cbn [forallb]. rewrite Hc. exact IH.
Qed.

Lemma match_tail_word s n g :
  match_tail s = Some (n, g) -> g <> EmptyString /\ all_word g = true.
Proof.
  revert n g. induction s as [|a s IH]; intros n g; cbn [match_tail]; [discriminate|].
  destruct (Ascii.eqb a newline); [discriminate|].
  destruct (match_tail s) as [[n' g']|].
  - intros [= _ <-]. eapply IH. reflexivity.
  - destruct (Ascii.eqb a "/"); [|discriminate].
    cbn zeta. destruct (take_word s) as [|b w] eqn:Hw; [discriminate|].
    intros [= _ <-]. split; [discriminate|]. rewrite <- Hw.
    apply word_run_all_word.
Qed.

(** X3. The source that [parse_source_from_url] finds in a URL is never
    empty and holds word characters only: characters that are alphanumeric,
    in ASCII or beyond, or the underscore. *)
Theorem parse_source_is_a_word url source :
  parse_source_from_url url = Ok source ->
  source <> EmptyString /\ all_word source = true.
Proof.
  unfold parse_source_from_url, url_regex_match.
  destruct (match_literal BASE_URL url) as [rest|]; [|discriminate].
  destruct (match_tail rest) as [[n g]|] eqn:Htail; [|discriminate].
  destruct (String.eqb g "contacts" && contains "segment"
              (take_string (String.length BASE_URL + n) url)).
  - intros [= <-]. split; [discriminate | reflexivity].
  - intros [= <-]. eapply match_tail_word. exact Htail.
Qed.

(** X4. A URL in which a source is found is still one with a path segment
    appended, a continuation token for one: [request] does not fail to name
    the source of a page because of the bookmark it appends. *)
Theorem bookmark_keeps_the_url_parsable url bookmark source :
  parse_source_from_url url = Ok source ->
  exists source',
    parse_source_from_url (url +:+ "/" +:+ bookmark) = Ok source' /\
    request_url url {["bookmark" := JStr bookmark]} = Ok (url +:+ "/" +:+ bookmark).
Proof.
  intros Hsrc. destruct (parse_source_append url ("/" +:+ bookmark) source Hsrc) as [source' H].
  exists source'. split; [exact H|].
  unfold request_url. rewrite lookup_singleton_eq. reflexivity.
Qed.

End UrlRoundTrip.

Section FetcherProperties.
Context {E : Env}.

(** X5. A [bookmark] parameter that is not a string makes [request] raise a
    [TypeError] at once: no GET is sent and nothing is retried. *)
Theorem request_rejects_a_bookmark_that_is_no_string url params bookmark s :
  params !! "bookmark" = Some bookmark ->
  (forall text, bookmark <> JStr text) ->
  request url params s =
  (Raise TypeError,
   {| calls := calls s ++ [(url, params)]; gets := gets s;
      pauses := pauses s; out := out s |}).
Proof.
  intros Hbook Hstr. unfold request, bind. cbn [log_call].
  set (s1 := {| calls := calls s ++ [(url, params)]; gets := gets s;
                pauses := pauses s; out := out s |}).
  assert (Hu : request_url url params = Err TypeError).
  { unfold request_url. rewrite Hbook.
    destruct bookmark; try reflexivity. exfalso. eapply Hstr. reflexivity. }
  assert (Hones : request_once url params s1 = (Raise TypeError, s1)).
  { unfold request_once, bind. rewrite Hu. reflexivity. }
  rewrite (on_exception_passes _ _ _ _ _ _ _ _ Hones); [reflexivity | discriminate].
Qed.

Lemma request_once_bookmark_only url params params' s :
  params !! "bookmark" = params' !! "bookmark" ->
  request_once url params s = request_once url params' s.
Proof.
  intros Hsame. unfold request_once, bind, request_url. rewrite Hsame. reflexivity.
Qed.

Lemma request_once_same_wire url params params' s1 s2 :
  params !! "bookmark" = params' !! "bookmark" ->
  same_wire s1 s2 ->
  fst (request_once url params s1) = fst (request_once url params' s2) /\
  same_wire (snd (request_once url params s1)) (snd (request_once url params' s2)).
Proof.
  intros Hsame (Hgets & Hpauses & Hout).
  rewrite (request_once_bookmark_only url params params' s1 Hsame).
  destruct (request_url url params') as [u|e] eqn:Hu.
  - destruct (parse_source_from_url u) as [source|e] eqn:Hsrc.
    + rewrite !(request_once_eq _ _ _ _ _ Hu Hsrc). rewrite Hgets. cbn [fst snd].
      split; [reflexivity|]. unfold same_wire, sent. cbn. rewrite Hgets, Hpauses, Hout. auto.
    + unfold request_once, bind. rewrite Hu. cbn [lift ret]. rewrite Hsrc.
      cbn [lift raise fst snd]. unfold same_wire. auto.
  - unfold request_once, bind. rewrite Hu. cbn [lift raise fst snd]. unfold same_wire. auto.
Qed.

Lemma on_exception_same_wire tries url params params' :
  params !! "bookmark" = params' !! "bookmark" ->
  forall n s1 s2,
    same_wire s1 s2 ->
    fst (on_exception tries n client_error 2 (request_once url params) s1) =
    fst (on_exception tries n client_error 2 (request_once url params') s2) /\
    same_wire (snd (on_exception tries n client_error 2 (request_once url params) s1))
              (snd (on_exception tries n client_error 2 (request_once url params') s2)).
Proof.
  intros Hsame. induction tries as [|tries IH]; intros n s1 s2 Hwire;
    destruct (request_once_same_wire url params params' s1 s2 Hsame Hwire) as [Ho Hw];
    cbn [on_exception];
    destruct (request_once url params s1) as [o1 t1];
    destruct (request_once url params' s2) as [o2 t2];
    cbn [fst snd] in Ho, Hw; subst o2.
  - destruct o1 as [a|[]|]; auto.
  - destruct o1 as [a|[]|]; auto.
    destruct tries as [|tries']; [auto|].
    destruct (client_error response); [auto|].
    unfold bind. cbn [sleep]. apply IH.
    destruct Hw as (Hg & Hp & Ho). unfold same_wire. cbn. rewrite Hg, Hp, Ho. auto.
Qed.

(** X6. Of its parameters [request] uses the bookmark alone, and that in the
    path of the URL: two calls whose parameters have the same bookmark get the
    same result, send the same GETs and pause alike; no parameter is sent as
    a query. *)
Theorem request_uses_the_bookmark_only url params params' s :
  params !! "bookmark" = params' !! "bookmark" ->
  fst (request url params s) = fst (request url params' s) /\
  gets (snd (request url params s)) = gets (snd (request url params' s)) /\
  pauses (snd (request url params s)) = pauses (snd (request url params' s)) /\
  out (snd (request url params s)) = out (snd (request url params' s)).
Proof.
  intros Hsame. unfold request, bind. cbn [log_call].
  apply on_exception_same_wire; [exact Hsame|].
  unfold same_wire. cbn. auto.
Qed.

(** X7. A failure that is not a client error (no response, a status of 500
    or more, or 408) followed by a success: [request] pauses once, for at
    most 2 seconds, sends a second GET of the same URL and returns its
    response. *)
Theorem request_retries_a_transient_failure url params u source response resp s :
  request_url url params = Ok u ->
  parse_source_from_url u = Ok source ->
  failure (server (length (gets s))) = Some response ->
  client_error response = false ->
  server (length (gets s) + 1) = Reply resp ->
  failure (Reply resp) = None ->
  request url params s =
  (Done resp,
   {| calls := calls s ++ [(url, params)];
      gets := gets s ++ [(u, headers); (u, headers)];
      pauses := pauses s ++ [2%Z]; out := out s |}).
Proof.
  intros Hu Hsrc Hfirst Hce Hsecond Hok. unfold request, bind. cbn [log_call].
  set (s1 := {| calls := calls s ++ [(url, params)]; gets := gets s;
                pauses := pauses s; out := out s |}).
  destruct (on_exception_request url params u source 5 0 s1 Hu Hsrc)
    as (k & o & t & Hrun & Hk & Hcalls & Hout & Hgets & Hpauses & Hbefore & Hlast); [lia|].
  rewrite Hrun. cbn [gets s1] in *.
  assert (Hk2 : k = 2).
  { destruct k as [|[|[|k]]]; [lia | exfalso | reflexivity | exfalso].
    - cbn [Nat.sub] in Hlast. rewrite Nat.add_0_r, Hfirst in Hlast.
      destruct Hlast as [_ [Hc|Hc]]; [congruence | lia].
    - destruct (Hbefore 1) as (r & Hf & _); [lia|]. rewrite Hsecond, Hok in Hf.
      discriminate. }
  subst k. cbn [Nat.sub] in Hlast. rewrite Hsecond, Hok in Hlast.
  destruct Hlast as (resp' & [= <-] & ->).
  f_equal. destruct t as [c g p o]. cbn in Hcalls, Hout, Hgets, Hpauses. subst.
  reflexivity.
Qed.

Lemma request_client_error url params u source response s :
  request_url url params = Ok u ->
  parse_source_from_url u = Ok source ->
  failure (server (length (gets s))) = Some response ->
  client_error response = true ->
  request url params s =
  (Raise (RequestException response),
   {| calls := calls s ++ [(url, params)]; gets := gets s ++ [(u, headers)];
      pauses := pauses s; out := out s |}).
Proof.
  intros Hu Hsrc Hfirst Hce. unfold request, bind. cbn [log_call].
  set (s1 := {| calls := calls s ++ [(url, params)]; gets := gets s;
                pauses := pauses s; out := out s |}).
  destruct (on_exception_request url params u source 5 0 s1 Hu Hsrc)
    as (k & o & t & Hrun & Hk & Hcalls & Hout & Hgets & Hpauses & Hbefore & Hlast); [lia|].
  rewrite Hrun. cbn [gets s1] in *.
  assert (Hk1 : k = 1).
  { destruct k as [|[|k]]; [lia | reflexivity | exfalso].
    destruct (Hbefore 0) as (r & Hf & Hr); [lia|]. rewrite Nat.add_0_r, Hfirst in Hf.
    congruence. }
  subst k. cbn [Nat.sub] in Hlast. rewrite Nat.add_0_r, Hfirst in Hlast.
  destruct Hlast as [-> _].
  f_equal. destruct t as [c g p o]. cbn in Hcalls, Hout, Hgets, Hpauses. subst.
  rewrite app_nil_r. reflexivity.
Qed.

(** X8. A client error at the first attempt: [request] raises it after that
    single GET, without a pause. *)
Theorem request_gives_up_on_a_client_error url params u source response s :
  request_url url params = Ok u ->
  parse_source_from_url u = Ok source ->
  failure (server (length (gets s))) = Some response ->
  client_error response = true ->
  request url params s =
  (Raise (RequestException response),
   {| calls := calls s ++ [(url, params)]; gets := gets s ++ [(u, headers)];
      pauses := pauses s; out := out s |}).
Proof. apply request_client_error. Qed.

(** X9. Five failures in a row, none of them a client error: [request] sends
    five GETs, pauses for at most 2, 4, 8 and 16 seconds between them, and
    raises the fifth failure; it does not send a sixth GET. *)
Theorem request_stops_after_five_attempts url params u source s :
  request_url url params = Ok u ->
  parse_source_from_url u = Ok source ->
  (forall i, i < 5 ->
     exists response, failure (server (length (gets s) + i)) = Some response /\
                      client_error response = false) ->
  exists response,
    failure (server (length (gets s) + 4)) = Some response /\
    request url params s =
    (Raise (RequestException response),
     {| calls := calls s ++ [(url, params)];
        gets := gets s ++ repeat (u, headers) 5;
        pauses := pauses s ++ [2; 4; 8; 16]%Z; out := out s |}).
Proof.
  intros Hu Hsrc Hfail. unfold request, bind. cbn [log_call].
  set (s1 := {| calls := calls s ++ [(url, params)]; gets := gets s;
                pauses := pauses s; out := out s |}).
  destruct (on_exception_request url params u source 5 0 s1 Hu Hsrc)
    as (k & o & t & Hrun & Hk & Hcalls & Hout & Hgets & Hpauses & Hbefore & Hlast); [lia|].
  rewrite Hrun. cbn [gets s1] in *.
  destruct (Hfail (k - 1)) as (response & Hf & Hce); [lia|].
  rewrite Hf in Hlast. destruct Hlast as [-> [Hc | ->]]; [congruence|].
  exists response. split; [exact Hf|].
  f_equal. destruct t as [c g p o]. cbn in Hcalls, Hout, Hgets, Hpauses. subst.
  reflexivity.
Qed.

End FetcherProperties.

Section PaginationProperties.
Context {E : Env}.

(** X10. A first page that is an object without the accessor key of the
    source: [gen_request] raises the [KeyError] of that key after this one
    fetch, and the consuming loop does not run. *)
Theorem gen_request_needs_the_accessor_key {A} fuel endpoint source params
    (body : json -> A -> M A) acc s data :
  parse_source_from_url endpoint = Ok source ->
  params_ok params ->
  delivers (server (length (gets s))) (JObj data) ->
  dict_get (parse_key_from_source source) data = None ->
  gen_request (S fuel) endpoint params body acc s =
  (Raise (KeyError (parse_key_from_source source)),
   fetched endpoint params (url_for endpoint params) s).
Proof.
  intros Hsrc Hok (status & Hsrv & Hfail) Hkey.
  destruct (params_ok_fetchable _ _ _ Hsrc Hok) as (source' & Hparse & Hurl).
  rewrite Hsrv in Hfail.
  unfold gen_request, bind. rewrite Hsrc. cbn [lift ret gen_request_loop].
  unfold bind at 1.
  rewrite (request_first_try _ _ _ _ _ _ Hurl Hparse Hsrv Hfail).
  unfold bind at 1. cbn [resp_json payload lift ret].
  destruct (contains "contact" source).
  - unfold bind at 1. unfold bind at 1. cbn [py_contains lift ret]. unfold dict_mem.
    destruct (dict_get "bookmark" data) as [bookmark|] eqn:Hb.
    + unfold bind at 1. cbn [py_getitem lift]. rewrite Hb. cbn [lift ret].
      unfold bind at 1. cbn [py_getitem lift]. rewrite Hkey. reflexivity.
    + cbn [ret]. unfold bind at 1. cbn [py_getitem lift]. rewrite Hkey. reflexivity.
  - unfold bind at 1. cbn [ret]. unfold bind at 1. cbn [py_getitem lift].
    rewrite Hkey. reflexivity.
Qed.

(** The paged run again, asking of the bookmarks only what the fetches
    need. *)
Lemma gen_request_loop_paged_trace {A} endpoint source source0 (body : json -> A -> M A)
    pages rows :
  parse_source_from_url endpoint = Ok source0 ->
  (forall row a, framed (body row a)) ->
  paged (parse_key_from_source source) pages rows ->
  forall fuel params acc s a t,
    Forall params_ok (params_trace source params pages) ->
    serves (length (gets s)) pages ->
    length pages <= fuel ->
    for_each rows body acc s = (Done a, t) ->
    gen_request_loop fuel endpoint source (parse_key_from_source source) params body acc s =
    (Done a,
     {| calls := calls s ++ map (pair endpoint) (params_trace source params pages);
        gets := gets s ++ map (fun p => (url_for endpoint p, headers))
                            (params_trace source params pages);
        pauses := pauses s;
        out := out t |}).
Proof.
  intros Hsrc Hbody Hpaged.
  induction Hpaged as [page rows Hrows Hshort | page rows pages rest Hrows Hfull Hpaged IH];
    intros fuel params acc s a t Hok Hserves Hfuel Hrun;
    cbn [params_trace] in Hok; inversion Hok as [|? ? Hok1 Hok']; subst.
  - destruct fuel as [|fuel]; [cbn in Hfuel; lia|].
    rewrite (gen_request_loop_page _ _ _ _ _ _ _ _ _ _ Hsrc Hok1 (serves_head _ _ _ Hserves) Hrows).
    unfold bind. rewrite fetched_with_out.
    rewrite (framed_run _ _ _ _ _ (framed_for_each _ _ _ Hbody) Hrun).
    apply Nat.ltb_lt in Hshort. rewrite Hshort. reflexivity.
  - destruct fuel as [|fuel]; [cbn in Hfuel; lia|].
    rewrite (gen_request_loop_page _ _ _ _ _ _ _ _ _ _ Hsrc Hok1 (serves_head _ _ _ Hserves) Hrows).
    rewrite for_each_app in Hrun. unfold bind in Hrun.
    destruct (for_each rows body acc s) as [[a1|e|] t1] eqn:Hrun1; try discriminate.
    unfold bind. rewrite fetched_with_out.
    rewrite (framed_run _ _ _ _ _ (framed_for_each _ _ _ Hbody) Hrun1).
    apply Nat.ltb_ge in Hfull. rewrite Hfull.
    rewrite (IH fuel (next_params source page params) a1 _ a
               (with_out (fetched endpoint params (url_for endpoint params) s) t)).
    + cbn [calls gets pauses out with_out fetched params_trace map].
      rewrite <- !app_assoc. reflexivity.
    + assumption.
    + cbn [gets with_out fetched]. rewrite length_app, Nat.add_1_r.
      eapply serves_tail; eassumption.
    + cbn in Hfuel. lia.
    + apply (framed_run _ _ _ _ _ (framed_for_each _ _ _ Hbody) Hrun).
Qed.

Lemma params_trace_plain source params pages :
  contains "contact" source = false ->
  params_trace source params pages = repeat params (length pages).
Proof.
  intros Hplain. revert params.
  induction pages as [|page pages IH]; intros params; [reflexivity|].
  cbn [params_trace length repeat]. unfold next_params. rewrite Hplain, IH. reflexivity.
Qed.

Lemma map_repeat {A B} (f : A -> B) x n : map f (repeat x n) = repeat (f x) n.
Proof. induction n as [|n IH]; [reflexivity|]. cbn. rewrite IH. reflexivity. Qed.

(** X11. A resource whose identity does not contain "contact" is not paged by
    a cursor: every fetch of a run repeats the first request, with the initial
    parameters and the same URL, whatever tokens the pages carry. *)
Theorem plain_pages_repeat_the_request fuel endpoint source params s pages rows :
  parse_source_from_url endpoint = Ok source ->
  contains "contact" source = false ->
  params_ok params ->
  paged (parse_key_from_source source) pages rows ->
  serves (length (gets s)) pages ->
  length pages <= fuel ->
  gen_request_list fuel endpoint params s =
  (Done rows,
   {| calls := calls s ++ repeat (endpoint, params) (length pages);
      gets := gets s ++ repeat (url_for endpoint params, headers) (length pages);
      pauses := pauses s; out := out s |}).
Proof.
  intros Hsrc Hplain Hok Hpaged Hserves Hfuel.
  unfold gen_request_list, gen_request, bind. rewrite Hsrc. cbn [lift ret].
  rewrite (gen_request_loop_paged_trace endpoint source source collect pages rows Hsrc
             (fun row a => framed_ret _) Hpaged fuel params [] s rows s).
  - rewrite (params_trace_plain _ _ _ Hplain), !map_repeat. reflexivity.
  - rewrite (params_trace_plain _ _ _ Hplain). apply Forall_forall.
    intros p Hp. apply list_elem_of_In, repeat_spec in Hp. subst p. exact Hok.
  - exact Hserves.
  - exact Hfuel.
  - apply for_each_collect.
Qed.

End PaginationProperties.

Section FullRefresh.
Context {E : Env}.

Lemma for_each_write_record name rows s :
  for_each rows (fun row (_ : unit) => write_record name row) tt s =
  (Done tt, wrote (map (RecordMessage name) rows) s).
Proof.
  revert s. induction rows as [|row rows IH]; intros s; cbn [for_each map].
  - unfold wrote. rewrite app_nil_r. destruct s; reflexivity.
  - unfold bind, write_record. cbn [emit]. rewrite IH. unfold wrote. cbn.
    rewrite <- app_assoc. reflexivity.
Qed.

Lemma lists_url :
  get_url "lists" [] = Ok "https://api2.autopilothq.com/v1/lists" /\
  parse_source_from_url "https://api2.autopilothq.com/v1/lists" = Ok "lists" /\
  parse_key_from_source "lists" = "lists" /\
  contains "contact" "lists" = false.
Proof. repeat split; vm_compute; reflexivity. Qed.

Lemma smart_segments_url :
  get_url "smart_segments" [] = Ok "https://api2.autopilothq.com/v1/smart_segments" /\
  parse_source_from_url "https://api2.autopilothq.com/v1/smart_segments"
    = Ok "smart_segments" /\
  parse_key_from_source "smart_segments" = "segments" /\
  contains "contact" "smart_segments" = false.
Proof. repeat split; vm_compute; reflexivity. Qed.

(** A full refresh of a resource without cursor: the schema, then every
    record of every page. *)
Lemma full_refresh fuel endpoint source name (key_schema : message) s pages rows :
  parse_source_from_url endpoint = Ok source ->
  contains "contact" source = false ->
  paged (parse_key_from_source source) pages rows ->
  serves (length (gets s)) pages ->
  length pages <= fuel ->
  (run emit key_schema in
   gen_request fuel endpoint ∅ (fun row _ => write_record name row) tt) s =
  (Done tt,
   {| calls := calls s ++ repeat (endpoint, ∅) (length pages);
      gets := gets s ++ repeat (endpoint, headers) (length pages);
      pauses := pauses s;
      out := out s ++ key_schema :: map (RecordMessage name) rows |}).
Proof.
  intros Hsrc Hplain Hpaged Hserves Hfuel.
  unfold bind at 1. cbn [emit]. unfold gen_request, bind. rewrite Hsrc. cbn [lift ret].
  set (s1 := {| calls := calls s; gets := gets s; pauses := pauses s;
                out := out s ++ [key_schema] |}).
  rewrite (gen_request_loop_paged_trace endpoint source source
             (fun row (_ : unit) => write_record name row) pages rows Hsrc
             (fun row a => framed_emit _) Hpaged fuel ∅ tt s1 tt
             (wrote (map (RecordMessage name) rows) s1)).
  - rewrite (params_trace_plain _ _ _ Hplain), !map_repeat.
    unfold wrote, s1. cbn. rewrite <- app_assoc. reflexivity.
  - rewrite (params_trace_plain _ _ _ Hplain). apply Forall_forall.
    intros p Hp. apply list_elem_of_In, repeat_spec in Hp. subst p. exact I.
  - exact Hserves.
  - exact Hfuel.
  - apply for_each_write_record.
Qed.

(** X12. A sync of the lists over a paged sequence of pages writes the schema
    with the key [list_id] and then every list of every page, in order, as a
    record; it makes one fetch per page. *)
Theorem sync_lists_writes_every_list fuel stream s pages rows :
  paged "lists" pages rows ->
  serves (length (gets s)) pages ->
  length pages <= fuel ->
  sync_lists fuel stream s =
  (Done tt,
   {| calls := calls s ++ repeat ("https://api2.autopilothq.com/v1/lists", ∅) (length pages);
      gets := gets s ++ repeat ("https://api2.autopilothq.com/v1/lists", headers)
                          (length pages);
      pauses := pauses s;
      out := out s ++ SchemaMessage "lists" (schema stream) (JArr [JStr "list_id"])
                   :: map (RecordMessage "lists") rows |}).
Proof.
  intros Hpaged Hserves Hfuel. destruct lists_url as (Hurl & Hsrc & Hkey & Hplain).
  unfold sync_lists. unfold bind at 1. cbn [emit]. unfold bind at 1.
  rewrite Hurl. cbn [lift ret].
  rewrite <- Hkey in Hpaged.
  pose proof (full_refresh fuel _ _ "lists"
                (SchemaMessage "lists" (schema stream) (JArr [JStr "list_id"]))
                s pages rows Hsrc Hplain Hpaged Hserves Hfuel) as H.
  unfold bind at 1 in H. cbn [emit] in H. exact H.
Qed.

(** X13. A sync of the smart segments reads the records of a page under the
    key [segments], not under the name of the stream, and writes the schema
    with the key [segment_id] and then every segment of every page. *)
Theorem sync_smart_segments_writes_every_segment fuel stream s pages rows :
  paged "segments" pages rows ->
  serves (length (gets s)) pages ->
  length pages <= fuel ->
  sync_smart_segments fuel stream s =
  (Done tt,
   {| calls := calls s ++ repeat ("https://api2.autopilothq.com/v1/smart_segments", ∅)
                            (length pages);
      gets := gets s ++ repeat ("https://api2.autopilothq.com/v1/smart_segments", headers)
                          (length pages);
      pauses := pauses s;
      out := out s ++ SchemaMessage "smart_segments" (schema stream)
                        (JArr [JStr "segment_id"])
                   :: map (RecordMessage "smart_segments") rows |}).
Proof.
  intros Hpaged Hserves Hfuel.
  destruct smart_segments_url as (Hurl & Hsrc & Hkey & Hplain).
  unfold sync_smart_segments. unfold bind at 1. cbn [emit]. unfold bind at 1.
  rewrite Hurl. cbn [lift ret].
  rewrite <- Hkey in Hpaged.
  pose proof (full_refresh fuel _ _ "smart_segments"
                (SchemaMessage "smart_segments" (schema stream) (JArr [JStr "segment_id"]))
                s pages rows Hsrc Hplain Hpaged Hserves Hfuel) as H.
  unfold bind at 1 in H. cbn [emit] in H. exact H.
Qed.

Lemma params_ok_empty : params_ok ∅.
Proof. unfold params_ok. rewrite lookup_empty. exact I. Qed.

Lemma request_url_empty endpoint : request_url endpoint ∅ = Ok endpoint.
Proof. unfold request_url. rewrite lookup_empty. reflexivity. Qed.

(** A run over full pages that a client error ends. *)
Lemma gen_request_loop_breaks {A} endpoint source (body : json -> A -> M A) fulls rows :
  parse_source_from_url endpoint = Ok source ->
  contains "contact" source = false ->
  (forall row a, framed (body row a)) ->
  full_pages (parse_key_from_source source) fulls rows ->
  forall fuel acc s a t response,
    serves (length (gets s)) fulls ->
    failure (server (length (gets s) + length fulls)) = Some response ->
    client_error response = true ->
    length fulls < fuel ->
    for_each rows body acc s = (Done a, t) ->
    gen_request_loop fuel endpoint source (parse_key_from_source source) ∅ body acc s =
    (Raise (RequestException response),
     {| calls := calls s ++ repeat (endpoint, ∅) (S (length fulls));
        gets := gets s ++ repeat (endpoint, headers) (S (length fulls));
        pauses := pauses s;
        out := out t |}).
Proof.
  intros Hsrc Hplain Hbody Hfull.
  induction Hfull as [|page rows pages rest Hrows Hlen Hfull IH];
    intros fuel acc s a t response Hserves Hfail Hce Hfuel Hrun;
    (destruct fuel as [|fuel]; [cbn in Hfuel; lia|]).
  - cbn [for_each] in Hrun. injection Hrun as <- <-.
    cbn [length] in Hfail. rewrite Nat.add_0_r in Hfail.
    cbn [gen_request_loop]. unfold bind at 1.
    rewrite (request_client_error endpoint ∅ endpoint source response s
               (request_url_empty endpoint) Hsrc Hfail Hce).
    reflexivity.
  - rewrite (gen_request_loop_page _ _ _ _ _ _ _ _ _ _ Hsrc params_ok_empty
               (serves_head _ _ _ Hserves) Hrows).
    rewrite for_each_app in Hrun. unfold bind in Hrun.
    destruct (for_each rows body acc s) as [[a1|e|] t1] eqn:Hrun1; try discriminate.
    unfold bind. rewrite fetched_with_out.
    rewrite (framed_run _ _ _ _ _ (framed_for_each _ _ _ Hbody) Hrun1).
    apply Nat.ltb_ge in Hlen. rewrite Hlen.
    unfold next_params. rewrite Hplain.
    rewrite (IH fuel a1 _ a
               (with_out (fetched endpoint ∅ (url_for endpoint ∅) s) t) response).
    + cbn [calls gets pauses out with_out fetched repeat length].
      rewrite <- !app_assoc. reflexivity.
    + cbn [gets with_out fetched]. rewrite length_app, Nat.add_1_r.
      eapply serves_tail; eassumption.
    + cbn [gets with_out fetched]. rewrite length_app. cbn [length] in Hfail |- *.
      replace (length (gets s) + 1 + length pages)
        with (length (gets s) + S (length pages)) by lia. exact Hfail.
    + exact Hce.
    + cbn in Hfuel. lia.
    + apply (framed_run _ _ _ _ _ (framed_for_each _ _ _ Hbody) Hrun).
Qed.

(** X14. A sync is not atomic: when the fetch that follows some full pages of
    lists fails with a client error, the sync raises that error, and the
    schema and the records of the pages fetched so far stay written. *)
Theorem sync_lists_keeps_what_it_wrote fuel stream s fulls rows response :
  full_pages "lists" fulls rows ->
  serves (length (gets s)) fulls ->
  failure (server (length (gets s) + length fulls)) = Some response ->
  client_error response = true ->
  length fulls < fuel ->
  sync_lists fuel stream s =
  (Raise (RequestException response),
   {| calls := calls s ++ repeat ("https://api2.autopilothq.com/v1/lists", ∅)
                            (S (length fulls));
      gets := gets s ++ repeat ("https://api2.autopilothq.com/v1/lists", headers)
                          (S (length fulls));
      pauses := pauses s;
      out := out s ++ SchemaMessage "lists" (schema stream) (JArr [JStr "list_id"])
                   :: map (RecordMessage "lists") rows |}).
Proof.
  intros Hfull Hserves Hfail Hce Hfuel.
  destruct lists_url as (Hurl & Hsrc & Hkey & Hplain).
  unfold sync_lists. unfold bind at 1. cbn [emit]. unfold bind at 1.
  rewrite Hurl. cbn [lift ret]. unfold gen_request, bind. rewrite Hsrc. cbn [lift ret].
  rewrite <- Hkey in Hfull.
  set (s1 := {| calls := calls s; gets := gets s; pauses := pauses s;
                out := out s ++ [SchemaMessage "lists" (schema stream)
                                   (JArr [JStr "list_id"])] |}).
  rewrite (gen_request_loop_breaks _ _ (fun row (_ : unit) => write_record "lists" row)
             fulls rows Hsrc Hplain (fun row a => framed_emit _) Hfull
             fuel tt s1 tt (wrote (map (RecordMessage "lists") rows) s1) response
             Hserves Hfail Hce Hfuel (for_each_write_record _ _ _)).
  unfold wrote, s1. cbn. rewrite <- app_assoc. reflexivity.
Qed.

End FullRefresh.

Section SegmentContacts.
Context {E : Env}.

Lemma segment_contacts_url segment_id :
  get_url "smart_segments_contacts" [("segment_id", segment_id)]
  = Ok (BASE_URL +:+ "/smart_segments/" +:+ segment_id +:+ "/contacts").
Proof. unfold get_url. cbn [assoc ENDPOINTS String.eqb Ascii.eqb Bool.eqb].
       rewrite format_segment. reflexivity. Qed.

(** The inner loop: one membership per contact of the segment. *)
Lemma for_each_memberships row segment_id subrows contact_ids s :
  py_getitem row "segment_id" = Ok segment_id ->
  Forall2 (fun subrow contact_id => py_getitem subrow "contact_id" = Ok contact_id)
          subrows contact_ids ->
  for_each subrows
    (fun subrow (_ : unit) =>
       let* segment_id := lift (py_getitem row "segment_id") in
       let* contact_id := lift (py_getitem subrow "contact_id") in
       write_record "smart_segments_contacts"
         (JObj [("segment_id", segment_id); ("contact_id", contact_id)]))
    tt s
  = (Done tt, wrote (map (membership segment_id) contact_ids) s).
Proof.
  intros Hseg Hall. revert s.
  match goal with |- context [for_each _ ?b] => set (body := b) end.
  induction Hall as [|subrow contact_id subrows contact_ids Hid _ IH]; intros s;
    cbn [for_each map].
  - unfold wrote. rewrite app_nil_r. destruct s; reflexivity.
  - unfold bind at 1. unfold body at 1. unfold bind at 1. rewrite Hseg. cbn [lift ret].
    unfold bind at 1. rewrite Hid. cbn [lift ret]. unfold write_record. cbn [emit].
    rewrite IH. unfold wrote, membership. cbn. rewrite <- app_assoc. reflexivity.
Qed.

Lemma segments_loop fuel n rows records requests :
  segments_served fuel n rows records requests ->
  forall s, length (gets s) = n ->
    for_each rows
      (fun row (_ : unit) =>
         let* segment_id := lift (py_getitem row "segment_id") in
         let* subrow_url :=
           lift (get_url "smart_segments_contacts"
                   [("segment_id", py_str segment_id)]) in
         gen_request fuel subrow_url ∅
           (fun subrow (_ : unit) =>
              let* segment_id := lift (py_getitem row "segment_id") in
              let* contact_id := lift (py_getitem subrow "contact_id") in
              write_record "smart_segments_contacts"
                (JObj [("segment_id", segment_id); ("contact_id", contact_id)]))
           tt)
      tt s
    = (Done tt,
       {| calls := calls s ++ requests; gets := gets s ++ map get_of requests;
          pauses := pauses s; out := out s ++ records |}).
Proof.
  induction 1 as [n | n row segment_id pages subrows contact_ids rows records requests
                      Hseg Hline Hpaged Htok Hserves Hfuel Hids _ IH];
    intros s Hn.
  - cbn [for_each map]. rewrite !app_nil_r. destruct s; reflexivity.
  - cbn [for_each]. unfold bind at 1.
    match goal with |- context [gen_request _ _ _ ?b] => set (inner := b) end.
    unfold bind at 1. rewrite Hseg. cbn [lift ret].
    unfold bind at 1. rewrite segment_contacts_url. cbn [lift ret].
    unfold gen_request at 1. unfold bind at 1.
    rewrite (segment_contacts_source _ Hline). cbn [lift ret]. subst n.
    assert (Hframed : forall subrow a, framed (inner subrow a)).
    { intros subrow a. unfold inner. apply framed_bind; [apply framed_lift|].
      intros ?. apply framed_bind; [apply framed_lift|]. intros ?. apply framed_emit. }
    assert (Hinner := for_each_memberships row segment_id subrows contact_ids s Hseg Hids).
    fold inner in Hinner.
    assert (Hkey : parse_key_from_source "smart_segments_contacts" = "contacts")
      by reflexivity.
    rewrite <- Hkey in Hpaged.
    rewrite (gen_request_loop_paged _ "smart_segments_contacts" _ inner pages subrows
               (segment_contacts_source _ Hline) Hframed Hpaged fuel ∅ tt s tt _
               params_ok_empty Htok Hserves Hfuel Hinner).
    rewrite IH.
    2: { cbn [gets]. rewrite length_app, length_map, params_trace_length. reflexivity. }
    cbn [calls gets pauses out wrote]. rewrite !map_app, !map_map, <- !app_assoc.
    reflexivity.
Qed.

(** X15. A sync of the contacts of the smart segments, the segments arriving
    in one short page: it fetches the segments once, at the URL of the smart
    segments, and then, for each segment in turn, pages through the contacts
    of that segment at the URL of the contacts of that very segment, passing
    on the tokens of its pages; it writes the schema and then one record with
    the segment's id and the contact's id per contact. *)
Theorem sync_smart_segment_contacts_writes_every_membership fuel stream s page rows
    records requests :
  delivers (server (length (gets s))) page ->
  page_rows "segments" page = Some rows ->
  length rows < 100 ->
  segments_served fuel (S (length (gets s))) rows records requests ->
  0 < fuel ->
  sync_smart_segment_contacts fuel stream s =
  (Done tt,
   {| calls := calls s ++ (BASE_URL +:+ "/smart_segments", ∅) :: requests;
      gets := gets s ++ map get_of ((BASE_URL +:+ "/smart_segments", ∅) :: requests);
      pauses := pauses s;
      out := out s ++ SchemaMessage "smart_segments_contacts" (schema stream)
                        (JArr [JStr "segment_id"; JStr "contact_id"]) :: records |}).
Proof.
  intros Hpage Hrows Hshort Hserved Hfuel.
  destruct smart_segments_url as (Hurl & Hsrc & Hkey & Hplain).
  destruct fuel as [|fuel]; [lia|].
  unfold sync_smart_segment_contacts. unfold bind at 1. cbn [emit]. unfold bind at 1.
  rewrite Hurl. cbn [lift ret]. unfold gen_request at 1. unfold bind at 1.
  rewrite Hsrc. cbn [lift ret]. rewrite <- Hkey in Hrows.
  set (s1 := {| calls := calls s; gets := gets s; pauses := pauses s;
                out := out s ++ [SchemaMessage "smart_segments_contacts" (schema stream)
                                   (JArr [JStr "segment_id"; JStr "contact_id"])] |}).
  rewrite (gen_request_loop_page fuel _ "smart_segments" ∅ _ tt s1 _ page rows Hsrc
             params_ok_empty Hpage Hrows).
  unfold bind at 1.
  rewrite (segments_loop _ _ _ _ _ Hserved).
  2: { cbn [gets fetched s1]. rewrite length_app. cbn. lia. }
  apply Nat.ltb_lt in Hshort. change PER_PAGE with 100. rewrite Hshort.
  cbn [ret calls gets pauses out fetched s1 map]. rewrite <- !app_assoc.
  reflexivity.
Qed.

End SegmentContacts.

Section Writes.
Context {E : Env}.

Lemma writes_nothing {A} Q (m : M A) :
  (forall s o s', m s = (o, s') -> out s' = out s) -> writes Q m.
Proof.
  intros Hm s o s' Hrun. exists []. rewrite app_nil_r. split; [eauto|constructor].
Qed.

Lemma writes_ret {A} Q (a : A) : writes Q (ret a).
Proof. apply writes_nothing. intros s o s' [= _ <-]. reflexivity. Qed.

Lemma writes_raise {A} Q e : writes Q (raise (A := A) e).
Proof. apply writes_nothing. intros s o s' [= _ <-]. reflexivity. Qed.

Lemma writes_out_of_fuel {A} Q : writes Q (out_of_fuel (A := A)).
Proof. apply writes_nothing. intros s o s' [= _ <-]. reflexivity. Qed.

Lemma writes_lift {A} Q (r : result A) : writes Q (lift r).
Proof. destruct r; [apply writes_ret | apply writes_raise]. Qed.

Lemma writes_emit Q m : Q m -> writes Q (emit m).
Proof.
  intros Hm s o s' [= _ <-]. exists [m]. split; [reflexivity|].
  constructor; [exact Hm|constructor].
Qed.

Lemma writes_bind {A B} Q (m : M A) (k : A -> M B) :
  writes Q m -> (forall a, writes Q (k a)) -> writes Q (bind m k).
Proof.
  intros Hm Hk s o s'. unfold bind.
  destruct (m s) as [[a|e|] s1] eqn:Hrun; destruct (Hm _ _ _ Hrun) as (added & Hout & HQ).
  - intros Hrest. destruct (Hk _ _ _ _ Hrest) as (added' & Hout' & HQ').
    exists (added ++ added'). rewrite Hout', Hout, app_assoc.
    split; [reflexivity|]. apply Forall_app; auto.
  - intros [= _ <-]. eauto.
  - intros [= _ <-]. eauto.
Qed.

Lemma writes_for_each {R A} Q (body : R -> A -> M A) rows :
  (forall row acc, writes Q (body row acc)) ->
  forall acc, writes Q (for_each rows body acc).
Proof.
  intros Hbody. induction rows as [|row rows IH]; intros acc; cbn [for_each].
  - apply writes_ret.
  - apply writes_bind; [apply Hbody | exact IH].
Qed.

Lemma request_once_out url params s o s' :
  request_once url params s = (o, s') -> out s' = out s.
Proof.
  unfold request_once, bind.
  destruct (request_url url params) as [u|e]; cbn [lift ret raise];
    [|intros [= _ <-]; reflexivity].
  destruct (parse_source_from_url u) as [source|e]; cbn [lift ret raise];
    [|intros [= _ <-]; reflexivity].
  cbn [send]. destruct (server (length (gets s))) as [|resp]; cbn [raise ret];
    [intros [= _ <-]; reflexivity|].
  destruct ((400 <=? status_code resp) && (status_code resp <? 600))%Z;
    intros [= _ <-]; reflexivity.
Qed.

Lemma on_exception_out {A} giveup factor (target : M A) :
  (forall s o s', target s = (o, s') -> out s' = out s) ->
  forall tries n s o s',
    on_exception tries n giveup factor target s = (o, s') -> out s' = out s.
Proof.
  intros Htarget. induction tries as [|tries IH]; intros n s o s'; cbn [on_exception].
  - destruct (target s) as [o1 s1] eqn:Hrun. apply Htarget in Hrun.
    destruct o1 as [a|[]|]; intros [= _ <-]; exact Hrun.
  - destruct (target s) as [o1 s1] eqn:Hrun. apply Htarget in Hrun.
    destruct o1 as [a|e|]; [intros [= _ <-]; exact Hrun | | intros [= _ <-]; exact Hrun].
    destruct e; try (intros [= _ <-]; exact Hrun).
    destruct tries as [|tries']; [intros [= _ <-]; exact Hrun|].
    destruct (giveup response); [intros [= _ <-]; exact Hrun|].
    unfold bind. cbn [sleep]. intros Hrest. apply IH in Hrest. cbn [out] in Hrest.
    congruence.
Qed.

Lemma request_out url params s o s' :
  request url params s = (o, s') -> out s' = out s.
Proof.
  unfold request, bind. cbn [log_call]. intros Hrun.
  apply (on_exception_out _ _ _ (request_once_out url params)) in Hrun. exact Hrun.
Qed.

(** The generator writes nothing of its own: what is written while it runs is
    written by the body of the loop that consumes it. *)
Lemma writes_gen_request_loop {A} Q endpoint source key (body : json -> A -> M A) :
  (forall row acc, writes Q (body row acc)) ->
  forall fuel params acc,
    writes Q (gen_request_loop fuel endpoint source key params body acc).
Proof.
  intros Hbody. induction fuel as [|fuel IH]; intros params acc; cbn [gen_request_loop].
  - apply writes_out_of_fuel.
  - apply writes_bind; [apply writes_nothing, request_out|]. intros resp.
    apply writes_bind; [apply writes_lift|]. intros data.
    apply writes_bind.
    { destruct (contains "contact" source); [|apply writes_ret].
      apply writes_bind; [apply writes_lift|]. intros [|]; [|apply writes_ret].
      apply writes_bind; [apply writes_lift|]. intros ?. apply writes_ret. }
    intros params'. apply writes_bind; [apply writes_lift|]. intros page.
    apply writes_bind; [apply writes_lift|]. intros rows.
    apply writes_bind; [apply writes_for_each, Hbody|]. intros acc'.
    destruct (length rows <? PER_PAGE); [apply writes_ret | apply IH].
Qed.

Lemma writes_gen_request {A} Q fuel endpoint params (body : json -> A -> M A) acc :
  (forall row acc, writes Q (body row acc)) ->
  writes Q (gen_request fuel endpoint params body acc).
Proof.
  intros Hbody. unfold gen_request. apply writes_bind; [apply writes_lift|].
  intros source. apply writes_gen_request_loop, Hbody.
Qed.

Lemma writes_sync_contacts_row Q tap_stream_id start row max_updated_at :
  (forall record, Q (RecordMessage tap_stream_id record)) ->
  writes Q (sync_contacts_row tap_stream_id start row max_updated_at).
Proof.
  intros HQ. unfold sync_contacts_row.
  apply writes_bind; [apply writes_lift|]. intros updated_at.
  apply writes_bind; [|intros ?; apply writes_ret].
  assert (Hwrite : writes Q (let* record := lift (transform_contact row) in
                             write_record tap_stream_id record)).
  { apply writes_bind; [apply writes_lift|]. intros record. apply writes_emit, HQ. }
  destruct updated_at as [u|]; [|exact Hwrite].
  destruct (instant start <=? instant u)%Z; [exact Hwrite | apply writes_ret].
Qed.

(** A contacts sync whose schema is refused stops there; otherwise it writes,
    between the schema and the final state message, records only. *)
Lemma sync_contacts_outcome fuel STATE stream s o s' :
  sync_contacts fuel STATE stream s = (o, s') ->
  match schema_keys (key_properties stream) with
  | None =>
      o = Raise (Exception "key_properties must be a string or list of strings") /\
      s' = s
  | Some keys =>
      exists records,
        Forall (record_of (tap_stream_id stream)) records /\
        match o with
        | Done STATE' =>
            exists bookmark,
              STATE' = write_bookmark STATE (tap_stream_id stream) "updated_at"
                         (JStr bookmark) /\
              out s' = out s ++ SchemaMessage (tap_stream_id stream) (schema stream) keys
                             :: records ++ [StateMessage STATE']
        | _ =>
            out s' = out s ++ SchemaMessage (tap_stream_id stream) (schema stream) keys
                           :: records
        end
  end.
Proof.
  unfold sync_contacts. unfold bind at 1.
  destruct (schema_keys (key_properties stream)) as [keys|] eqn:Hkeys.
  2: { rewrite (write_schema_refuses _ _ _ s Hkeys). intros [= <- <-]. auto. }
  rewrite (write_schema_accepts _ _ _ _ s Hkeys).
  set (s1 := wrote [SchemaMessage (tap_stream_id stream) (schema stream) keys] s).
  unfold bind at 1.
  destruct (strptime_with_tz (get_start STATE (tap_stream_id stream) "updated_at"))
    as [start|e]; cbn [lift ret raise];
    [|intros [= <- <-]; exists []; split; [constructor | reflexivity]].
  unfold bind at 1.
  destruct (strftime start) as [since_text|e]; cbn [lift ret raise];
    [|intros [= <- <-]; exists []; split; [constructor | reflexivity]].
  unfold bind at 1.
  destruct (get_url (tap_stream_id stream) []) as [url|e]; cbn [lift ret raise];
    [|intros [= <- <-]; exists []; split; [constructor | reflexivity]].
  unfold bind at 1.
  destruct (gen_request fuel url ∅ (sync_contacts_row (tap_stream_id stream) start) start s1)
    as [o1 s2] eqn:Hloop.
  destruct (writes_gen_request (record_of (tap_stream_id stream)) fuel url ∅ _ start
              (fun row acc => writes_sync_contacts_row _ _ start row acc (fun _ => eq_refl))
              _ _ _ Hloop) as (records & Hout & Hrecords).
  cbn [out s1 wrote] in Hout. rewrite <- app_assoc in Hout. cbn [app] in Hout.
  exists records. split; [exact Hrecords|].
  match goal with H : match o1 with _ => _ end = _ |- _ => revert H end.
  destruct o1 as [m|e|]; [|intros [= <- <-]; exact Hout | intros [= <- <-]; exact Hout].
  unfold bind at 1. destruct (strftime m) as [bookmark|e]; cbn [lift ret raise];
    [|intros [= <- <-]; exact Hout].
  unfold bind. cbn [emit ret]. intros [= <- <-]. exists bookmark.
  split; [reflexivity|]. cbn [out]. rewrite Hout, <- app_assoc. reflexivity.
Qed.

Lemma writes_sync_lists fuel stream : writes no_state (sync_lists fuel stream).
Proof.
  unfold sync_lists. apply writes_bind; [apply writes_emit; exact I|]. intros _.
  apply writes_bind; [apply writes_lift|]. intros url.
  apply writes_gen_request. intros row acc. apply writes_emit. exact I.
Qed.

Lemma writes_sync_smart_segments fuel stream :
  writes no_state (sync_smart_segments fuel stream).
Proof.
  unfold sync_smart_segments. apply writes_bind; [apply writes_emit; exact I|]. intros _.
  apply writes_bind; [apply writes_lift|]. intros url.
  apply writes_gen_request. intros row acc. apply writes_emit. exact I.
Qed.

Lemma writes_sync_smart_segment_contacts fuel stream :
  writes no_state (sync_smart_segment_contacts fuel stream).
Proof.
  unfold sync_smart_segment_contacts.
  apply writes_bind; [apply writes_emit; exact I|]. intros _.
  apply writes_bind; [apply writes_lift|]. intros url.
  apply writes_gen_request. intros row acc.
  apply writes_bind; [apply writes_lift|]. intros segment_id.
  apply writes_bind; [apply writes_lift|]. intros subrow_url.
  apply writes_gen_request. intros subrow acc'.
  apply writes_bind; [apply writes_lift|]. intros ?.
  apply writes_bind; [apply writes_lift|]. intros ?.
  apply writes_emit. exact I.
Qed.

Lemma record_of_no_state name messages :
  Forall (record_of name) messages -> Forall no_state messages.
Proof.
  intros H. eapply Forall_impl; [exact H|]. intros [| |value]; cbn; tauto.
Qed.

Lemma no_state_marked current messages :
  Forall no_state messages -> Forall (marked current) messages.
Proof.
  intros H. eapply Forall_impl; [exact H|]. intros [| |value]; cbn; tauto.
Qed.

(** A sync keeps the marker, in the state it returns and in every state
    message it writes, and the bookmarks but that of the contacts; a sync that
    does not return has written no state message. *)
Lemma sync_outcome fuel STATE stream s o s' :
  sync fuel STATE stream s = (o, s') ->
  exists added,
    out s' = out s ++ added /\
    Forall (marked (currently_syncing STATE)) added /\
    match o with
    | Done STATE' =>
        currently_syncing STATE' = currently_syncing STATE /\
        same_bookmarks_but_contacts STATE STATE'
    | _ => Forall no_state added
    end.
Proof.
  assert (Hplain : forall routine : M unit,
            writes no_state routine ->
            (run routine in ret STATE) s = (o, s') ->
            exists added,
              out s' = out s ++ added /\
              Forall (marked (currently_syncing STATE)) added /\
              match o with
              | Done STATE' =>
                  currently_syncing STATE' = currently_syncing STATE /\
                  same_bookmarks_but_contacts STATE STATE'
              | _ => Forall no_state added
              end).
  { intros routine Hroutine Hrun.
    destruct (writes_bind no_state routine (fun _ => ret STATE) Hroutine
                (fun _ => writes_ret _ _) _ _ _ Hrun) as (added & Hout & Hadded).
    exists added. split; [exact Hout|]. split; [apply no_state_marked, Hadded|].
    destruct o as [STATE'|e|]; try exact Hadded.
    unfold bind in Hrun. destruct (routine s) as [[[]|e|] s1]; try discriminate.
    injection Hrun as <- _. split; [reflexivity|]. intros ? ? _. reflexivity. }
  unfold sync.
  destruct (String.eqb (tap_stream_id stream) "contacts") eqn:Hid.
  - apply String.eqb_eq in Hid. intros Hrun.
    pose proof (sync_contacts_outcome _ _ _ _ _ _ Hrun) as Hcontacts.
    destruct (schema_keys (key_properties stream)) as [keys|].
    2: { destruct Hcontacts as [-> ->]. exists []. rewrite app_nil_r.
         split; [reflexivity|]. split; constructor. }
    destruct Hcontacts as (records & Hrecords & Hout).
    apply record_of_no_state in Hrecords. rewrite Hid in Hout.
    destruct o as [STATE'|e|].
    + destruct Hout as (bookmark & -> & Hout). eexists. split; [exact Hout|]. split.
      * constructor; [exact I|]. apply Forall_app. split.
        -- apply no_state_marked, Hrecords.
        -- constructor; [reflexivity | constructor].
      * split; [reflexivity|].
        intros name key Hother. unfold get_bookmark, write_bookmark. cbn [bookmarks].
        destruct (decide (name = "contacts")) as [-> | Hname].
        -- rewrite lookup_insert_eq.
           destruct Hother as [Hne | Hkey]; [congruence|].
           rewrite lookup_insert_ne by congruence.
           destruct (bookmarks STATE !! "contacts"); [reflexivity | apply lookup_empty].
        -- rewrite lookup_insert_ne by congruence. reflexivity.
    + eexists. split; [exact Hout|]. split.
      * constructor; [exact I|]. apply no_state_marked, Hrecords.
      * constructor; [exact I | exact Hrecords].
    + eexists. split; [exact Hout|]. split.
      * constructor; [exact I|]. apply no_state_marked, Hrecords.
      * constructor; [exact I | exact Hrecords].
  - destruct (String.eqb (tap_stream_id stream) "lists");
      [apply Hplain, writes_sync_lists|].
    destruct (String.eqb (tap_stream_id stream) "smart_segments");
      [apply Hplain, writes_sync_smart_segments|].
    destruct (String.eqb (tap_stream_id stream) "smart_segments_contacts");
      [apply Hplain, writes_sync_smart_segment_contacts|].
    intros [= <- <-]. exists []. rewrite app_nil_r. split; [reflexivity|].
    split; [constructor|]. split; [reflexivity|]. intros ? ? _. reflexivity.
Qed.

End Writes.

Section Rounds.
Context {E : Env}.

Lemma last_state_app before after :
  last_state (before ++ after) =
  match last_state after with
  | Some value => Some value
  | None => last_state before
  end.
Proof.
  induction before as [|m before IH]; cbn [app last_state].
  - destruct (last_state after); reflexivity.
  - rewrite IH. destruct (last_state after); reflexivity.
Qed.

Lemma last_state_none messages :
  Forall no_state messages -> last_state messages = None.
Proof.
  induction 1 as [|m messages Hm _ IH]; cbn [last_state]; [reflexivity|].
  rewrite IH. destruct m; [reflexivity | reflexivity | destruct Hm].
Qed.

Lemma same_bookmarks_refl STATE : same_bookmarks_but_contacts STATE STATE.
Proof. intros ? ? _. reflexivity. Qed.

Lemma same_bookmarks_trans STATE1 STATE2 STATE3 :
  same_bookmarks_but_contacts STATE1 STATE2 ->
  same_bookmarks_but_contacts STATE2 STATE3 ->
  same_bookmarks_but_contacts STATE1 STATE3.
Proof. intros H12 H23 name key Hother. rewrite H23, H12; auto. Qed.

Lemma same_bookmarks_marker STATE current :
  same_bookmarks_but_contacts STATE (set_currently_syncing STATE current).
Proof. intros ? ? _. reflexivity. Qed.

Lemma marked_among_cons stream streams messages :
  Forall (marked_among streams) messages ->
  Forall (marked_among (stream :: streams)) messages.
Proof.
  intros H. eapply Forall_impl; [exact H|]. intros [| |value]; cbn; try tauto.
  intros (x & Hin & Hx). exists x. auto.
Qed.

Lemma marked_among_head stream streams messages :
  Forall (marked (Some (tap_stream_id stream))) messages ->
  Forall (marked_among (stream :: streams)) messages.
Proof.
  intros H. eapply Forall_impl; [exact H|]. intros [| |value]; cbn; try tauto.
  intros Hvalue. exists stream. auto.
Qed.

(** The loop of [do_sync] over the selected streams. *)
Lemma rounds_outcome fuel streams :
  forall STATE s o s',
    for_each streams
      (fun stream STATE =>
         let STATE := set_currently_syncing STATE (Some (tap_stream_id stream)) in
         run emit (StateMessage STATE) in
         sync fuel STATE stream)
      STATE s = (o, s') ->
    exists added,
      out s' = out s ++ added /\
      Forall (marked_among streams) added /\
      match o with
      | Done STATE' =>
          same_bookmarks_but_contacts STATE STATE' /\
          (streams = [] -> STATE' = STATE /\ s' = s)
      | _ =>
          exists done current rest STATE1 s1,
            streams = done ++ current :: rest /\
            completed fuel STATE s done STATE1 s1 /\
            same_bookmarks_but_contacts STATE STATE1 /\
            sync fuel (set_currently_syncing STATE1 (Some (tap_stream_id current)))
              current
              (wrote [StateMessage (set_currently_syncing STATE1
                                      (Some (tap_stream_id current)))] s1)
            = (o, s') /\
            (forall e, o = Raise e ->
               last_state (out s') =
               Some (set_currently_syncing STATE1 (Some (tap_stream_id current))))
      end.
Proof.
  induction streams as [|stream streams IH]; intros STATE s o s'; cbn [for_each].
  - intros [= <- <-]. exists []. rewrite app_nil_r. split; [reflexivity|].
    split; [constructor|]. split; [apply same_bookmarks_refl | auto].
  - unfold bind at 1. unfold bind at 1. cbn [emit].
    set (STATE1 := set_currently_syncing STATE (Some (tap_stream_id stream))).
    change {| calls := calls s; gets := gets s; pauses := pauses s;
              out := out s ++ [StateMessage STATE1] |}
      with (wrote [StateMessage STATE1] s).
    set (s1 := wrote [StateMessage STATE1] s).
    destruct (sync fuel STATE1 stream s1) as [o1 s2] eqn:Hsync.
    destruct (sync_outcome _ _ _ _ _ _ Hsync) as (added1 & Hout1 & Hmarked & Ho1).
    cbn [out s1 wrote] in Hout1.
    assert (Hstop : o1 = o -> s2 = s' -> (forall STATE', o <> Done STATE') ->
              Forall no_state added1 ->
              exists added,
                out s' = out s ++ added /\
                Forall (marked_among (stream :: streams)) added /\
                match o with
                | Done STATE' =>
                    same_bookmarks_but_contacts STATE STATE' /\
                    (stream :: streams = [] -> STATE' = STATE /\ s' = s)
                | _ =>
                    exists done current rest STATE1 s1,
                      stream :: streams = done ++ current :: rest /\
                      completed fuel STATE s done STATE1 s1 /\
                      same_bookmarks_but_contacts STATE STATE1 /\
                      sync fuel (set_currently_syncing STATE1 (Some (tap_stream_id current)))
                        current
                        (wrote [StateMessage (set_currently_syncing STATE1
                                                (Some (tap_stream_id current)))] s1)
                      = (o, s') /\
                      (forall e, o = Raise e ->
                         last_state (out s') =
                         Some (set_currently_syncing STATE1 (Some (tap_stream_id current))))
                end).
    { intros <- <- Hnot Hnone. exists (StateMessage STATE1 :: added1).
      split; [rewrite Hout1, <- app_assoc; reflexivity|]. split.
      { constructor; [exists stream; split; [left; reflexivity | reflexivity]|].
        apply marked_among_head, Hmarked. }
      assert (Hlast : last_state (out s2) = Some STATE1).
      { rewrite Hout1, <- app_assoc, last_state_app. cbn [app last_state].
        rewrite (last_state_none _ Hnone). reflexivity. }
      destruct o1 as [STATE'|e|]; [destruct (Hnot STATE' eq_refl)| |].
      - exists [], stream, streams, STATE, s. split; [reflexivity|].
        split; [constructor|]. split; [apply same_bookmarks_refl|].
        split; [exact Hsync|]. intros _ _. exact Hlast.
      - exists [], stream, streams, STATE, s. split; [reflexivity|].
        split; [constructor|]. split; [apply same_bookmarks_refl|].
        split; [exact Hsync|]. intros _ _. exact Hlast. }
    destruct o1 as [STATE2|e|].
    + destruct Ho1 as (Hmarker & Hsame). intros Hrest.
      destruct (IH _ _ _ _ Hrest) as (added & Hout & Hamong & Ho).
      exists (StateMessage STATE1 :: added1 ++ added).
      split; [rewrite Hout, Hout1, <- !app_assoc; reflexivity|]. split.
      { constructor; [exists stream; split; [left; reflexivity | reflexivity]|].
        apply Forall_app. split; [apply marked_among_head, Hmarked|].
        apply marked_among_cons, Hamong. }
      assert (Hfirst : same_bookmarks_but_contacts STATE STATE2).
      { eapply same_bookmarks_trans; [apply same_bookmarks_marker | exact Hsame]. }
      destruct o as [STATE'|e|].
      * destruct Ho as (Hsame' & _). split; [|discriminate].
        eapply same_bookmarks_trans; eassumption.
      * destruct Ho as (done & current & rest & STATE3 & s3 & -> & Hdone & Hsame' & Hrun
                        & Hlast).
        exists (stream :: done), current, rest, STATE3, s3. split; [reflexivity|].
        split; [econstructor; eassumption|].
        split; [eapply same_bookmarks_trans; eassumption|]. auto.
      * destruct Ho as (done & current & rest & STATE3 & s3 & -> & Hdone & Hsame' & Hrun
                        & Hlast).
        exists (stream :: done), current, rest, STATE3, s3. split; [reflexivity|].
        split; [econstructor; eassumption|].
        split; [eapply same_bookmarks_trans; eassumption|]. auto.
    + intros [= <- <-]. apply Hstop; [reflexivity | reflexivity | discriminate | exact Ho1].
    + intros [= <- <-]. apply Hstop; [reflexivity | reflexivity | discriminate | exact Ho1].
Qed.

End Rounds.

Section DispatcherProperties.
Context {E : Env}.

Lemma none_selected remaining :
  Forall (fun stream => selected stream = false) remaining ->
  get_selected_streams remaining = [].
Proof.
  unfold get_selected_streams.
  induction 1 as [|stream remaining Hstream _ IH]; cbn [List.filter]; [reflexivity|].
  rewrite Hstream. exact IH.
Qed.

(** X16. When none of the streams that remain (those from the resume point on)
    is selected, the run does nothing: no request, no message, and the state,
    marker included, is left as it was, whatever is selected before the
    resume point. *)
Theorem do_sync_without_selection fuel STATE catalog remaining s :
  get_streams_to_sync catalog STATE = Ok remaining ->
  Forall (fun stream => selected stream = false) remaining ->
  do_sync fuel STATE catalog s = (Done STATE, s).
Proof.
  intros Hremaining Hnone. unfold do_sync, bind. rewrite Hremaining. cbn [lift ret].
  rewrite (none_selected _ Hnone). reflexivity.
Qed.

(** X17. A run that completes leaves every bookmark as it was, but for
    [updated_at] of the contacts; when a stream was selected, it ends with a
    STATE message that holds the state it leaves, in which no stream is
    marked as being synced, and every STATE message before that one is marked
    with one of the selected streams. *)
Theorem do_sync_completes fuel STATE catalog s STATE' s' :
  do_sync fuel STATE catalog s = (Done STATE', s') ->
  exists remaining,
    get_streams_to_sync catalog STATE = Ok remaining /\
    same_bookmarks_but_contacts STATE STATE' /\
    (get_selected_streams remaining <> [] ->
     currently_syncing STATE' = None /\
     exists before,
       out s' = out s ++ before ++ [StateMessage STATE'] /\
       Forall (marked_among (get_selected_streams remaining)) before).
Proof.
  unfold do_sync. unfold bind at 1.
  destruct (get_streams_to_sync catalog STATE) as [remaining|e]; cbn [lift ret raise];
    [|discriminate].
  intros Hrun. exists remaining. split; [reflexivity|]. revert Hrun.
  destruct (get_selected_streams remaining) as [|stream streams] eqn:Hselected.
  - cbn [length Nat.ltb Nat.leb]. intros [= <- <-].
    split; [apply same_bookmarks_refl|]. intros Hne. destruct (Hne eq_refl).
  - cbn [length Nat.ltb Nat.leb]. unfold bind at 1.
    match goal with
    | |- context [for_each ?l ?b ?a ?t] => destruct (for_each l b a t) as [o s1] eqn:Hloop
    end.
    destruct (rounds_outcome _ _ _ _ _ _ Hloop) as (added & Hout & Hamong & Ho).
    destruct o as [STATE1|e|]; [|discriminate|discriminate].
    unfold bind. cbn [emit ret]. intros [= <- <-]. destruct Ho as (Hsame & _).
    split.
    { eapply same_bookmarks_trans; [exact Hsame | apply same_bookmarks_marker]. }
    intros _. split; [reflexivity|]. exists added. cbn [out]. rewrite Hout, <- app_assoc.
    split; [reflexivity | exact Hamong].
Qed.

(** A run that raises after the streams to sync were found raises in the sync
    of a selected stream. *)
Lemma do_sync_raise fuel STATE catalog remaining s e s' :
  get_streams_to_sync catalog STATE = Ok remaining ->
  do_sync fuel STATE catalog s = (Raise e, s') ->
  exists done current rest STATE1 s1,
    get_selected_streams remaining = done ++ current :: rest /\
    completed fuel STATE s done STATE1 s1 /\
    same_bookmarks_but_contacts STATE STATE1 /\
    sync fuel (set_currently_syncing STATE1 (Some (tap_stream_id current))) current
      (wrote [StateMessage (set_currently_syncing STATE1
                              (Some (tap_stream_id current)))] s1)
    = (Raise e, s') /\
    last_state (out s') = Some (set_currently_syncing STATE1 (Some (tap_stream_id current))).
Proof.
  intros Hremaining. unfold do_sync. unfold bind at 1. rewrite Hremaining.
  cbn [lift ret].
  destruct (length (get_selected_streams remaining) <? 1); [discriminate|].
  unfold bind at 1.
  match goal with
  | |- context [for_each ?l ?b ?a ?t] => destruct (for_each l b a t) as [o s1] eqn:Hloop
  end.
  destruct (rounds_outcome _ _ _ _ _ _ Hloop) as (added & Hout & Hamong & Ho).
  destruct o as [STATE1|e1|]; [unfold bind; cbn [emit ret]; discriminate | | discriminate].
  intros [= <- <-].
  destruct Ho as (done & current & rest & STATE1 & s2 & Hsplit & Hdone & Hsame & Hsync
                  & Hlast).
  exists done, current, rest, STATE1, s2. repeat split; try assumption.
  eapply Hlast. reflexivity.
Qed.

(** X18. A run that is interrupted by an exception, the streams to sync having
    been found, is interrupted in the sync of a selected stream, after the
    syncs of the selected streams before it have returned, each given the
    state that the one before it returned.  The last state written is the
    state that the interrupted sync was given: the state returned by the last
    completed sync, which holds the bookmarks persisted so far, marked with
    the interrupted stream; the interrupted sync has written no state of its
    own. *)
Theorem do_sync_interrupted fuel STATE catalog remaining s e s' :
  get_streams_to_sync catalog STATE = Ok remaining ->
  do_sync fuel STATE catalog s = (Raise e, s') ->
  exists done current rest STATE1 s1,
    get_selected_streams remaining = done ++ current :: rest /\
    completed fuel STATE s done STATE1 s1 /\
    same_bookmarks_but_contacts STATE STATE1 /\
    sync fuel (set_currently_syncing STATE1 (Some (tap_stream_id current))) current
      (wrote [StateMessage (set_currently_syncing STATE1
                              (Some (tap_stream_id current)))] s1)
    = (Raise e, s') /\
    last_state (out s') = Some (set_currently_syncing STATE1 (Some (tap_stream_id current))).
Proof. apply do_sync_raise. Qed.

Lemma remaining_in_catalog catalog STATE remaining current :
  get_streams_to_sync catalog STATE = Ok remaining ->
  In current remaining -> In current catalog.
Proof.
  assert (Hdrop : forall (p : stream -> bool) l,
            In current (dropwhile p l) -> In current l).
  { intros p. induction l as [|x l IH]; cbn [dropwhile]; [tauto|].
    destruct (p x); [right; auto | tauto]. }
  unfold get_streams_to_sync.
  destruct (named (currently_syncing STATE)) as [name|].
  - destruct (dropwhile _ catalog) as [|x l] eqn:Hd; [discriminate|].
    intros [= <-] Hin. rewrite <- Hd in Hin. apply Hdrop in Hin. exact Hin.
  - destruct catalog; [discriminate|]. intros [= <-]. tauto.
Qed.

Lemma first_named name catalog :
  (exists stream, In stream catalog /\ tap_stream_id stream = name) ->
  exists before first after,
    catalog = before ++ first :: after /\
    tap_stream_id first = name /\
    Forall (fun x => tap_stream_id x <> name) before.
Proof.
  induction catalog as [|x catalog IH]; intros (stream & Hin & Hid); [destruct Hin|].
  destruct (decide (tap_stream_id x = name)) as [Hx | Hx].
  - exists [], x, catalog. split; [reflexivity|]. split; [exact Hx | constructor].
  - destruct IH as (before & first & after & -> & Hfirst & Hbefore).
    { exists stream. split; [|exact Hid]. destruct Hin as [-> | Hin]; [congruence | exact Hin]. }
    exists (x :: before), first, after. split; [reflexivity|].
    split; [exact Hfirst | constructor; assumption].
Qed.

(** X19. Resuming after an interruption: with the last state that an
    interrupted run has written, the streams to sync are the catalog from the
    first stream on that has the name of the stream whose sync was
    interrupted, provided that no stream of the catalog has the empty name. *)
Theorem interrupted_sync_resumes fuel STATE catalog remaining s e s' :
  get_streams_to_sync catalog STATE = Ok remaining ->
  Forall (fun stream => tap_stream_id stream <> EmptyString) catalog ->
  do_sync fuel STATE catalog s = (Raise e, s') ->
  exists value current s1 before first after,
    last_state (out s') = Some value /\
    sync fuel value current s1 = (Raise e, s') /\
    catalog = before ++ first :: after /\
    tap_stream_id first = tap_stream_id current /\
    Forall (fun x => tap_stream_id x <> tap_stream_id current) before /\
    get_streams_to_sync catalog value = Ok (first :: after).
Proof.
  intros Hremaining Hnames Hrun.
  destruct (do_sync_raise _ _ _ _ _ _ _ Hremaining Hrun)
    as (done & current & rest & STATE1 & s1 & Hsplit & _ & _ & Hsync & Hlast).
  assert (Hin : In current catalog).
  { apply (remaining_in_catalog _ _ _ _ Hremaining).
    assert (Hsel : In current (get_selected_streams remaining)).
    { rewrite Hsplit. apply in_or_app. right. left. reflexivity. }
    unfold get_selected_streams in Hsel. apply filter_In in Hsel. tauto. }
  destruct (first_named (tap_stream_id current) catalog) as
    (before & first & after & Hcat & Hfirst & Hbefore); [eauto|].
  exists (set_currently_syncing STATE1 (Some (tap_stream_id current))), current,
    (wrote [StateMessage (set_currently_syncing STATE1 (Some (tap_stream_id current)))] s1),
    before, first, after.
  repeat split; try assumption.
  apply get_streams_to_sync_resumes with (name := tap_stream_id current)
                                         (before := before); try assumption.
  cbn [currently_syncing set_currently_syncing named].
  rewrite Forall_forall in Hnames.
  destruct (tap_stream_id current) eqn:Hid; [|reflexivity].
  destruct (Hnames current); [apply list_elem_of_In; exact Hin | exact Hid].
Qed.

End DispatcherProperties.

Section ContactsProperties.
Context {E : Env}.

(** X20. A contacts sync that is interrupted by an exception, wherever it is
    raised, has written no state: when the key properties of the catalog
    entry are refused it has written nothing at all and sent no request, and
    otherwise it has written the schema and then records of the stream only.
    The bookmark is persisted by a sync that completes and by no other, so
    that the next run starts from the same date again. *)
Theorem sync_contacts_persists_only_at_the_end fuel STATE stream s e s' :
  sync_contacts fuel STATE stream s = (Raise e, s') ->
  last_state (out s') = last_state (out s) /\
  match schema_keys (key_properties stream) with
  | Some keys =>
      exists records,
        out s' = out s ++ SchemaMessage (tap_stream_id stream) (schema stream) keys
                       :: records /\
        Forall (record_of (tap_stream_id stream)) records
  | None =>
      e = Exception "key_properties must be a string or list of strings" /\ s' = s
  end.
Proof.
  intros Hrun. pose proof (sync_contacts_outcome _ _ _ _ _ _ Hrun) as Hcontacts.
  destruct (schema_keys (key_properties stream)) as [keys|].
  - destruct Hcontacts as (records & Hrecords & Hout). split; [|eauto].
    rewrite Hout, last_state_app. cbn [last_state].
    rewrite (last_state_none _ (record_of_no_state _ _ Hrecords)). reflexivity.
  - destruct Hcontacts as [[= <-] ->]. auto.
Qed.

End ContactsProperties.

Section TransformProperties.
Context {E : Env}.

Lemma transform_prop_absent format_row fields prop :
  dict_get prop fields = None ->
  transform_prop format_row (JObj fields) prop = Ok (JObj fields).
Proof.
  intros Hnone. unfold transform_prop. cbn [py_contains]. unfold dict_mem.
  rewrite Hnone. reflexivity.
Qed.

Lemma rfold_absent format_row fields props :
  (forall prop, In prop props -> dict_get prop fields = None) ->
  rfold (transform_prop format_row) props (JObj fields) = Ok (JObj fields).
Proof.
  induction props as [|prop props IH]; intros Hnone; cbn [rfold]; [reflexivity|].
  rewrite transform_prop_absent by (apply Hnone; left; reflexivity).
  apply IH. intros p Hp. apply Hnone. right. exact Hp.
Qed.

(** X21. A contact that has none of the ten listed properties is returned as
    it is. *)
Theorem transform_contact_keeps_a_plain_contact fields :
  (forall prop, In prop (boolean_props ++ timestamp_props) ->
                dict_get prop fields = None) ->
  transform_contact (JObj fields) = Ok (JObj fields).
Proof.
  intros Hnone. unfold transform_contact.
  rewrite rfold_absent by (intros p Hp; apply Hnone, in_or_app; left; exact Hp).
  apply rfold_absent. intros p Hp. apply Hnone, in_or_app. right. exact Hp.
Qed.

Lemma transform_prop_keeps format_row fields prop contact :
  transform_prop format_row (JObj fields) prop = Ok contact ->
  exists fields',
    contact = JObj fields' /\
    forall other, other <> prop -> dict_get other fields' = dict_get other fields.
Proof.
  unfold transform_prop. cbn [py_contains rbind].
  destruct (dict_mem prop fields); [|intros [= <-]; eauto].
  destruct (py_getitem (JObj fields) prop) as [sub|e]; cbn [rbind]; [|discriminate].
  destruct (py_iter sub) as [rows|e]; cbn [rbind]; [|discriminate].
  destruct (rmap (format_row sub) rows) as [formatted_array|e]; cbn [rbind];
    [|discriminate].
  cbn [py_setitem]. intros [= <-]. eexists. split; [reflexivity|].
  intros other Hother. apply dict_get_set_ne. congruence.
Qed.

Lemma rfold_keeps format_row props :
  forall fields contact other,
    ~ In other props ->
    rfold (transform_prop format_row) props (JObj fields) = Ok contact ->
    exists fields', contact = JObj fields' /\ dict_get other fields' = dict_get other fields.
Proof.
  induction props as [|prop props IH]; intros fields contact other Hnot; cbn [rfold].
  - intros [= <-]. eauto.
  - destruct (transform_prop format_row (JObj fields) prop) as [contact1|e] eqn:Hprop;
      [|discriminate].
    destruct (transform_prop_keeps _ _ _ _ Hprop) as (fields1 & -> & Hkeep).
    intros Hrest. destruct (IH fields1 contact other) as (fields' & -> & Hsame).
    + intros Hin. apply Hnot. right. exact Hin.
    + exact Hrest.
    + exists fields'. split; [reflexivity|]. rewrite Hsame. apply Hkeep.
      intros ->. apply Hnot. left. reflexivity.
Qed.

Lemma transform_prop_scalar format_row fields prop value :
  dict_get prop fields = Some value ->
  scalar value = true ->
  transform_prop format_row (JObj fields) prop = Err TypeError.
Proof.
  intros Hget Hscalar. unfold transform_prop. cbn [py_contains py_getitem].
  unfold dict_mem. rewrite Hget. cbn [rbind].
  destruct value; try discriminate; reflexivity.
Qed.

Lemma rfold_scalar format_row props :
  forall fields prop value,
    In prop props ->
    dict_get prop fields = Some value ->
    scalar value = true ->
    exists e, rfold (transform_prop format_row) props (JObj fields) = Err e.
Proof.
  induction props as [|p props IH]; intros fields prop value Hin Hget Hscalar;
    [destruct Hin|].
  cbn [rfold]. destruct (decide (p = prop)) as [-> | Hne].
  - rewrite (transform_prop_scalar _ _ _ _ Hget Hscalar). eauto.
  - destruct (transform_prop format_row (JObj fields) p) as [contact1|e] eqn:Hprop;
      [|eauto].
    destruct (transform_prop_keeps _ _ _ _ Hprop) as (fields1 & -> & Hkeep).
    apply (IH fields1 prop value).
    + destruct Hin as [-> | Hin]; [congruence | exact Hin].
    + rewrite Hkeep by congruence. exact Hget.
    + exact Hscalar.
Qed.

(** X22. A contact one of whose listed properties is [null], a boolean or a
    number, and not an object, is rejected: the transform raises, whatever
    the other properties are. *)
Theorem transform_contact_rejects_a_scalar fields prop value :
  In prop (boolean_props ++ timestamp_props) ->
  dict_get prop fields = Some value ->
  scalar value = true ->
  exists e, transform_contact (JObj fields) = Err e.
Proof.
  intros Hin Hget Hscalar. unfold transform_contact.
  apply in_app_or in Hin. destruct Hin as [Hbool | Htime].
  - destruct (rfold_scalar boolean_row _ _ _ _ Hbool Hget Hscalar) as [e ->]. eauto.
  - destruct (rfold (transform_prop boolean_row) boolean_props (JObj fields))
      as [contact1|e] eqn:Hfirst; [|eauto].
    destruct (rfold_keeps _ _ _ _ prop (fun Hb => proj2 (proj2 props_distinct) _ Hb Htime)
                Hfirst) as (fields1 & -> & Hsame).
    rewrite <- Hsame in Hget.
    exact (rfold_scalar timestamp_row _ _ _ _ Htime Hget Hscalar).
Qed.

End TransformProperties.

(** * Sample runs *)

Lemma replay_serves pages cfg :
  serves (E := reference_env (replay pages) cfg) 0 pages.
Proof.
  intros i page Hi. exists 200%Z. cbn [server reference_env Nat.add].
  unfold replay. rewrite Hi. split; reflexivity.
Qed.

Lemma three_pages_paged :
  paged "contacts" Sample.three_pages
        (Sample.full_rows ++ Sample.full_rows ++ Sample.short_rows).
Proof.
  unfold Sample.three_pages.
  apply paged_more; [reflexivity | vm_compute; lia |].
  apply paged_more; [reflexivity | vm_compute; lia |].
  apply paged_last; [reflexivity | vm_compute; lia].
Qed.

Lemma three_pages_tokens : Forall token_ok Sample.three_pages.
Proof. repeat constructor. Qed.

Lemma gen_request_yields_all_pages_witness :
  parse_source_from_url (E := Sample.paging) Sample.contacts_url = Ok "contacts" /\
  length Sample.short_rows < 100 /\
  exists s',
    gen_request_list (E := Sample.paging) 3 Sample.contacts_url ∅ s0 =
      (Done (records "contacts" Sample.three_pages), s') /\
    length (records "contacts" Sample.three_pages) = 100 * 2 + 2 /\
    length (gets s') = 3.
Proof.
  split; [reflexivity|]. split; [vm_compute; lia|].
  destruct (gen_request_yields_all_pages (E := Sample.paging) 3 Sample.contacts_url
              "contacts" ∅ s0
              [Sample.contacts_page Sample.full_rows (Some "person_100");
               Sample.contacts_page Sample.full_rows None]
              (Sample.contacts_page Sample.short_rows (Some "person_202"))
              Sample.short_rows)
    as (s' & Hrun & Hlen & Hgets & _).
  - reflexivity.
  - exact I.
  - exact three_pages_tokens.
  - repeat constructor; exists Sample.full_rows; split; reflexivity.
  - reflexivity.
  - vm_compute; lia.
  - apply replay_serves.
  - cbn; lia.
  - exists s'. split; [exact Hrun|]. split; [exact Hlen | exact Hgets].
Defined.

Lemma contact_pages_pass_the_token_witness :
  parse_source_from_url (E := Sample.paging) Sample.contacts_url = Ok "contacts" /\
  contains "contact" "contacts" = true /\
  exists s',
    gen_request_list (E := Sample.paging) 3 Sample.contacts_url ∅ s0 =
      (Done (Sample.full_rows ++ Sample.full_rows ++ Sample.short_rows), s') /\
    calls s' = [(Sample.contacts_url, ∅);
                (Sample.contacts_url, <["bookmark" := JStr "person_100"]> ∅);
                (Sample.contacts_url, ∅)].
Proof.
  split; [reflexivity|]. split; [reflexivity|].
  destruct (contact_pages_pass_the_token (E := Sample.paging) 3 Sample.contacts_url
              "contacts" ∅ s0 Sample.three_pages
              (Sample.full_rows ++ Sample.full_rows ++ Sample.short_rows))
    as (s' & trace & Hrun & Hcalls & Hgets & Hlen & Hfirst & Hnext).
  - reflexivity.
  - reflexivity.
  - exact I.
  - exact three_pages_tokens.
  - exact three_pages_paged.
  - apply replay_serves.
  - cbn; lia.
  - exists s'. split; [exact Hrun|].
    destruct trace as [|p0 [|p1 [|p2 [|p3 trace]]]]; try discriminate.
    injection Hfirst as ->.
    destruct (Hnext 0 _ ∅ p1 eq_refl eq_refl eq_refl) as (_ & -> & _).
    destruct (Hnext 1 _ _ p2 eq_refl eq_refl eq_refl) as (_ & ->).
    exact Hcalls.
Defined.

Lemma gen_request_ends_at_short_page_witness :
  parse_source_from_url (E := Sample.paging) Sample.contacts_url = Ok "contacts" /\
  length (gets s0) <= 2 /\
  length Sample.short_rows < 100 /\
  exists outcome,
    fst outcome <> OutOfFuel /\
    forall fuel, 2 - length (gets s0) < fuel ->
      gen_request_list (E := Sample.paging) fuel Sample.contacts_url ∅ s0 = outcome.
Proof.
  split; [reflexivity|]. split; [cbn; lia|]. split; [vm_compute; lia|].
  apply (gen_request_ends_at_short_page (E := Sample.paging) Sample.contacts_url
           "contacts" ∅ s0 2
           (Sample.contacts_page Sample.short_rows (Some "person_202"))
           Sample.short_rows).
  - reflexivity.
  - cbn; lia.
  - exists 200%Z. split; reflexivity.
  - reflexivity.
  - vm_compute; lia.
Defined.

(** C4, as stated, fails: against an API that answers every GET of the lists
    with a hundred lists, no amount of fuel lets the record sequence end. *)
Lemma gen_request_never_ends_on_full_pages :
  ~ exists fuel,
      fst (gen_request_list (E := Sample.endless) fuel Sample.lists_url ∅ s0) <> OutOfFuel.
Proof.
  intros [fuel Hends]. apply Hends. clear Hends.
  unfold gen_request_list, gen_request, bind.
  change (parse_source_from_url (E := Sample.endless) Sample.lists_url)
    with (Ok (A := string) "lists").
  cbn [lift ret].
  apply (gen_request_loop_never_ends (E := Sample.endless) Sample.lists_url "lists" "lists");
    [reflexivity | exact I |].
  intros n _. exists Sample.lists_page, (repeat (JObj [("list_id", JStr "contactlist_1")]) 100).
  split; [exists 200%Z; split; reflexivity|].
  split; [reflexivity|]. split; [vm_compute; lia | exact I].
Qed.

Lemma request_retries_unless_client_error_witness :
  request_url Sample.lists_url ∅ = Ok Sample.lists_url /\
  parse_source_from_url (E := Sample.failing) Sample.lists_url = Ok "lists" /\
  exists s',
    request (E := Sample.failing) Sample.lists_url ∅ s0
      = (Raise (RequestException (Some 404%Z)), s') /\
    length (gets s') = 4 /\ pauses s' = [2; 4; 8]%Z.
Proof.
  split; [reflexivity|]. split; [reflexivity|].
  destruct (request_retries_unless_client_error (E := Sample.failing)
              Sample.lists_url ∅ Sample.lists_url "lists" s0)
    as (k & o & s' & Hrun & Hk & Hgets & Hpauses & Hbefore & Hlast & _);
    [reflexivity | reflexivity |].
  exists s'.
  assert (Hk4 : k = 4).
  { destruct k as [|[|[|[|[|[|k]]]]]]; try lia; try reflexivity.
    - cbn in Hlast. destruct Hlast as [_ [H|H]]; discriminate.
    - cbn in Hlast. destruct Hlast as [_ [H|H]]; discriminate.
    - cbn in Hlast. destruct Hlast as [_ [H|H]]; discriminate.
    - destruct (Hbefore 3) as (response & Hf & Hce); [lia|].
      cbn in Hf. injection Hf as <-. discriminate. }
  subst k. cbn in Hlast. destruct Hlast as [-> _].
  split; [exact Hrun|]. rewrite Hgets, Hpauses. split; reflexivity.
Defined.

Lemma sync_contacts_emits_since_start_witness :
  schema_keys (key_properties Sample.contacts) = Some (JArr [JStr "contact_id"]) /\
  strptime_with_tz (Env := Sample.incremental)
    (get_start (E := Sample.incremental) Sample.state0 "contacts" "updated_at")
    = Ok 1600000000000000%Z /\
  Forall2 (fun row u => updated_at_of (E := Sample.incremental) row = Ok (Some u))
          Sample.four_contacts Sample.four_updated /\
  exists s',
    sync_contacts (E := Sample.incremental) 1 Sample.state0 Sample.contacts s0 =
      (Done (write_bookmark Sample.state0 "contacts" "updated_at"
               (JStr "2020-09-13T12:26:40.005000Z")), s') /\
    out s' =
      [SchemaMessage "contacts" (JObj []) (JArr [JStr "contact_id"]);
       RecordMessage "contacts" (Sample.contact 1600000000000);
       RecordMessage "contacts" (Sample.contact 1600000000005);
       RecordMessage "contacts" (Sample.contact 1600000000002);
       StateMessage (write_bookmark Sample.state0 "contacts" "updated_at"
                       (JStr "2020-09-13T12:26:40.005000Z"))].
Proof.
  split; [reflexivity|]. split; [reflexivity|]. split; [repeat constructor|].
  destruct (sync_contacts_emits_since_start (E := Sample.incremental) 1 Sample.state0
              Sample.contacts s0 [Sample.contacts_page Sample.four_contacts None]
              Sample.four_contacts Sample.four_updated
              [Sample.contact 1600000000000; Sample.contact 1600000000005;
               Sample.contact 1600000000002]
              1600000000000000%Z "2020-09-13T12:26:40.000000Z"
              "2020-09-13T12:26:40.005000Z" (JArr [JStr "contact_id"]))
    as (s' & Hrun & Hout & _).
  - reflexivity.
  - reflexivity.
  - reflexivity.
  - reflexivity.
  - apply paged_last; [reflexivity | vm_compute; lia].
  - repeat constructor.
  - apply replay_serves.
  - cbn; lia.
  - repeat constructor.
  - repeat constructor.
  - reflexivity.
  - exists s'. split; [exact Hrun | exact Hout].
Defined.

Lemma sync_contacts_bookmark_moves_forward_witness :
  get_bookmark Sample.state2 "contacts" "updated_at"
    = Some (JStr "2020-09-13T12:26:40.002000Z") /\
  strptime_with_tz (Env := Sample.incremental) (JStr "2020-09-13T12:26:40.002000Z")
    = Ok 1600000000002000%Z /\
  exists STATE' s' max_updated_at,
    sync_contacts (E := Sample.incremental) 1 Sample.state2 Sample.contacts s0
      = (Done STATE', s') /\
    get_bookmark STATE' "contacts" "updated_at"
      = Some (JStr "2020-09-13T12:26:40.005000Z") /\
    strftime (Env := Sample.incremental) max_updated_at
      = Ok "2020-09-13T12:26:40.005000Z" /\
    (1600000000002000 <= instant (Env := Sample.incremental) max_updated_at)%Z.
Proof.
  split; [vm_compute; reflexivity|]. split; [vm_compute; reflexivity|].
  destruct (sync_contacts (E := Sample.incremental) 1 Sample.state2 Sample.contacts s0)
    as [o s'] eqn:Hrun.
  assert (Hdone : o = Done (write_bookmark Sample.state2 "contacts" "updated_at"
                              (JStr "2020-09-13T12:26:40.005000Z"))).
  { apply (f_equal fst) in Hrun. cbn [fst] in Hrun. rewrite <- Hrun.
    vm_compute. reflexivity. }
  subst o.
  destruct (sync_contacts_bookmark_moves_forward (E := Sample.incremental) 1
              Sample.state2 Sample.contacts s0 _ s' Hrun)
    as (start & m & bookmark & _ & Hprior & _ & Hbook & _ & Hget & Hle).
  assert (Hstart : strptime_with_tz (Env := Sample.incremental)
                     (JStr "2020-09-13T12:26:40.002000Z") = Ok start).
  { apply Hprior; [vm_compute; reflexivity | discriminate]. }
  vm_compute in Hstart. injection Hstart as <-.
  vm_compute in Hget. injection Hget as <-.
  eexists _, s', m. split; [reflexivity|]. split; [vm_compute; reflexivity|].
  split; [exact Hbook | exact Hle].
Defined.


Lemma sync_returns_the_state_unless_contacts_witness :
  tap_stream_id Sample.lists <> "contacts" /\
  exists s',
    sync (E := Sample.listing) 1 Sample.state1 Sample.lists s0 = (Done Sample.state1, s') /\
    out s' = [SchemaMessage "lists" (JObj []) (JArr [JStr "list_id"]);
              RecordMessage "lists" (JObj [("list_id", JStr "contactlist_1")]);
              RecordMessage "lists" (JObj [("list_id", JStr "contactlist_2")])].
Proof.
  split; [discriminate|].
  destruct (sync_returns_the_state_unless_contacts (E := Sample.listing) 1 Sample.lists)
    as (routine & _ & _ & Hstate); [discriminate|].
  destruct (sync (E := Sample.listing) 1 Sample.state1 Sample.lists s0)
    as [o s'] eqn:Hrun.
  assert (Hdone : exists state', o = Done state').
  { apply (f_equal fst) in Hrun. cbn [fst] in Hrun. rewrite <- Hrun.
    eexists. vm_compute. reflexivity. }
  destruct Hdone as [state' ->]. exists s'.
  rewrite (Hstate _ _ _ _ Hrun). split; [reflexivity|].
  apply (f_equal (fun r => out (snd r))) in Hrun. cbn [snd] in Hrun. rewrite <- Hrun.
  vm_compute. reflexivity.
Defined.

Lemma transform_contact_converts_witness :
  transform_contact (E := Sample.incremental) (JObj Sample.visited) =
  Ok (JObj [("Email", JStr "a@x.com");
            ("anywhere_page_visits",
             JArr [JObj [("url", JStr "http://x.com"); ("value", JBool true)]]);
            ("mail_opened",
             JArr [JObj [("id", JStr "msg1");
                         ("timestamp", JStr "2020-09-13T12:26:40.000000Z")]])]) /\
  exists fields',
    transform_contact (E := Sample.incremental) (JObj Sample.visited) = Ok (JObj fields') /\
    map fst fields' = ["Email"; "anywhere_page_visits"; "mail_opened"] /\
    dict_get "Email" fields' = Some (JStr "a@x.com").
Proof.
  split; [reflexivity|].
  destruct (transform_contact_converts (E := Sample.incremental) Sample.visited)
    as (fields' & Hrun & Hkeys & Hspec).
  - intros prop value Hin.
    repeat (destruct Hin as [<-|Hin]; [cbn; intros [= <-]; eauto|]).
    destruct Hin.
  - intros prop value Hin.
    repeat (destruct Hin as [<-|Hin];
            [cbn; first [discriminate | intros [= <-]; eexists; split; [reflexivity|]]|]);
      [|destruct Hin].
    intros key v. cbn. destruct (String.eqb key "msg1"); [|discriminate].
    intros [= <-]. eexists. reflexivity.
  - exists fields'. split; [exact Hrun|]. split; [exact Hkeys|].
    destruct (Hspec "Email" (JStr "a@x.com") eq_refl) as (_ & _ & Hother).
    apply Hother; cbn; intuition discriminate.
Defined.

Lemma get_streams_to_sync_resumes_or_starts_witness :
  Sample.catalog <> [] /\
  get_streams_to_sync Sample.catalog Sample.interrupted =
    Ok [Sample.lists; Sample.smart_segments; Sample.smart_segments_contacts] /\
  get_streams_to_sync Sample.catalog Sample.state0 = Ok Sample.catalog.
Proof.
  split; [discriminate|]. split.
  - pose proof (get_streams_to_sync_resumes_or_starts (E := Sample.listing) 1
                  Sample.catalog Sample.interrupted s0) as H.
    destruct H as [Hresume _]; [discriminate|].
    apply (Hresume [Sample.contacts] Sample.lists
             [Sample.smart_segments; Sample.smart_segments_contacts]).
    + reflexivity.
    + reflexivity.
    + repeat constructor. discriminate.
  - apply (get_streams_to_sync_resumes_or_starts (E := Sample.listing) 1
             Sample.catalog Sample.state0 s0). discriminate.
Defined.

(** C5. The guard [if not result] of [get_streams_to_sync] also fires when
    no stream is marked: on the empty catalog, with no stream marked as
    currently syncing, the dispatcher does not start from the beginning, to
    end having done nothing as [do_sync] does when nothing is selected; it
    raises the error of an unknown stream, naming the stream [None]. *)
Lemma get_streams_to_sync_empty_catalog :
  get_streams_to_sync [] Sample.state0 = Err (Exception "Unknown stream None in state") /\
  get_streams_to_sync [] Sample.state0 <> Ok [] /\
  do_sync (E := Sample.listing) 1 Sample.state0 [] s0 =
    (Raise (Exception "Unknown stream None in state"), s0).
Proof. split; [reflexivity|]. split; [discriminate | reflexivity]. Qed.

(** ** Sample runs of the further properties *)

Lemma replay_serves_at before pages after cfg :
  serves (E := reference_env (replay (before ++ pages ++ after)) cfg)
         (length before) pages.
Proof.
  intros i page Hi. exists 200%Z. cbn [server reference_env]. unfold replay.
  rewrite lookup_app_r by lia.
  replace (length before + i - length before) with i by lia.
  rewrite (lookup_app_l_Some _ _ _ _ Hi). split; reflexivity.
Qed.

Lemma get_url_names_its_source_witness :
  get_url "smart_segments_contacts" [("segment_id", "contactlist_a")]
    = Ok "https://api2.autopilothq.com/v1/smart_segments/contactlist_a/contacts" /\
  parse_source_from_url (E := Sample.listing)
    "https://api2.autopilothq.com/v1/smart_segments/contactlist_a/contacts"
    = Ok "smart_segments_contacts".
Proof.
  split; [reflexivity|].
  apply (get_url_names_its_source (E := Sample.listing) "smart_segments_contacts"
           [("segment_id", "contactlist_a")]).
  - reflexivity.
  - intros segment_id H. cbn in H. injection H as <-. reflexivity.
Defined.

Lemma parse_source_is_a_word_witness :
  parse_source_from_url (E := Sample.listing) Sample.summer_url = Ok "été" /\
  "été" <> EmptyString /\ all_word (E := Sample.listing) "été" = true.
Proof.
  split; [reflexivity|].
  apply (parse_source_is_a_word (E := Sample.listing) Sample.summer_url). reflexivity.
Defined.

Lemma bookmark_keeps_the_url_parsable_witness :
  parse_source_from_url (E := Sample.listing) Sample.contacts_url = Ok "contacts" /\
  exists source',
    parse_source_from_url (E := Sample.listing)
      (Sample.contacts_url +:+ "/" +:+ "person_100") = Ok source' /\
    request_url Sample.contacts_url {["bookmark" := JStr "person_100"]}
    = Ok (Sample.contacts_url +:+ "/" +:+ "person_100").
Proof.
  split; [reflexivity|].
  apply (bookmark_keeps_the_url_parsable (E := Sample.listing) Sample.contacts_url
           "person_100" "contacts").
  reflexivity.
Defined.

Lemma request_rejects_a_bookmark_that_is_no_string_witness :
  ({["bookmark" := JNum 7]} : gmap string json) !! "bookmark" = Some (JNum 7) /\
  request (E := Sample.listing) Sample.contacts_url {["bookmark" := JNum 7]} s0 =
  (Raise TypeError,
   {| calls := [(Sample.contacts_url, {["bookmark" := JNum 7]})]; gets := [];
      pauses := []; out := [] |}).
Proof.
  split; [reflexivity|].
  apply (request_rejects_a_bookmark_that_is_no_string (E := Sample.listing)
           Sample.contacts_url {["bookmark" := JNum 7]} (JNum 7) s0).
  - reflexivity.
  - intros text. discriminate.
Defined.

Lemma request_uses_the_bookmark_only_witness :
  ({["bookmark" := JStr "person_100"]} : gmap string json) !! "bookmark"
  = (<["limit" := JNum 100]> {["bookmark" := JStr "person_100"]} : gmap string json)
      !! "bookmark" /\
  fst (request (E := Sample.paging) Sample.contacts_url
         {["bookmark" := JStr "person_100"]} s0)
  = fst (request (E := Sample.paging) Sample.contacts_url
           (<["limit" := JNum 100]> {["bookmark" := JStr "person_100"]}) s0).
Proof.
  split; [reflexivity|].
  apply (request_uses_the_bookmark_only (E := Sample.paging) Sample.contacts_url
           {["bookmark" := JStr "person_100"]}
           (<["limit" := JNum 100]> {["bookmark" := JStr "person_100"]}) s0).
  reflexivity.
Defined.

Lemma request_retries_a_transient_failure_witness :
  failure (server (Env := Sample.flaky) 0) = Some None /\
  client_error None = false /\
  request (E := Sample.flaky) Sample.lists_url ∅ s0 =
  (Done {| status_code := 200; payload := Some Sample.two_lists |},
   {| calls := [(Sample.lists_url, ∅)];
      gets := [(Sample.lists_url, headers (E := Sample.flaky));
               (Sample.lists_url, headers (E := Sample.flaky))];
      pauses := [2%Z]; out := [] |}).
Proof.
  split; [reflexivity|]. split; [reflexivity|].
  apply (request_retries_a_transient_failure (E := Sample.flaky) Sample.lists_url ∅
           Sample.lists_url "lists" None
           {| status_code := 200; payload := Some Sample.two_lists |} s0);
    reflexivity.
Defined.

Lemma request_gives_up_on_a_client_error_witness :
  failure (server (Env := Sample.failing) 3) = Some (Some 404%Z) /\
  client_error (Some 404%Z) = true /\
  request (E := Sample.failing) Sample.lists_url ∅ Sample.s3 =
  (Raise (RequestException (Some 404%Z)),
   {| calls := [(Sample.lists_url, ∅)];
      gets := gets Sample.s3 ++ [(Sample.lists_url, headers (E := Sample.failing))];
      pauses := []; out := [] |}).
Proof.
  split; [reflexivity|]. split; [reflexivity|].
  apply (request_gives_up_on_a_client_error (E := Sample.failing) Sample.lists_url ∅
           Sample.lists_url "lists" (Some 404%Z) Sample.s3);
    reflexivity.
Defined.

Lemma request_stops_after_five_attempts_witness :
  exists response,
    failure (server (Env := Sample.unreachable) 4) = Some response /\
    request (E := Sample.unreachable) Sample.lists_url ∅ s0 =
    (Raise (RequestException response),
     {| calls := [(Sample.lists_url, ∅)];
        gets := repeat (Sample.lists_url, headers (E := Sample.unreachable)) 5;
        pauses := [2; 4; 8; 16]%Z; out := [] |}).
Proof.
  apply (request_stops_after_five_attempts (E := Sample.unreachable) Sample.lists_url ∅
           Sample.lists_url "lists" s0); [reflexivity | reflexivity |].
  intros i _. exists None. split; reflexivity.
Defined.

Lemma gen_request_needs_the_accessor_key_witness :
  parse_source_from_url (E := Sample.paging) Sample.lists_url = Ok "lists" /\
  gen_request (E := Sample.paging) 1 Sample.lists_url ∅
    (fun _ (count : nat) => ret (S count)) 0 s0 =
  (Raise (KeyError "lists"),
   {| calls := [(Sample.lists_url, ∅)];
      gets := [(Sample.lists_url, headers (E := Sample.paging))];
      pauses := []; out := [] |}).
Proof.
  split; [reflexivity|].
  refine (gen_request_needs_the_accessor_key (E := Sample.paging) 0 Sample.lists_url
            "lists" ∅ (fun _ (count : nat) => ret (S count)) 0 s0
            (("contacts", JArr Sample.full_rows) :: [("bookmark", JStr "person_100")])
            _ _ _ _).
  - reflexivity.
  - exact I.
  - exists 200%Z. split; reflexivity.
  - reflexivity.
Defined.

Lemma plain_pages_repeat_the_request_witness :
  contains "contact" "lists" = false /\
  page_bookmark Sample.lists_with_token = Some (JStr "contactlist_100") /\
  gen_request_list (E := Sample.tokened) 2 Sample.lists_url {["limit" := JNum 100]} s0 =
  (Done (repeat (JObj [("list_id", JStr "contactlist_1")]) 100 ++
         [JObj [("list_id", JStr "contactlist_1")];
          JObj [("list_id", JStr "contactlist_2")]]),
   {| calls := [(Sample.lists_url, {["limit" := JNum 100]});
                (Sample.lists_url, {["limit" := JNum 100]})];
      gets := [(Sample.lists_url, headers (E := Sample.tokened));
               (Sample.lists_url, headers (E := Sample.tokened))];
      pauses := []; out := [] |}).
Proof.
  split; [reflexivity|]. split; [reflexivity|].
  refine (plain_pages_repeat_the_request (E := Sample.tokened) 2 Sample.lists_url "lists"
            {["limit" := JNum 100]} s0 [Sample.lists_with_token; Sample.two_lists]
            (repeat (JObj [("list_id", JStr "contactlist_1")]) 100 ++
             [JObj [("list_id", JStr "contactlist_1")];
              JObj [("list_id", JStr "contactlist_2")]]) _ _ _ _ _ _).
  - reflexivity.
  - reflexivity.
  - vm_compute. exact I.
  - apply paged_more; [reflexivity | vm_compute; lia |].
    apply paged_last; [reflexivity | vm_compute; lia].
  - apply (replay_serves [Sample.lists_with_token; Sample.two_lists] Sample.config0).
  - cbn; lia.
Defined.

Lemma sync_lists_writes_every_list_witness :
  sync_lists (E := Sample.listing) 1 Sample.lists s0 =
  (Done tt,
   {| calls := [(Sample.lists_url, ∅)];
      gets := [(Sample.lists_url, headers (E := Sample.listing))];
      pauses := [];
      out := [SchemaMessage "lists" (JObj []) (JArr [JStr "list_id"]);
              RecordMessage "lists" (JObj [("list_id", JStr "contactlist_1")]);
              RecordMessage "lists" (JObj [("list_id", JStr "contactlist_2")])] |}).
Proof.
  refine (sync_lists_writes_every_list (E := Sample.listing) 1 Sample.lists s0
            [Sample.two_lists]
            [JObj [("list_id", JStr "contactlist_1")];
             JObj [("list_id", JStr "contactlist_2")]] _ _ _).
  - apply paged_last; [reflexivity | vm_compute; lia].
  - apply (replay_serves [Sample.two_lists] Sample.config0).
  - cbn; lia.
Defined.

Lemma sync_smart_segments_writes_every_segment_witness :
  sync_smart_segments (E := Sample.memberships) 1 Sample.smart_segments s0 =
  (Done tt,
   {| calls := [("https://api2.autopilothq.com/v1/smart_segments", ∅)];
      gets := [("https://api2.autopilothq.com/v1/smart_segments",
                headers (E := Sample.memberships))];
      pauses := [];
      out := [SchemaMessage "smart_segments" (JObj []) (JArr [JStr "segment_id"]);
              RecordMessage "smart_segments" (Sample.segment "contactlist_a");
              RecordMessage "smart_segments" (Sample.segment "contactlist_b")] |}).
Proof.
  refine (sync_smart_segments_writes_every_segment (E := Sample.memberships) 1
            Sample.smart_segments s0 [Sample.segments_page]
            [Sample.segment "contactlist_a"; Sample.segment "contactlist_b"] _ _ _).
  - apply paged_last; [reflexivity | vm_compute; lia].
  - apply (replay_serves_at [] [Sample.segments_page]
             [Sample.members_a; Sample.members_b] Sample.config0).
  - cbn; lia.
Defined.

Lemma sync_lists_keeps_what_it_wrote_witness :
  failure (server (Env := Sample.breaking) 1) = Some (Some 404%Z) /\
  exists s',
    sync_lists (E := Sample.breaking) 2 Sample.lists s0
    = (Raise (RequestException (Some 404%Z)), s') /\
    length (gets s') = 2 /\
    out s' = SchemaMessage "lists" (JObj []) (JArr [JStr "list_id"])
             :: repeat (RecordMessage "lists" (JObj [("list_id", JStr "contactlist_1")])) 100.
Proof.
  split; [reflexivity|]. eexists. split.
  - apply (sync_lists_keeps_what_it_wrote (E := Sample.breaking) 2 Sample.lists s0
             [Sample.lists_page]
             (repeat (JObj [("list_id", JStr "contactlist_1")]) 100 ++ [])
             (Some 404%Z)).
    + apply full_pages_cons; [reflexivity | vm_compute; lia | apply full_pages_nil].
    + intros i page Hi. destruct i as [|i]; [|destruct i; discriminate].
      injection Hi as <-. exists 200%Z. split; reflexivity.
    + reflexivity.
    + reflexivity.
    + cbn; lia.
  - split; reflexivity.
Defined.

Lemma sync_smart_segment_contacts_writes_every_membership_witness :
  sync_smart_segment_contacts (E := Sample.memberships) 1
    Sample.smart_segments_contacts s0 =
  (Done tt,
   {| calls :=
        [("https://api2.autopilothq.com/v1/smart_segments", ∅);
         ("https://api2.autopilothq.com/v1/smart_segments/contactlist_a/contacts", ∅);
         ("https://api2.autopilothq.com/v1/smart_segments/contactlist_b/contacts", ∅)];
      gets :=
        [("https://api2.autopilothq.com/v1/smart_segments",
          headers (E := Sample.memberships));
         ("https://api2.autopilothq.com/v1/smart_segments/contactlist_a/contacts",
          headers (E := Sample.memberships));
         ("https://api2.autopilothq.com/v1/smart_segments/contactlist_b/contacts",
          headers (E := Sample.memberships))];
      pauses := [];
      out :=
        [SchemaMessage "smart_segments_contacts" (JObj [])
           (JArr [JStr "segment_id"; JStr "contact_id"]);
         membership (JStr "contactlist_a") (JStr "person_1");
         membership (JStr "contactlist_a") (JStr "person_2");
         membership (JStr "contactlist_b") (JStr "person_3")] |}).
Proof.
  refine (sync_smart_segment_contacts_writes_every_membership (E := Sample.memberships)
            1 Sample.smart_segments_contacts s0 Sample.segments_page
            [Sample.segment "contactlist_a"; Sample.segment "contactlist_b"]
            (map (membership (JStr "contactlist_a")) [JStr "person_1"; JStr "person_2"]
             ++ map (membership (JStr "contactlist_b")) [JStr "person_3"] ++ [])
            (map (pair "https://api2.autopilothq.com/v1/smart_segments/contactlist_a/contacts")
                 [∅]
             ++ map (pair "https://api2.autopilothq.com/v1/smart_segments/contactlist_b/contacts")
                    [∅] ++ [])
            _ _ _ _ _).
  - exists 200%Z. split; reflexivity.
  - reflexivity.
  - cbn; lia.
  - refine (segments_served_cons (E := Sample.memberships) 1 1 _ (JStr "contactlist_a")
              [Sample.members_a]
              [Sample.member "person_1"; Sample.member "person_2"]
              [JStr "person_1"; JStr "person_2"] _ _ _ _ _ _ _ _ _ _ _).
    + reflexivity.
    + reflexivity.
    + apply paged_last; [reflexivity | vm_compute; lia].
    + repeat constructor.
    + apply (replay_serves_at [Sample.segments_page] [Sample.members_a]
               [Sample.members_b] Sample.config0).
    + cbn; lia.
    + repeat constructor.
    + refine (segments_served_cons (E := Sample.memberships) 1 2 _ (JStr "contactlist_b")
                [Sample.members_b] [Sample.member "person_3"] [JStr "person_3"]
                [] [] [] _ _ _ _ _ _ _ _).
      * reflexivity.
      * reflexivity.
      * apply paged_last; [reflexivity | vm_compute; lia].
      * repeat constructor.
      * apply (replay_serves_at [Sample.segments_page; Sample.members_a]
                 [Sample.members_b] [] Sample.config0).
      * cbn; lia.
      * repeat constructor.
      * apply segments_served_nil.
  - lia.
Defined.

Lemma do_sync_without_selection_witness :
  get_streams_to_sync [Sample.contacts; Sample.archived] Sample.interrupted
    = Ok [Sample.archived] /\
  selected Sample.contacts = true /\
  do_sync (E := Sample.listing) 1 Sample.interrupted [Sample.contacts; Sample.archived] s0
    = (Done Sample.interrupted, s0).
Proof.
  split; [reflexivity|]. split; [reflexivity|].
  apply (do_sync_without_selection (E := Sample.listing) 1 Sample.interrupted
           [Sample.contacts; Sample.archived] [Sample.archived] s0).
  - reflexivity.
  - repeat constructor.
Defined.

Lemma do_sync_completes_witness :
  exists STATE' s',
    do_sync (E := Sample.listing) 1 Sample.state1 [Sample.lists] s0 = (Done STATE', s') /\
    same_bookmarks_but_contacts Sample.state1 STATE' /\
    currently_syncing STATE' = None /\
    exists before, out s' = out s0 ++ before ++ [StateMessage STATE'].
Proof.
  destruct (do_sync (E := Sample.listing) 1 Sample.state1 [Sample.lists] s0)
    as [o s'] eqn:Hrun.
  assert (Ho : exists STATE', o = Done STATE').
  { apply (f_equal fst) in Hrun. cbn [fst] in Hrun. rewrite <- Hrun.
    eexists. vm_compute. reflexivity. }
  destruct Ho as [STATE' ->]. exists STATE', s'. split; [reflexivity|].
  destruct (do_sync_completes (E := Sample.listing) 1 Sample.state1 [Sample.lists] s0
              STATE' s' Hrun) as (remaining & Hremaining & Hsame & Hlast).
  split; [exact Hsame|].
  assert (Hsel : get_selected_streams remaining <> []).
  { vm_compute in Hremaining. injection Hremaining as <-. discriminate. }
  destruct (Hlast Hsel) as (Hnone & before & Hout & _).
  split; [exact Hnone|]. exists before. exact Hout.
Defined.

Lemma do_sync_interrupted_witness :
  get_streams_to_sync [Sample.contacts; Sample.lists] Sample.state0
    = Ok [Sample.contacts; Sample.lists] /\
  exists s',
    do_sync (E := Sample.incremental) 1 Sample.state0 [Sample.contacts; Sample.lists] s0
      = (Raise (RequestException None), s') /\
    last_state (out s')
    = Some (set_currently_syncing
              (write_bookmark Sample.state0 "contacts" "updated_at"
                 (JStr "2020-09-13T12:26:40.005000Z"))
              (Some "lists")) /\
    exists STATE1 s1,
      completed (E := Sample.incremental) 1 Sample.state0 s0 [Sample.contacts] STATE1 s1 /\
      get_bookmark STATE1 "contacts" "updated_at"
      = Some (JStr "2020-09-13T12:26:40.005000Z") /\
      last_state (out s') = Some (set_currently_syncing STATE1 (Some "lists")).
Proof.
  split; [reflexivity|].
  destruct (do_sync (E := Sample.incremental) 1 Sample.state0
              [Sample.contacts; Sample.lists] s0) as [o s'] eqn:Hrun.
  assert (Ho : o = Raise (RequestException None)).
  { apply (f_equal fst) in Hrun. cbn [fst] in Hrun. rewrite <- Hrun.
    vm_compute. reflexivity. }
  assert (Hs : last_state (out s')
               = Some (set_currently_syncing
                         (write_bookmark Sample.state0 "contacts" "updated_at"
                            (JStr "2020-09-13T12:26:40.005000Z"))
                         (Some "lists"))).
  { apply (f_equal snd) in Hrun. cbn [snd] in Hrun. rewrite <- Hrun.
    vm_compute. reflexivity. }
  subst o. exists s'. split; [reflexivity|]. split; [exact Hs|].
  destruct (do_sync_interrupted (E := Sample.incremental) 1 Sample.state0
              [Sample.contacts; Sample.lists] [Sample.contacts; Sample.lists] s0
              (RequestException None) s' eq_refl Hrun)
    as (done & current & rest & STATE1 & s1 & Hsplit & Hdone & _ & _ & Hlast).
  rewrite Hs in Hlast.
  apply (f_equal (fun o => match o with Some v => v | None => Sample.state0 end))
    in Hlast.
  cbn beta iota in Hlast. rename Hlast into Hstate.
  change (get_selected_streams [Sample.contacts; Sample.lists])
    with [Sample.contacts; Sample.lists] in Hsplit.
  assert (Hcurrent : done = [Sample.contacts] /\ current = Sample.lists).
  { destruct done as [|d1 [|d2 [|d3 done]]]; cbn [app] in Hsplit.
    - injection Hsplit as <- _. apply (f_equal currently_syncing) in Hstate.
      discriminate Hstate.
    - injection Hsplit as <- <- _. auto.
    - injection Hsplit as _ _ Hnil. discriminate Hnil.
    - injection Hsplit as _ _ Hnil. discriminate Hnil. }
  destruct Hcurrent as [-> ->]. exists STATE1, s1. split; [exact Hdone|].
  split.
  - change (get_bookmark STATE1 "contacts" "updated_at")
      with (get_bookmark (set_currently_syncing STATE1 (Some "lists"))
              "contacts" "updated_at").
    change (tap_stream_id Sample.lists) with "lists" in Hstate.
    rewrite <- Hstate. vm_compute. reflexivity.
  - rewrite Hs. change (tap_stream_id Sample.lists) with "lists" in Hstate.
    rewrite Hstate. reflexivity.
Defined.

Lemma interrupted_sync_resumes_witness :
  Forall (fun stream => tap_stream_id stream <> EmptyString)
         [Sample.contacts; Sample.lists] /\
  exists s' value first after,
    do_sync (E := Sample.incremental) 1 Sample.state0 [Sample.contacts; Sample.lists] s0
      = (Raise (RequestException None), s') /\
    last_state (out s') = Some value /\
    get_streams_to_sync [Sample.contacts; Sample.lists] value = Ok (first :: after).
Proof.
  assert (Hnames : Forall (fun stream => tap_stream_id stream <> EmptyString)
                          [Sample.contacts; Sample.lists]).
  { repeat constructor; discriminate. }
  split; [exact Hnames|].
  destruct (do_sync (E := Sample.incremental) 1 Sample.state0
              [Sample.contacts; Sample.lists] s0) as [o s'] eqn:Hrun.
  assert (Ho : o = Raise (RequestException None)).
  { apply (f_equal fst) in Hrun. cbn [fst] in Hrun. rewrite <- Hrun.
    vm_compute. reflexivity. }
  subst o.
  destruct (interrupted_sync_resumes (E := Sample.incremental) 1 Sample.state0
              [Sample.contacts; Sample.lists] [Sample.contacts; Sample.lists] s0
              (RequestException None) s' eq_refl Hnames Hrun)
    as (value & current & s1 & before & first & after & Hlast & _ & _ & _ & _ & Hresume).
  exists s', value, first, after. auto.
Defined.

Lemma sync_contacts_persists_only_at_the_end_witness :
  exists s' records,
    sync_contacts (E := Sample.unreachable) 1 Sample.state0 Sample.contacts s0
      = (Raise (RequestException None), s') /\
    out s' = out s0 ++ SchemaMessage "contacts" (JObj []) (JArr [JStr "contact_id"])
                       :: records /\
    last_state (out s') = None.
Proof.
  destruct (sync_contacts (E := Sample.unreachable) 1 Sample.state0 Sample.contacts s0)
    as [o s'] eqn:Hrun.
  assert (Ho : o = Raise (RequestException None)).
  { apply (f_equal fst) in Hrun. cbn [fst] in Hrun. rewrite <- Hrun.
    vm_compute. reflexivity. }
  subst o.
  destruct (sync_contacts_persists_only_at_the_end (E := Sample.unreachable) 1
              Sample.state0 Sample.contacts s0 (RequestException None) s' Hrun)
    as (Hlast & records & Hout & _).
  exists s', records. split; [reflexivity|]. split; [exact Hout | exact Hlast].
Defined.

Lemma transform_contact_keeps_a_plain_contact_witness :
  transform_contact (E := Sample.listing)
    (JObj [("contact_id", JStr "person_1"); ("Email", JStr "a@x.com")])
  = Ok (JObj [("contact_id", JStr "person_1"); ("Email", JStr "a@x.com")]).
Proof.
  apply (transform_contact_keeps_a_plain_contact (E := Sample.listing)
           [("contact_id", JStr "person_1"); ("Email", JStr "a@x.com")]).
  intros prop Hin. cbn in Hin.
  repeat (destruct Hin as [<- | Hin]; [reflexivity|]). destruct Hin.
Defined.

Lemma transform_contact_rejects_a_scalar_witness :
  In "mail_opened" (boolean_props ++ timestamp_props) /\
  exists e,
    transform_contact (E := Sample.listing)
      (JObj [("contact_id", JStr "person_1"); ("mail_opened", JNull)]) = Err e.
Proof.
  assert (Hin : In "mail_opened" (boolean_props ++ timestamp_props)).
  { cbn. tauto. }
  split; [exact Hin|].
  apply (transform_contact_rejects_a_scalar (E := Sample.listing)
           [("contact_id", JStr "person_1"); ("mail_opened", JNull)]
           "mail_opened" JNull Hin); reflexivity.
Defined.
